(** * LZArena: a region-based (arena) allocator

    Shallow embedding of [lzarena.c] and the properties of its
    specification.  Machine words ([size_t], [uintptr_t], pointers) are
    64-bit and modelled as [Z] with the wrap-around written out; the typed
    objects of the program ([LZRegion], [LZArena]) live in two stores indexed
    by their address, raw bytes in a byte memory, and every call to the
    backing allocator is recorded in a log.  A region header is kept in the
    store of regions only: the bytes it occupies in its buffer are not
    modelled. *)

From Stdlib Require Import ZArith Lia List Bool.
From stdpp Require Import base tactics option list gmap fin_maps.

Local Open Scope Z_scope.

(** ** Machine words *)

Definition WORD_MODULUS : Z := 2 ^ 64.

Definition wrap (z : Z) : Z := z mod WORD_MODULUS.

(** ** Outcomes of a call

    [Ok] is a normal return.  [AssertFail] is a failed [assert], [Fault] is
    undefined behaviour of the C program (a load or store through a null or
    dangling pointer, a division by zero), [OutOfFuel] a loop that did not
    stop within its fuel. *)

Inductive result (A : Type) : Type :=
| Ok (a : A)
| AssertFail
| Fault
| OutOfFuel.

Arguments Ok {A} a.
Arguments AssertFail {A}.
Arguments Fault {A}.
Arguments OutOfFuel {A}.

(** ** Build-time constants

    [lzarena.h] and the platform supply these; the code only uses them by
    name, so they are parameters of the development. *)

Class Platform : Type := {
  PAGE_SIZE : Z;                  (* sysconf(_SC_PAGESIZE) *)
  LZARENA_DEFAULT_FACTOR : Z;
  LZARENA_DEFAULT_ALIGNMENT : Z;
  REGION_SIZE : Z;                (* sizeof(LZRegion) *)
  ARENA_SIZE : Z                  (* sizeof(LZArena) *)
}.

(** ** Data model *)

Record LZRegion : Type := mkRegion {
  region_len : Z;
  chunk_len : Z;
  offset : Z;
  chunk : Z;
  next : Z
}.

Record LZArena : Type := mkArena {
  head : Z;
  tail : Z;
  allocator : Z
}.

(** Calls made to the backing allocator.  [allocator = 0] is the built-in
    backend ([malloc], [mmap] or [VirtualAlloc]), any other value the
    caller-supplied [LZArenaAllocator]. *)
Inductive event : Type :=
| EvAcquire (allocator size ptr : Z)
| EvRelease (allocator ptr : Z).

(** The newest event is at the head of [log]. *)
Record World : Type := mkWorld {
  arenas : gmap Z LZArena;
  regions : gmap Z LZRegion;
  mem : Z -> Z;
  log : list event
}.

Definition empty_world : World :=
  mkWorld ∅ ∅ (fun _ => 0) [].

Definition set_offset (r : LZRegion) (o : Z) : LZRegion :=
  mkRegion (region_len r) (chunk_len r) o (chunk r) (next r).

Definition set_next (r : LZRegion) (n : Z) : LZRegion :=
  mkRegion (region_len r) (chunk_len r) (offset r) (chunk r) n.

Definition set_head (a : LZArena) (h : Z) : LZArena :=
  mkArena h (tail a) (allocator a).

Definition set_tail (a : LZArena) (t : Z) : LZArena :=
  mkArena (head a) t (allocator a).

(** ** The state-and-failure monad of the program *)

Definition M (A : Type) : Type := World -> result (A * World).

Definition ret {A} (a : A) : M A := fun w => Ok (a, w).

Definition bind {A B} (m : M A) (k : A -> M B) : M B :=
  fun w =>
    match m w with
    | Ok (a, w') => k a w'
    | AssertFail => AssertFail
    | Fault => Fault
    | OutOfFuel => OutOfFuel
    end.

Notation "'let*' x ':=' m 'in' k" := (bind m (fun x => k))
  (at level 10, x pattern, m at level 100, k at level 200).

Definition lift {A} (r : result A) : M A :=
  fun w =>
    match r with
    | Ok a => Ok (a, w)
    | AssertFail => AssertFail
    | Fault => Fault
    | OutOfFuel => OutOfFuel
    end.

Definition assert (b : bool) : M unit :=
  fun w => if b then Ok (tt, w) else AssertFail.

Definition fault {A} : M A := fun _ => Fault.

Definition load_region (p : Z) : M LZRegion :=
  fun w =>
    match regions w !! p with
    | Some r => if p =? 0 then Fault else Ok (r, w)
    | None => Fault
    end.

Definition store_region (p : Z) (r : LZRegion) : M unit :=
  fun w =>
    if p =? 0 then Fault
    else Ok (tt, mkWorld (arenas w) (<[p := r]> (regions w)) (mem w) (log w)).

Definition load_arena (p : Z) : M LZArena :=
  fun w =>
    match arenas w !! p with
    | Some a => if p =? 0 then Fault else Ok (a, w)
    | None => Fault
    end.

Definition store_arena (p : Z) (a : LZArena) : M unit :=
  fun w =>
    if p =? 0 then Fault
    else Ok (tt, mkWorld (<[p := a]> (arenas w)) (regions w) (mem w) (log w)).

Definition emit (e : event) : M unit :=
  fun w => Ok (tt, mkWorld (arenas w) (regions w) (mem w) (e :: log w)).

Definition regions_fuel : M nat :=
  fun w => Ok (S (size (regions w)), w).

(** [memset] and [memcpy] write one byte after the other, lowest address
    first.  A copy of no byte touches no address and returns, whatever the
    two pointers are; a copy of at least one byte from or to the null address
    faults. *)
Fixpoint memset_bytes (m : Z -> Z) (p v : Z) (n : nat) : Z -> Z :=
  match n with
  | O => m
  | S n' => memset_bytes (fun a => if a =? p then v else m a) (wrap (p + 1)) v n'
  end.

Fixpoint memcpy_bytes (m : Z -> Z) (dst src : Z) (n : nat) : Z -> Z :=
  match n with
  | O => m
  | S n' =>
      memcpy_bytes (fun a => if a =? dst then m src else m a)
                   (wrap (dst + 1)) (wrap (src + 1)) n'
  end.

Definition memset (p v n : Z) : M unit :=
  fun w =>
    if p =? 0 then Fault
    else Ok (tt, mkWorld (arenas w) (regions w)
                         (memset_bytes (mem w) p v (Z.to_nat n)) (log w)).

Definition memcpy (dst src n : Z) : M unit :=
  fun w =>
    if (0 <? n) && ((dst =? 0) || (src =? 0)) then Fault
    else Ok (tt, mkWorld (arenas w) (regions w)
                         (memcpy_bytes (mem w) dst src (Z.to_nat n)) (log w)).

(** ** Alignment utilities *)

Definition is_power_of_two (x : Z) : bool :=
  Z.land x (wrap (x - 1)) =? 0.

Definition align_size (size alignment : Z) : result Z :=
  if is_power_of_two alignment then
    if alignment =? 0 then Ok size
    else
      let module := Z.land size (wrap (alignment - 1)) in
      let padding := if module =? 0 then 0 else wrap (alignment - module) in
      Ok (wrap (padding + size))
  else AssertFail.

Definition is_aligned_to (buff alignment : Z) : result bool :=
  if is_power_of_two alignment then
    if alignment =? 0 then Fault else Ok (buff mod alignment =? 0)
  else AssertFail.

Definition align_forward (addr alignment : Z) : result Z :=
  if is_power_of_two alignment then
    let module := Z.land addr (wrap (alignment - 1)) in
    let padding := if module =? 0 then 0 else wrap (alignment - module) in
    Ok (wrap (padding + addr))
  else AssertFail.

(** ** The program *)

Section Program.

Context `{Platform}.

(** The environment: what the backing allocator answers to a request of
    [size] bytes through [allocator], given everything that happened
    before.  0 is a failed acquisition. *)
Variable backend : list event -> Z -> Z -> Z.

Definition lzalloc (size allocator : Z) : M Z :=
  fun w =>
    let p := backend (log w) allocator size in
    Ok (p, mkWorld (arenas w) (regions w) (mem w)
                   (EvAcquire allocator size p :: log w)).

Definition lzdealloc (ptr size allocator : Z) : M unit :=
  if ptr =? 0 then ret tt else emit (EvRelease allocator ptr).

Definition lzregion_init (buff_size buffer : Z) : M Z :=
  let buff_start := buffer in
  let buff_end := wrap (buff_start + buff_size) in
  let* region_start := lift (align_forward buff_start LZARENA_DEFAULT_ALIGNMENT) in
  let region_end := wrap (region_start + REGION_SIZE) in
  let* chunk_start := lift (align_forward region_end LZARENA_DEFAULT_ALIGNMENT) in
  let* _ := assert (chunk_start <=? buff_end) in
  let* _ := assert (wrap (buff_end - chunk_start) <? buff_size) in
  let chunk_len := wrap (buff_end - chunk_start) in
  let* _ := store_region region_start
              (mkRegion buff_size chunk_len chunk_start chunk_start 0) in
  ret region_start.

Definition lzregion_create (size : Z) : M Z :=
  let* buffer := lzalloc size 0 in
  if buffer =? 0 then ret 0 else lzregion_init size buffer.

Definition lzregion_destroy (region : Z) : M unit :=
  if region =? 0 then ret tt
  else
    let* _ := load_region region in
    let* _ := emit (EvRelease 0 region) in
    fun w => Ok (tt, mkWorld (arenas w) (delete region (regions w)) (mem w) (log w)).

Definition append_region (size arena : Z) : M Z :=
  let size := wrap (size + REGION_SIZE) in
  let buff_len := wrap (PAGE_SIZE * LZARENA_DEFAULT_FACTOR) in
  let* buff_len :=
    if size >? buff_len then
      if buff_len =? 0 then fault
      else
        let factor := size / buff_len in
        let factor := if wrap (factor * buff_len) <? size then wrap (factor + 1) else factor in
        ret (wrap (factor * buff_len))
    else ret buff_len in
  let* a := load_arena arena in
  let* region :=
    if negb (allocator a =? 0) then
      let* buff := lzalloc buff_len (allocator a) in
      if buff =? 0 then ret None
      else let* r := lzregion_init buff_len buff in ret (Some r)
    else
      let* r := lzregion_create buff_len in ret (Some r) in
  match region with
  | None => ret 1
  | Some region =>
      if region =? 0 then ret 1
      else
        let* a := load_arena arena in
        let* _ :=
          if negb (tail a =? 0) then
            let* t := load_region (tail a) in
            store_region (tail a) (set_next t region)
          else store_arena arena (set_head a region) in
        let* a := load_arena arena in
        let* _ := store_arena arena (set_tail a region) in
        ret 0
  end.

Definition lzregion_available (region : Z) : M Z :=
  let* r := load_region region in
  let buff_start := offset r in
  let buff_end := wrap (buff_start + chunk_len r) in
  let* _ := assert (buff_start <? buff_end) in
  ret (wrap (buff_end - buff_start)).

Definition lzregion_available_alignment (alignment region : Z) : M Z :=
  let* r := load_region region in
  let chunk_start := chunk r in
  let chunk_end := wrap (chunk_start + chunk_len r) in
  let* off := lift (align_forward (offset r) alignment) in
  ret (if off >=? chunk_end then 0 else wrap (chunk_end - off)).

Definition lzregion_alloc_align (size alignment region : Z) : M Z :=
  let* available := lzregion_available_alignment alignment region in
  if size >? available then ret 0
  else
    let* r := load_region region in
    let* off := lift (align_forward (offset r) alignment) in
    let* _ := store_region region (set_offset r (wrap (off + size))) in
    ret off.

Definition lzregion_calloc_align (size alignment region : Z) : M Z :=
  let* ptr := lzregion_alloc_align size alignment region in
  let* _ := if negb (ptr =? 0) then memset ptr 0 size else ret tt in
  ret ptr.

Definition lzregion_realloc_align (ptr old_size new_size alignment region : Z) : M Z :=
  if new_size <=? old_size then ret ptr
  else
    let* new_ptr := lzregion_alloc_align new_size alignment region in
    let* _ := if negb (ptr =? 0) then memcpy new_ptr ptr old_size else ret tt in
    ret new_ptr.

(** Modelled from the spec: the macro [LZREGION_FREE] of [lzarena.h], which
    is not part of the sources at hand.  The spec has the bulk reset put every
    region's cursor back to its base and leave the content alone. *)
Definition LZREGION_FREE (region : Z) : M unit :=
  let* r := load_region region in
  store_region region (set_offset r (chunk r)).

Definition lzarena_create (allocator : Z) : M Z :=
  let* arena := lzalloc ARENA_SIZE allocator in
  if arena =? 0 then ret 0
  else
    let* _ := store_arena arena (mkArena 0 0 allocator) in
    ret arena.

Fixpoint destroy_loop (fuel : nat) (allocator current : Z) : M unit :=
  match fuel with
  | O => fun _ => OutOfFuel
  | S fuel' =>
      if current =? 0 then ret tt
      else
        let* r := load_region current in
        let next := next r in
        let* _ :=
          if negb (allocator =? 0) then
            let* _ := lzdealloc current (region_len r) allocator in
            fun w => Ok (tt, mkWorld (arenas w) (delete current (regions w)) (mem w) (log w))
          else lzregion_destroy current in
        destroy_loop fuel' allocator next
  end.

Definition lzarena_destroy (arena : Z) : M unit :=
  if arena =? 0 then ret tt
  else
    let* a := load_arena arena in
    let* fuel := regions_fuel in
    let* _ := destroy_loop fuel (allocator a) (head a) in
    let* _ := lzdealloc arena ARENA_SIZE (allocator a) in
    fun w => Ok (tt, mkWorld (delete arena (arenas w)) (regions w) (mem w) (log w)).

Fixpoint report_loop (fuel : nat) (u s current : Z) : M (Z * Z) :=
  match fuel with
  | O => fun _ => OutOfFuel
  | S fuel' =>
      if current =? 0 then ret (u, s)
      else
        let* r := load_region current in
        let next := next r in
        let* available := lzregion_available current in
        let u := wrap (u + wrap (chunk_len r - available)) in
        let s := wrap (s + chunk_len r) in
        report_loop fuel' u s next
  end.

(** [lzarena_report] returns the pair it stores through [used] and [size]. *)
Definition lzarena_report (arena : Z) : M (Z * Z) :=
  let* a := load_arena arena in
  let* fuel := regions_fuel in
  report_loop fuel 0 0 (head a).

Fixpoint free_all_loop (fuel : nat) (current : Z) : M unit :=
  match fuel with
  | O => fun _ => OutOfFuel
  | S fuel' =>
      if current =? 0 then ret tt
      else
        let* r := load_region current in
        let next := next r in
        let* _ := LZREGION_FREE current in
        free_all_loop fuel' next
  end.

Definition lzarena_free_all (arena : Z) : M unit :=
  let* a := load_arena arena in
  let* fuel := regions_fuel in
  let* _ := free_all_loop fuel (head a) in
  let* a := load_arena arena in
  store_arena arena (set_tail a (head a)).

Fixpoint search_loop (fuel : nat) (size alignment arena : Z) : M unit :=
  match fuel with
  | O => fun _ => OutOfFuel
  | S fuel' =>
      let* a := load_arena arena in
      let* t := load_region (tail a) in
      if next t =? 0 then ret tt
      else
        let* available := lzregion_available_alignment alignment (tail a) in
        if available <? size then
          let* _ := store_arena arena (set_tail a (next t)) in
          search_loop fuel' size alignment arena
        else ret tt
  end.

Definition lzarena_alloc_align (size alignment arena : Z) : M Z :=
  let* a := load_arena arena in
  let* failed :=
    if tail a =? 0 then
      let* rc := append_region size arena in ret (negb (rc =? 0))
    else ret false in
  if failed : bool then ret 0
  else
    let* fuel := regions_fuel in
    let* _ := search_loop fuel size alignment arena in
    let* a := load_arena arena in
    let* available := lzregion_available_alignment alignment (tail a) in
    let* failed :=
      if size >? available then
        let* rc := append_region size arena in ret (negb (rc =? 0))
      else ret false in
    if failed : bool then ret 0
    else
      let* a := load_arena arena in
      lzregion_alloc_align size alignment (tail a).

Definition lzarena_calloc_align (size alignment arena : Z) : M Z :=
  let* ptr := lzarena_alloc_align size alignment arena in
  let* _ := if negb (ptr =? 0) then memset ptr 0 size else ret tt in
  ret ptr.

Definition lzarena_realloc_align (ptr old_size new_size alignment arena : Z) : M Z :=
  if new_size <=? old_size then ret ptr
  else
    let* new_ptr := lzarena_alloc_align new_size alignment arena in
    let* _ := if negb (ptr =? 0) then memcpy new_ptr ptr old_size else ret tt in
    ret new_ptr.

End Program.

(** ** Reference configuration and a model backing allocator

    A concrete instance of the build-time constants (an LP64 Linux build:
    4 KiB pages, a five-word region header) and a backing allocator that
    hands out page-aligned buffers upwards from 64 KiB and fails once
    [budget] buffers have been acquired.  They are used to run the program
    on concrete inputs. *)

#[local] Instance linux64 : Platform := {|
  PAGE_SIZE := 4096;
  LZARENA_DEFAULT_FACTOR := 1;
  LZARENA_DEFAULT_ALIGNMENT := 16;
  REGION_SIZE := 40;
  ARENA_SIZE := 24
|}.

(** Upper bound of the addresses the backing allocator hands out: buffers
    live in the lower half of the 64-bit address space. *)
Definition ADDR_LIMIT : Z := 2 ^ 63.

(** Buffers acquired and not yet released, as (address, length). *)
Fixpoint outstanding (l : list event) : list (Z * Z) :=
  match l with
  | [] => []
  | EvAcquire _ n p :: l' =>
      if p =? 0 then outstanding l' else (p, n) :: outstanding l'
  | EvRelease _ p :: l' =>
      List.filter (fun b => negb (fst b =? p)) (outstanding l')
  end.

Fixpoint acquired (l : list event) : list (Z * Z) :=
  match l with
  | [] => []
  | EvAcquire _ n p :: l' =>
      if p =? 0 then acquired l' else (p, n) :: acquired l'
  | EvRelease _ _ :: l' => acquired l'
  end.

Definition high_water (l : list event) : Z :=
  fold_right (fun b acc => Z.max (fst b + snd b) acc) 65536 (acquired l).

Definition bump_backend (budget : nat) (l : list event) (allocator n : Z) : Z :=
  if (length (acquired l) <? budget)%nat then
    let p := (high_water l + 4095) / 4096 * 4096 in
    if p + n <=? ADDR_LIMIT then p else 0
  else 0.

(** The spec's wording of "power of two": exactly one set bit. *)
Definition popcount (x : Z) : nat :=
  length (filter (fun i => Z.testbit x (Z.of_nat i) = true) (seq 0 64)).

(** Smallest multiple of [al] that is at least [a]. *)
Definition align_up (a al : Z) : Z := a + (al - a mod al) mod al.

(** * Specification vocabulary

    Well-formed heaps and arenas, what the environment must guarantee, and
    the clients used to state the properties. *)

Section Vocabulary.

Context `{Platform}.
Variable backend : list event -> Z -> Z -> Z.

(** [chain rs p l]: following [next] from [p] visits exactly the regions at
    the addresses [l], and ends on a null link. *)
Fixpoint chain (rs : gmap Z LZRegion) (p : Z) (l : list Z) : Prop :=
  match l with
  | [] => p = 0
  | k :: l' =>
      p = k /\ k <> 0 /\
      match rs !! k with
      | Some r => chain rs (next r) l'
      | None => False
      end
  end.

(** The header of a region sits at its address [k], in front of its usable
    span; the cursor is at or after the base; header and span lie inside one
    buffer that is still held from the backing allocator. *)
Definition region_ok (lg : list event) (k : Z) (r : LZRegion) : Prop :=
  0 < k /\ k < chunk r /\ chunk r <= offset r /\ offset r <= ADDR_LIMIT /\
  0 <= chunk_len r /\ chunk r + chunk_len r <= ADDR_LIMIT /\
  Exists (fun b => fst b <= k /\ chunk r + chunk_len r <= fst b + snd b)
         (outstanding lg).

Definition footprint_disjoint (k1 : Z) (r1 : LZRegion) (k2 : Z) (r2 : LZRegion) : Prop :=
  chunk r1 + chunk_len r1 <= k2 \/ chunk r2 + chunk_len r2 <= k1.

Record heap_inv (w : World) : Prop := {
  hi_regions : forall k r, regions w !! k = Some r -> region_ok (log w) k r;
  hi_disjoint : forall k1 r1 k2 r2,
      regions w !! k1 = Some r1 -> regions w !! k2 = Some r2 -> k1 <> k2 ->
      footprint_disjoint k1 r1 k2 r2
}.

(** [tail] is null exactly on the empty chain. *)
Definition tail_ok (l : list Z) (t : Z) : Prop :=
  (l = [] /\ t = 0) \/ t ∈ l.

Record arena_inv (w : World) (a : Z) (l : list Z) : Prop := {
  ai_heap : heap_inv w;
  ai_nonnull : a <> 0;
  ai_arena : exists A,
      arenas w !! a = Some A /\ chain (regions w) (head A) l /\ tail_ok l (tail A)
}.

(** Position of [x] in [l] (the length of [l] when absent). *)
Fixpoint index_of (x : Z) (l : list Z) : nat :=
  match l with
  | [] => O
  | y :: l' => if x =? y then O else S (index_of x l')
  end.

(** What the environment must guarantee: a buffer handed out lies in the
    lower half of the address space and overlaps no buffer still held. *)
Definition backend_sound (backend : list event -> Z -> Z -> Z) : Prop :=
  forall lg al n, 0 <= n ->
    let p := backend lg al n in
    p = 0 \/
    (0 < p /\ p + n <= ADDR_LIMIT /\
     Forall (fun b => p + n <= fst b \/ fst b + snd b <= p) (outstanding lg)).

(** Length of the default block, and what the constants must satisfy: the
    default alignment is a power of two and a default block has room for a
    region header and its two alignment paddings. *)
Definition DEFAULT_BLOCK : Z := PAGE_SIZE * LZARENA_DEFAULT_FACTOR.

Record platform_ok : Prop := {
  pf_align : exists d, 0 <= d < 64 /\ LZARENA_DEFAULT_ALIGNMENT = 2 ^ d;
  pf_header : 0 < REGION_SIZE;
  pf_block : REGION_SIZE + 2 * LZARENA_DEFAULT_ALIGNMENT <= DEFAULT_BLOCK;
  pf_block_max : DEFAULT_BLOCK <= ADDR_LIMIT
}.

(** Length of the buffer [append_region] asks for. *)
Definition growth_len (size : Z) : Z :=
  let size := wrap (size + REGION_SIZE) in
  let buff_len := wrap (PAGE_SIZE * LZARENA_DEFAULT_FACTOR) in
  if size >? buff_len then
    let factor := size / buff_len in
    let factor := if wrap (factor * buff_len) <? size then wrap (factor + 1) else factor in
    wrap (factor * buff_len)
  else buff_len.

(** Bytes left in a region once its cursor is aligned. *)
Definition avail_spec (r : LZRegion) (al : Z) : Z :=
  let v := align_up (offset r) al in
  if v >=? chunk r + chunk_len r then 0 else chunk r + chunk_len r - v.

(** Two ranges [p, p+n) and [q, q+m) share an address. *)
Definition overlap (b1 b2 : Z * Z) : Prop :=
  Z.max (fst b1) (fst b2) < Z.min (fst b1 + snd b1) (fst b2 + snd b2).

(** The range [p, p+n) lies in [lo, hi). *)
Definition range_within (p n lo hi : Z) : Prop :=
  forall x, p <= x < p + n -> lo <= x < hi.

Definition bump (w : World) (k : Z) (r : LZRegion) (o : Z) : World :=
  mkWorld (arenas w) (<[k := set_offset r o]> (regions w)) (mem w) (log w).

(** Address of the header and base of the usable span of a region carved
    out of a buffer at [b]. *)
Definition region_key (b : Z) : Z := align_up b LZARENA_DEFAULT_ALIGNMENT.

Definition region_base (b : Z) : Z :=
  align_up (region_key b + REGION_SIZE) LZARENA_DEFAULT_ALIGNMENT.

Definition fresh_region (n b : Z) : LZRegion :=
  mkRegion n (b + n - region_base b) (region_base b) (region_base b) 0.

(** What a successful [append_region] leaves behind: one new region, at
    the end of the chain, carved out of the buffer [b] of length [n]. *)
Record appended (a : Z) (l : list Z) (A : LZArena) (n b : Z) (w w' : World) : Prop := {
  apd_buffer : 0 < b /\ b + n <= ADDR_LIMIT /\ region_base b <= b + n;
  apd_absent : regions w !! region_key b = None;
  apd_inv : arena_inv w' a (l ++ [region_key b]);
  apd_arena :
    arenas w' =
    <[a := mkArena (if tail A =? 0 then region_key b else head A)
                   (region_key b) (allocator A)]> (arenas w);
  apd_new : regions w' !! region_key b = Some (fresh_region n b);
  apd_old : forall k0 r0, regions w !! k0 = Some r0 ->
      exists r0', regions w' !! k0 = Some r0' /\
        region_len r0' = region_len r0 /\ chunk_len r0' = chunk_len r0 /\
        chunk r0' = chunk r0 /\ offset r0' = offset r0 /\
        (k0 <> tail A -> r0' = r0);
  apd_mem : mem w' = mem w;
  apd_log : log w' = EvAcquire (allocator A) n b :: log w
}.

(** [grows a l w l' w']: from the world [w], where the chain of arena [a]
    is [l], to the world [w'], where it is [l']: the chain is only extended
    at its end, by regions that did not exist; bytes are not written;
    regions keep their buffer and span and their cursor does not move
    back; [tail] does not move back; regions strictly before [tail] are not
    touched. *)
Record grows (a : Z) (l : list Z) (w : World) (l' : list Z) (w' : World) : Prop := {
  g_prefix : l `prefix_of` l';
  g_fresh : forall k, k ∈ l' -> k ∉ l -> regions w !! k = None;
  g_mem : mem w' = mem w;
  g_regions : forall k r, regions w !! k = Some r ->
      exists r', regions w' !! k = Some r' /\
        region_len r' = region_len r /\ chunk_len r' = chunk_len r /\
        chunk r' = chunk r /\ offset r <= offset r';
  g_arena : forall A, arenas w !! a = Some A ->
      exists A', arenas w' !! a = Some A' /\ allocator A' = allocator A /\
        (l <> [] -> head A' = head A) /\
        (index_of (tail A) l <= index_of (tail A') l')%nat;
  g_before : forall A i k, arenas w !! a = Some A ->
      (i < index_of (tail A) l)%nat -> l !! i = Some k ->
      regions w' !! k = regions w !! k
}.

(** The block handed out: aligned, cut from the tail region at or after
    the place where that region's cursor stood, the cursor now at its end. *)
Definition served (sz al a : Z) (w : World) (p : Z) (w' : World) : Prop :=
  p <> 0 ->
  p mod al = 0 /\
  exists A' rt',
    arenas w' !! a = Some A' /\ regions w' !! tail A' = Some rt' /\
    offset rt' = p + sz /\ chunk rt' <= p /\
    (0 < sz -> p + sz <= chunk rt' + chunk_len rt') /\
    (forall r, regions w !! tail A' = Some r -> offset r <= p).

Definition alloc_post (sz al a : Z) (l : list Z) (w : World)
           (res : result (Z * World)) : Prop :=
  match res with
  | Ok (p, w') =>
      exists l', arena_inv w' a l' /\ grows a l w l' w' /\ served sz al a w p w'
  | AssertFail => 2 ^ 64 < sz + REGION_SIZE + DEFAULT_BLOCK
  | _ => False
  end.

(** The code after the search loop, and the code after the first growth. *)
Definition alloc_finish (sz al a : Z) : M Z :=
  let* A := load_arena a in
  let* available := lzregion_available_alignment al (tail A) in
  let* failed :=
    if sz >? available then
      let* rc := append_region backend sz a in ret (negb (rc =? 0))
    else ret false in
  if failed : bool then ret 0
  else
    let* A := load_arena a in
    lzregion_alloc_align sz al (tail A).

Definition alloc_search (sz al a : Z) : M Z :=
  let* fuel := regions_fuel in
  let* _ := search_loop fuel sz al a in
  alloc_finish sz al a.

(** A client that issues the requests [reqs] (size, alignment) one after the
    other, with no reset in between, and keeps the blocks it got as
    (address, size), in the order of the calls. *)
Fixpoint alloc_many (reqs : list (Z * Z)) (a : Z) : M (list (Z * Z)) :=
  match reqs with
  | [] => ret []
  | (sz, al) :: rest =>
      let* p := lzarena_alloc_align backend sz al a in
      let* blocks := alloc_many rest a in
      ret ((p, sz) :: blocks)
  end.

Definition valid_request (req : Z * Z) : Prop :=
  0 <= fst req < 2 ^ 64 /\ exists j, 0 <= j < 64 /\ snd req = 2 ^ j.

(** A block that was handed out is null, or empty, or lies in the part of
    its region's span that the cursor has passed. *)
Definition consumed (w : World) (blk : Z * Z) : Prop :=
  fst blk = 0 \/ snd blk = 0 \/
  exists k r, regions w !! k = Some r /\ 0 < snd blk /\ chunk r <= fst blk /\
              fst blk + snd blk <= offset r /\
              fst blk + snd blk <= chunk r + chunk_len r.

(** The chain of an arena, read off the heap, and the position of [tail] in
    it. *)
Fixpoint walk (fuel : nat) (rs : gmap Z LZRegion) (p : Z) : list Z :=
  match fuel with
  | O => []
  | S fuel' =>
      if p =? 0 then []
      else match rs !! p with
           | Some r => p :: walk fuel' rs (next r)
           | None => []
           end
  end.

Definition chain_of (a : Z) (w : World) : list Z :=
  match arenas w !! a with
  | Some A => walk (S (size (regions w))) (regions w) (head A)
  | None => []
  end.

Definition tail_position (a : Z) (w : World) : nat :=
  match arenas w !! a with
  | Some A => index_of (tail A) (chain_of a w)
  | None => O
  end.

(** The worlds and results of a sequence of requests with no reset in
    between: the i-th entry is what the i-th call returned and the world it
    left. *)
Fixpoint alloc_run (reqs : list (Z * Z)) (a : Z) (w : World) : result (list (Z * World)) :=
  match reqs with
  | [] => Ok []
  | (sz, al) :: rest =>
      match lzarena_alloc_align backend sz al a w with
      | Ok (p, w') =>
          match alloc_run rest a w' with
          | Ok tr => Ok ((p, w') :: tr)
          | AssertFail => AssertFail
          | Fault => Fault
          | OutOfFuel => OutOfFuel
          end
      | AssertFail => AssertFail
      | Fault => Fault
      | OutOfFuel => OutOfFuel
      end
  end.

(** One call, from [w] to [w'], returning [p] for a request of [sz] bytes:
    the chain is extended at its end only, [tail] does not move back, the
    regions strictly before the old [tail] are exactly as they were, and a
    block that is handed out lies in the region [tail] now points to. *)
Definition forward_step (a sz : Z) (w : World) (p : Z) (w' : World) : Prop :=
  chain_of a w `prefix_of` chain_of a w' /\
  (tail_position a w <= tail_position a w')%nat /\
  (forall i k, (i < tail_position a w)%nat -> chain_of a w !! i = Some k ->
     regions w' !! k = regions w !! k) /\
  (p <> 0 ->
   exists t r, chain_of a w' !! tail_position a w' = Some t /\
     regions w' !! t = Some r /\ offset r = p + sz /\
     range_within p sz (chunk r) (chunk r + chunk_len r)).

Fixpoint forward_trace (a : Z) (w : World) (reqs : list (Z * Z))
         (tr : list (Z * World)) : Prop :=
  match reqs, tr with
  | [], [] => True
  | (sz, _) :: reqs', (p, w') :: tr' =>
      forward_step a sz w p w' /\ forward_trace a w' reqs' tr'
  | _, _ => False
  end.

(** [p] is the address of a block of [n] bytes handed out earlier: the
    block lies in the part of a region's span that the cursor has passed. *)
Definition live_block (w : World) (p n : Z) : Prop :=
  exists k r, regions w !! k = Some r /\ chunk r <= p /\
    p + n <= offset r /\ p + n <= chunk r + chunk_len r.

(** What [lzarena_report] computes as the total, and when its assertion
    holds on every region of the chain. *)
Fixpoint report_spec (rs : gmap Z LZRegion) (l : list Z) (s : Z) : option Z :=
  match l with
  | [] => Some s
  | k :: l' =>
      match rs !! k with
      | Some r =>
          if offset r <? wrap (offset r + chunk_len r)
          then report_spec rs l' (wrap (s + chunk_len r))
          else None
      | None => None
      end
  end.

(** Sum of the span lengths of the regions of a chain. *)
Fixpoint total_span (rs : gmap Z LZRegion) (l : list Z) : Z :=
  match l with
  | [] => 0
  | k :: l' =>
      match rs !! k with
      | Some r => chunk_len r + total_span rs l'
      | None => total_span rs l'
      end
  end.

(** A fresh arena, then the requests [reqs]. *)
Definition setup (reqs : list (Z * Z)) : M (Z * list (Z * Z)) :=
  let* a := lzarena_create backend 0 in
  let* blocks := alloc_many reqs a in
  ret (a, blocks).

End Vocabulary.

(** ** Runs on the reference configuration *)

Definition world_of {A} (r : result (A * World)) : World :=
  match r with
  | Ok (_, w) => w
  | _ => empty_world
  end.

(** A backing allocator with room to spare, and one that gives out three
    buffers only: the arena header and two regions. *)
Definition demo_backend : list event -> Z -> Z -> Z := bump_backend 8.

Definition scarce_backend : list event -> Z -> Z -> Z := bump_backend 3.

Definition demo_requests : list (Z * Z) := [(100, 16); (5000, 16)].

Definition demo_arena : Z := 65536.

Definition demo_blocks : list (Z * Z) := [(69680, 100); (73776, 5000)].

Definition demo_chain : list Z := [69632; 73728].

Definition fresh_world : World :=
  world_of (lzarena_create demo_backend 0 empty_world).

Definition demo_world : World :=
  world_of (setup demo_backend demo_requests empty_world).

(** Two regions, then a bulk reset: [tail] is back on the first region. *)
Definition scarce_world : World :=
  world_of ((let* ab := setup scarce_backend demo_requests in
             lzarena_free_all (fst ab)) empty_world).

Definition scarce_pre_world : World :=
  world_of (setup scarce_backend demo_requests empty_world).

(** * Proofs *)

(** ** Word arithmetic *)

Lemma wrap_small z : 0 <= z < 2 ^ 64 -> wrap z = z.
Proof. intros Hz. unfold wrap, WORD_MODULUS. apply Z.mod_small. exact Hz. Qed.

Lemma wrap_range z : 0 <= wrap z < 2 ^ 64.
Proof. unfold wrap, WORD_MODULUS. apply Z.mod_pos_bound. lia. Qed.

Lemma pow2_lt_word j : 0 <= j < 64 -> 0 < 2 ^ j <= 2 ^ 63.
Proof.
  intros Hj. split; [apply Z.pow_pos_nonneg; lia|].
  apply Z.pow_le_mono_r; lia.
Qed.

Lemma land_pred_pow2 x j : 0 <= j -> Z.land x (2 ^ j - 1) = x mod 2 ^ j.
Proof.
  intros Hj. rewrite <- Z.land_ones by exact Hj.
  rewrite Z.ones_equiv. reflexivity.
Qed.

Lemma is_power_of_two_pow2 j : 0 <= j < 64 -> is_power_of_two (2 ^ j) = true.
Proof.
  intros Hj. unfold is_power_of_two.
  pose proof (pow2_lt_word j Hj) as Hp.
  rewrite wrap_small by lia.
  rewrite land_pred_pow2 by lia.
  rewrite Z.mod_same by lia. reflexivity.
Qed.

Lemma is_power_of_two_zero : is_power_of_two 0 = true.
Proof. reflexivity. Qed.

Lemma is_power_of_two_inv x :
  0 < x < 2 ^ 64 -> is_power_of_two x = true -> exists j, 0 <= j < 64 /\ x = 2 ^ j.
Proof.
  intros Hx Hp. unfold is_power_of_two in Hp.
  rewrite wrap_small in Hp by lia.
  apply Z.eqb_eq in Hp.
  exists (Z.log2 x).
  destruct (Z.log2_spec x) as [Hlo Hhi]; [lia|].
  assert (Hl : 0 <= Z.log2 x) by apply Z.log2_nonneg.
  assert (Hl64 : Z.log2 x < 64).
  { apply Z.log2_lt_pow2; lia. }
  split; [lia|].
  destruct (Z.eq_dec x (2 ^ Z.log2 x)) as [|Hne]; [assumption|exfalso].
  assert (Hlog : Z.log2 (x - 1) = Z.log2 x).
  { apply Z.log2_unique; lia. }
  assert (Hb1 : Z.testbit x (Z.log2 x) = true) by (apply Z.bit_log2; lia).
  assert (Hb2 : Z.testbit (x - 1) (Z.log2 x) = true).
  { rewrite <- Hlog. apply Z.bit_log2. lia. }
  assert (Hb : Z.testbit (Z.land x (x - 1)) (Z.log2 x) = true).
  { rewrite Z.land_spec, Hb1, Hb2. reflexivity. }
  rewrite Hp in Hb. rewrite Z.bits_0 in Hb. discriminate.
Qed.

Lemma filter_length_one {A} (P : A -> Prop) `{!forall x, Decision (P x)} (l : list A) :
  length (filter P l) = 1%nat ->
  exists x, x ∈ l /\ P x /\ forall y, y ∈ l -> P y -> y = x.
Proof.
  intros Hlen.
  destruct (filter P l) as [|x [|? ?]] eqn:Hf; simpl in Hlen; try discriminate.
  exists x.
  assert (Hx : x ∈ filter P l) by (rewrite Hf; left).
  apply list_elem_of_filter in Hx as [HP Hin].
  split; [exact Hin|]. split; [exact HP|].
  intros y Hy HPy.
  assert (Hy' : y ∈ filter P l) by (apply list_elem_of_filter; auto).
  rewrite Hf in Hy'. apply list_elem_of_singleton in Hy'. exact Hy'.
Qed.

Lemma testbit_above_word x n : 0 <= x < 2 ^ 64 -> 64 <= n -> Z.testbit x n = false.
Proof.
  intros Hx Hn.
  destruct (Z.eq_dec x 0) as [->|Hne]; [apply Z.bits_0|].
  apply Z.bits_above_log2; [lia|].
  assert (Z.log2 x < 64) by (apply Z.log2_lt_pow2; lia). lia.
Qed.

Lemma popcount_one_inv x :
  0 <= x < 2 ^ 64 -> popcount x = 1%nat -> exists j, 0 <= j < 64 /\ x = 2 ^ j.
Proof.
  intros Hx Hpc. unfold popcount in Hpc.
  apply filter_length_one in Hpc as (i & Hi & Hbit & Huniq).
  apply elem_of_seq in Hi.
  exists (Z.of_nat i). split; [lia|].
  apply Z.bits_inj'. intros n Hn.
  rewrite Z.pow2_bits_eqb by lia.
  destruct (Z.eqb_spec (Z.of_nat i) n) as [<-|Hne]; [exact Hbit|].
  destruct (Z_lt_le_dec n 64) as [Hlt|Hge].
  - destruct (Z.testbit x n) eqn:Hb; [|reflexivity].
    exfalso. apply Hne.
    assert (Z.to_nat n = i).
    { apply Huniq; [apply elem_of_seq; lia|]. rewrite Z2Nat.id by lia. exact Hb. }
    lia.
  - apply testbit_above_word; lia.
Qed.

Lemma popcount_pow2 j : 0 <= j < 64 -> popcount (2 ^ j) = 1%nat.
Proof.
  intros Hj.
  assert (Hall : forallb (fun i => Nat.eqb (popcount (2 ^ Z.of_nat i)) 1) (seq 0 64) = true)
    by (vm_compute; reflexivity).
  rewrite forallb_forall in Hall.
  specialize (Hall (Z.to_nat j)).
  rewrite Z2Nat.id in Hall by lia.
  apply Nat.eqb_eq, Hall, in_seq. lia.
Qed.

(** ** Forward alignment *)

Lemma align_up_spec a al :
  0 < al -> a <= align_up a al < a + al /\ align_up a al mod al = 0.
Proof.
  intros Hal. unfold align_up.
  pose proof (Z.mod_pos_bound a al Hal) as Hm.
  pose proof (Z.div_mod a al ltac:(lia)) as Hdm.
  destruct (Z.eq_dec (a mod al) 0) as [H0|Hne].
  - rewrite H0, Z.sub_0_r, Z.mod_same by lia. rewrite Z.add_0_r. lia.
  - rewrite (Z.mod_small (al - a mod al)) by lia.
    split; [lia|].
    replace (a + (al - a mod al)) with ((a / al + 1) * al) by lia.
    apply Z.mod_mul. lia.
Qed.

Lemma align_up_least a al m :
  0 < al -> a <= m -> m mod al = 0 -> align_up a al <= m.
Proof.
  intros Hal Hle Hm.
  destruct (align_up_spec a al Hal) as [Hr Hv].
  apply Z.mod_divide in Hm; [|lia]. apply Z.mod_divide in Hv; [|lia].
  destruct Hm as [qm Hqm]. destruct Hv as [qv Hqv].
  destruct (Z_le_gt_dec (align_up a al) m) as [|Hgt]; [assumption|exfalso].
  assert (qm < qv) by nia.
  nia.
Qed.

Lemma align_up_limit a j :
  0 <= j < 64 -> a <= ADDR_LIMIT -> align_up a (2 ^ j) <= ADDR_LIMIT.
Proof.
  intros Hj Ha. pose proof (pow2_lt_word j Hj).
  apply align_up_least; [lia|assumption|].
  unfold ADDR_LIMIT. replace 63 with (63 - j + j) by lia.
  rewrite Z.pow_add_r by lia. apply Z.mod_mul. lia.
Qed.

Lemma align_forward_pow2 a j :
  0 <= j < 64 -> 0 <= a -> align_up a (2 ^ j) < 2 ^ 64 ->
  align_forward a (2 ^ j) = Ok (align_up a (2 ^ j)).
Proof.
  intros Hj Ha Hv. pose proof (pow2_lt_word j Hj) as Hp.
  unfold align_forward. rewrite is_power_of_two_pow2 by exact Hj.
  rewrite (wrap_small (2 ^ j - 1)) by lia.
  rewrite land_pred_pow2 by lia.
  pose proof (Z.mod_pos_bound a (2 ^ j) ltac:(lia)) as Hm.
  f_equal. unfold align_up in *.
  destruct (Z.eqb_spec (a mod 2 ^ j) 0) as [H0|Hne].
  - rewrite H0, Z.sub_0_r, Z.mod_same in * by lia.
    rewrite Z.add_0_r in *. rewrite Z.add_0_l. apply wrap_small. lia.
  - rewrite (Z.mod_small (2 ^ j - a mod 2 ^ j)) in * by lia.
    rewrite (wrap_small (2 ^ j - a mod 2 ^ j)) by lia.
    rewrite Z.add_comm. apply wrap_small. lia.
Qed.

(** ** C6: the power-of-two test *)

Lemma is_power_of_two_spec x :
  0 <= x < 2 ^ 64 ->
  is_power_of_two x = true <-> x = 0 \/ exists j, 0 <= j < 64 /\ x = 2 ^ j.
Proof.
  intros Hx. split.
  - intros Hp. destruct (Z.eq_dec x 0) as [|Hne]; [left; assumption|right].
    apply is_power_of_two_inv; [lia|assumption].
  - intros [->|(j & Hj & ->)]; [reflexivity|apply is_power_of_two_pow2; assumption].
Qed.

(** C6 fails on the code at x = 0: the word 0 has no set bit, and
    [is_power_of_two] accepts it.  The test is the assertion that guards
    every alignment argument, so alignment 0 gets through: on a region with
    span [69680, 73728) and cursor 69780, a request of 64 bytes with
    alignment 0 returns null and sets the cursor to 64, and the next request,
    8 bytes aligned to 16, is handed the address 64, which is in no
    buffer. *)
Theorem is_power_of_two_accepts_zero :
  is_power_of_two 0 = true /\ popcount 0 <> 1%nat /\
  align_forward 69780 0 = Ok 0 /\
  exists w1 w2,
    regions demo_world !! 69632 = Some (mkRegion 4096 4048 69780 69680 73728) /\
    lzregion_alloc_align 64 0 69632 demo_world = Ok (0, w1) /\
    regions w1 !! 69632 = Some (mkRegion 4096 4048 64 69680 73728) /\
    lzregion_alloc_align 8 16 69632 w1 = Ok (64, w2).
Proof.
  split; [reflexivity|]. split; [vm_compute; discriminate|].
  split; [vm_compute; reflexivity|].
  exists (world_of (lzregion_alloc_align 64 0 69632 demo_world)).
  exists (world_of (lzregion_alloc_align 8 16 69632
                      (world_of (lzregion_alloc_align 64 0 69632 demo_world)))).
  split; [vm_compute; reflexivity|]. split; [vm_compute; reflexivity|].
  split; vm_compute; reflexivity.
Qed.

(** What the test computes: for every machine word x, [is_power_of_two x]
    is true if and only if x is 0 or has exactly one set bit. *)
Theorem is_power_of_two_iff_at_most_one_bit x :
  0 <= x < 2 ^ 64 ->
  is_power_of_two x = true <-> x = 0 \/ popcount x = 1%nat.
Proof.
  intros Hx. rewrite is_power_of_two_spec by exact Hx.
  split; (intros [H0|H1]; [left; exact H0|right]).
  - destruct H1 as (j & Hj & ->). apply popcount_pow2. exact Hj.
  - apply popcount_one_inv; assumption.
Qed.

Lemma is_power_of_two_iff_at_most_one_bit_witness :
  is_power_of_two 4096 = true <-> 4096 = 0 \/ popcount 4096 = 1%nat.
Proof. apply (is_power_of_two_iff_at_most_one_bit 4096). lia. Defined.

(** ** C10: destroying a null handle *)

(** C10: [lzarena_destroy(NULL)] and [lzregion_destroy(NULL)] return at once;
    the world, and so the log of backend calls, is left as it was. *)
Theorem destroy_null_is_noop `{Platform} (w : World) :
  lzarena_destroy 0 w = Ok (tt, w) /\ lzregion_destroy 0 w = Ok (tt, w).
Proof. split; reflexivity. Qed.

(** ** Basic facts on chains *)

Lemma chain_nonzero rs p l k : chain rs p l -> k ∈ l -> k <> 0.
Proof.
  revert p. induction l as [|k0 l IH]; intros p Hc Hin.
  - inversion Hin.
  - destruct Hc as (-> & Hk0 & Hc). apply elem_of_cons in Hin as [->|Hin]; [assumption|].
    destruct (rs !! k0); [|contradiction]. eapply IH; eassumption.
Qed.

Lemma chain_lookup rs p l k : chain rs p l -> k ∈ l -> is_Some (rs !! k).
Proof.
  revert p. induction l as [|k0 l IH]; intros p Hc Hin.
  - inversion Hin.
  - destruct Hc as (-> & Hk0 & Hc). destruct (rs !! k0) eqn:Hl; [|contradiction].
    apply elem_of_cons in Hin as [->|Hin]; [rewrite Hl; eauto|].
    eapply IH; eassumption.
Qed.

Lemma chain_functional rs p l1 l2 : chain rs p l1 -> chain rs p l2 -> l1 = l2.
Proof.
  revert p l2. induction l1 as [|k l1 IH]; intros p [|k2 l2] H1 H2; auto.
  - simpl in *. destruct H2 as (? & ? & _). congruence.
  - simpl in *. destruct H1 as (? & ? & _). congruence.
  - destruct H1 as (-> & _ & H1). destruct H2 as (<- & _ & H2).
    destruct (rs !! k); [|contradiction]. f_equal. eapply IH; eassumption.
Qed.

Lemma chain_suffix rs p l1 k l2 :
  chain rs p (l1 ++ k :: l2) -> chain rs k (k :: l2).
Proof.
  revert p. induction l1 as [|k0 l1 IH]; intros p Hc.
  - destruct Hc as (-> & Hc). split; [reflexivity|exact Hc].
  - destruct Hc as (-> & _ & Hc). destruct (rs !! k0); [|contradiction].
    eapply IH; eassumption.
Qed.

Lemma chain_nodup rs p l : chain rs p l -> NoDup l.
Proof.
  revert p. induction l as [|k l IH]; intros p Hc; [constructor|].
  pose proof Hc as Hc0.
  destruct Hc as (-> & Hk & Hc). destruct (rs !! k) eqn:Hl; [|contradiction].
  constructor; [|eapply IH; eassumption].
  intros Hin. apply list_elem_of_split in Hin as (l1 & l2 & ->).
  pose proof (chain_suffix _ _ _ _ _ Hc) as Hs.
  pose proof (chain_functional _ _ _ _ Hc0 Hs) as Heq.
  apply (f_equal length) in Heq. simpl in Heq. rewrite length_app in Heq. simpl in Heq. lia.
Qed.

Lemma chain_length rs p l : chain rs p l -> (length l <= size rs)%nat.
Proof.
  intros Hc.
  rewrite <- (size_list_to_set (C := gset Z) l) by (eapply chain_nodup; eassumption).
  rewrite <- size_dom. apply subseteq_size.
  intros k Hk. apply elem_of_list_to_set in Hk.
  apply elem_of_dom. eapply chain_lookup; eassumption.
Qed.

Lemma chain_insert_keep rs p l k r r' :
  chain rs p l -> rs !! k = Some r -> next r' = next r ->
  chain (<[k := r']> rs) p l.
Proof.
  intros Hc Hk Hn. revert p Hc. induction l as [|k0 l IH]; intros p Hc; [exact Hc|].
  destruct Hc as (-> & Hk0 & Hc). split; [reflexivity|]. split; [assumption|].
  destruct (decide (k = k0)) as [->|Hne].
  - rewrite lookup_insert_eq. rewrite Hk in Hc. rewrite Hn. apply IH, Hc.
  - rewrite lookup_insert_ne by assumption.
    destruct (rs !! k0); [|contradiction]. apply IH, Hc.
Qed.

Lemma chain_insert_fresh rs p l k r :
  chain rs p l -> k ∉ l -> chain (<[k := r]> rs) p l.
Proof.
  revert p. induction l as [|k0 l IH]; intros p Hc Hk; [exact Hc|].
  destruct Hc as (-> & Hk0 & Hc). apply not_elem_of_cons in Hk as [Hne Hk].
  split; [reflexivity|]. split; [assumption|].
  rewrite lookup_insert_ne by assumption.
  destruct (rs !! k0); [|contradiction]. apply IH; assumption.
Qed.

Lemma chain_last_next rs p l t r :
  chain rs p l -> last l = Some t -> rs !! t = Some r -> next r = 0.
Proof.
  revert p. induction l as [|k l IH]; intros p Hc Hl Hr; [discriminate|].
  destruct Hc as (-> & Hk & Hc). destruct l as [|k' l].
  - simpl in Hl. injection Hl as ->. rewrite Hr in Hc. exact Hc.
  - destruct (rs !! k); [|contradiction]. eapply IH; eauto.
Qed.

Lemma chain_next_zero_last rs p l1 t l2 r :
  chain rs p (l1 ++ t :: l2) -> rs !! t = Some r -> next r = 0 -> l2 = [].
Proof.
  intros Hc Hr Hn. apply chain_suffix in Hc. destruct Hc as (_ & _ & Hc).
  rewrite Hr, Hn in Hc. destruct l2 as [|k l2]; [reflexivity|].
  destruct Hc as (<- & Hk & _). congruence.
Qed.

Lemma chain_snoc rs p l t rt k r :
  chain rs p l -> last l = Some t -> rs !! t = Some rt ->
  k <> 0 -> k ∉ l -> next r = 0 ->
  chain (<[k := r]> (<[t := set_next rt k]> rs)) p (l ++ [k]).
Proof.
  intros Hc Hl Ht Hk Hnin Hn. pose proof (chain_nodup _ _ _ Hc) as Hnd.
  revert p Hc Hl Hnin Hnd. induction l as [|k0 l IH]; intros p Hc Hl Hnin Hnd; [discriminate|].
  destruct Hc as (-> & Hk0 & Hc). apply not_elem_of_cons in Hnin as [Hne Hnin].
  apply NoDup_cons in Hnd as [Hk0l Hnd].
  simpl. split; [reflexivity|]. split; [assumption|].
  rewrite lookup_insert_ne by assumption.
  destruct l as [|k1 l].
  - simpl in Hl. injection Hl as ->. rewrite lookup_insert_eq. simpl.
    split; [reflexivity|]. split; [assumption|].
    rewrite lookup_insert_eq. exact Hn.
  - assert (Hlast : last (k1 :: l) = Some t) by exact Hl.
    assert (Htne : t <> k0).
    { intros ->. apply Hk0l. apply last_Some in Hlast as [l' ->].
      apply elem_of_app. right. left. }
    rewrite lookup_insert_ne by assumption.
    destruct (rs !! k0); [|contradiction].
    apply IH; assumption.
Qed.

(** ** Running the monad *)

Lemma bind_ok {A B} (m : M A) (k : A -> M B) w a w1 :
  m w = Ok (a, w1) -> bind m k w = k a w1.
Proof. unfold bind. intros ->. reflexivity. Qed.

Lemma load_region_ok w k r :
  regions w !! k = Some r -> k <> 0 -> load_region k w = Ok (r, w).
Proof.
  intros Hr Hk. unfold load_region. rewrite Hr.
  destruct (Z.eqb_spec k 0); [contradiction|reflexivity].
Qed.

Lemma load_arena_ok w a A :
  arenas w !! a = Some A -> a <> 0 -> load_arena a w = Ok (A, w).
Proof.
  intros Hr Hk. unfold load_arena. rewrite Hr.
  destruct (Z.eqb_spec a 0); [contradiction|reflexivity].
Qed.

Lemma store_region_ok w k r :
  k <> 0 ->
  store_region k r w = Ok (tt, mkWorld (arenas w) (<[k := r]> (regions w)) (mem w) (log w)).
Proof.
  intros Hk. unfold store_region. destruct (Z.eqb_spec k 0); [contradiction|reflexivity].
Qed.

Lemma store_arena_ok w a A :
  a <> 0 ->
  store_arena a A w = Ok (tt, mkWorld (<[a := A]> (arenas w)) (regions w) (mem w) (log w)).
Proof.
  intros Hk. unfold store_arena. destruct (Z.eqb_spec a 0); [contradiction|reflexivity].
Qed.

Lemma world_eta w : mkWorld (arenas w) (regions w) (mem w) (log w) = w.
Proof. destruct w; reflexivity. Qed.

Lemma set_tail_id A : set_tail A (tail A) = A.
Proof. destruct A; reflexivity. Qed.

(** ** One region *)

Lemma avail_spec_fits lg k r j size :
  region_ok lg k r -> 0 <= j < 64 -> 0 <= size -> size <= avail_spec r (2 ^ j) ->
  let v := align_up (offset r) (2 ^ j) in
  offset r <= v /\ v <= ADDR_LIMIT /\ v mod 2 ^ j = 0 /\
  v + size <= ADDR_LIMIT /\ (0 < size -> v + size <= chunk r + chunk_len r).
Proof.
  intros (Hk & Hkc & Hco & Hol & Hlen & Hend & _) Hj Hsz Hfit v.
  pose proof (pow2_lt_word j Hj) as Hp.
  destruct (align_up_spec (offset r) (2 ^ j) ltac:(lia)) as [Hr Hm].
  pose proof (align_up_limit (offset r) j Hj Hol) as Hlim.
  fold v in Hr, Hm, Hlim. unfold avail_spec in Hfit. fold v in Hfit.
  destruct (Z.geb_spec v (chunk r + chunk_len r)); repeat split; lia.
Qed.

Lemma avail_spec_range lg k r j :
  region_ok lg k r -> 0 <= j < 64 -> 0 <= avail_spec r (2 ^ j) <= ADDR_LIMIT.
Proof.
  intros (Hk & Hkc & Hco & Hol & Hlen & Hend & _) Hj.
  pose proof (pow2_lt_word j Hj) as Hp.
  destruct (align_up_spec (offset r) (2 ^ j) ltac:(lia)) as [Hr Hm].
  unfold avail_spec.
  destruct (Z.geb_spec (align_up (offset r) (2 ^ j)) (chunk r + chunk_len r)); lia.
Qed.

Lemma region_align_forward lg k r j :
  region_ok lg k r -> 0 <= j < 64 ->
  align_forward (offset r) (2 ^ j) = Ok (align_up (offset r) (2 ^ j)).
Proof.
  intros (Hk & Hkc & Hco & Hol & Hlen & Hend & _) Hj.
  pose proof (align_up_limit (offset r) j Hj Hol) as Hlim.
  apply align_forward_pow2; [assumption|lia|].
  unfold ADDR_LIMIT in Hlim. lia.
Qed.

Lemma region_avail_ok w lg k r j :
  regions w !! k = Some r -> region_ok lg k r -> 0 <= j < 64 ->
  lzregion_available_alignment (2 ^ j) k w = Ok (avail_spec r (2 ^ j), w).
Proof.
  intros Hr Hok Hj. pose proof Hok as (Hk & Hkc & Hco & Hol & Hlen & Hend & _).
  unfold lzregion_available_alignment.
  rewrite (bind_ok _ _ _ _ _ (load_region_ok w k r Hr ltac:(lia))).
  rewrite (region_align_forward lg k r j Hok Hj). unfold lift, bind, ret.
  pose proof (pow2_lt_word j Hj) as Hp.
  destruct (align_up_spec (offset r) (2 ^ j) ltac:(lia)) as [Hv Hm].
  rewrite (wrap_small (chunk r + chunk_len r)) by (unfold ADDR_LIMIT in *; lia).
  unfold avail_spec.
  destruct (Z.geb_spec (align_up (offset r) (2 ^ j)) (chunk r + chunk_len r));
    [reflexivity|].
  rewrite wrap_small by (unfold ADDR_LIMIT in *; lia). reflexivity.
Qed.

Lemma region_alloc_ok w lg k r j size :
  regions w !! k = Some r -> region_ok lg k r -> 0 <= j < 64 -> 0 <= size < 2 ^ 64 ->
  lzregion_alloc_align size (2 ^ j) k w =
  Ok (if size >? avail_spec r (2 ^ j) then (0, w)
      else (align_up (offset r) (2 ^ j),
            bump w k r (align_up (offset r) (2 ^ j) + size))).
Proof.
  intros Hr Hok Hj Hsz. pose proof Hok as (Hk & _).
  unfold lzregion_alloc_align.
  rewrite (bind_ok _ _ _ _ _ (region_avail_ok w lg k r j Hr Hok Hj)).
  destruct (Z.gtb_spec size (avail_spec r (2 ^ j))) as [Hgt|Hle]; [reflexivity|].
  rewrite (bind_ok _ _ _ _ _ (load_region_ok w k r Hr ltac:(lia))).
  rewrite (region_align_forward lg k r j Hok Hj). unfold lift at 1. unfold bind at 1.
  destruct (avail_spec_fits lg k r j size Hok Hj ltac:(lia) Hle) as (H1 & H2 & H3 & H4 & H5).
  pose proof Hok as (_ & Hkc & Hco & _).
  rewrite wrap_small by (unfold ADDR_LIMIT in *; lia).
  rewrite (bind_ok _ _ _ _ _ (store_region_ok w k _ ltac:(lia))).
  reflexivity.
Qed.

Lemma region_ok_bump lg k r o :
  region_ok lg k r -> offset r <= o <= ADDR_LIMIT -> region_ok lg k (set_offset r o).
Proof.
  intros (Hk & Hkc & Hco & Hol & Hlen & Hend & Hb) Ho.
  unfold region_ok. simpl. repeat split; try lia. exact Hb.
Qed.

Lemma heap_inv_update w k r r' :
  heap_inv w -> regions w !! k = Some r -> region_ok (log w) k r' ->
  chunk r' = chunk r -> chunk_len r' = chunk_len r ->
  heap_inv (mkWorld (arenas w) (<[k := r']> (regions w)) (mem w) (log w)).
Proof.
  intros [Hreg Hdis] Hr Hok Hc Hl. split; simpl.
  - intros k0 r0 H0. destruct (decide (k = k0)) as [->|Hne].
    + rewrite lookup_insert_eq in H0. injection H0 as <-. exact Hok.
    + rewrite lookup_insert_ne in H0 by assumption. apply Hreg, H0.
  - intros k1 r1 k2 r2 H1 H2 Hne. unfold footprint_disjoint.
    destruct (decide (k1 = k)) as [->|Hne1]; destruct (decide (k2 = k)) as [->|Hne2].
    + contradiction.
    + rewrite lookup_insert_eq in H1. injection H1 as <-.
      rewrite lookup_insert_ne in H2 by congruence.
      rewrite Hc, Hl. apply (Hdis k r k2 r2); assumption.
    + rewrite lookup_insert_eq in H2. injection H2 as <-.
      rewrite lookup_insert_ne in H1 by congruence.
      rewrite Hc, Hl. apply (Hdis k1 r1 k r); assumption.
    + rewrite lookup_insert_ne in H1, H2 by congruence.
      apply (Hdis k1 r1 k2 r2); assumption.
Qed.

Lemma heap_inv_arenas w ar :
  heap_inv w -> heap_inv (mkWorld ar (regions w) (mem w) (log w)).
Proof. intros [Hreg Hdis]. split; simpl; assumption. Qed.

(** ** Positions in the chain *)

Lemma index_of_lookup l i x : NoDup l -> l !! i = Some x -> index_of x l = i.
Proof.
  revert i. induction l as [|y l IH]; intros i Hnd Hi; [discriminate|].
  apply NoDup_cons in Hnd as [Hy Hnd]. simpl.
  destruct i as [|i]; simpl in Hi.
  - injection Hi as ->. rewrite Z.eqb_refl. reflexivity.
  - destruct (Z.eqb_spec x y) as [->|Hne].
    + exfalso. apply Hy. eapply list_elem_of_lookup_2. eassumption.
    + f_equal. apply IH; assumption.
Qed.

Lemma index_of_middle l1 x l2 : NoDup (l1 ++ x :: l2) -> index_of x (l1 ++ x :: l2) = length l1.
Proof.
  intros Hnd. apply index_of_lookup; [assumption|].
  rewrite lookup_app_r by lia. rewrite Nat.sub_diag. reflexivity.
Qed.

Lemma index_of_app_l l1 l2 x : x ∈ l1 -> index_of x (l1 ++ l2) = index_of x l1.
Proof.
  induction l1 as [|y l1 IH]; intros Hin; [inversion Hin|]. simpl.
  destruct (Z.eqb_spec x y); [reflexivity|].
  apply elem_of_cons in Hin as [?|Hin]; [contradiction|]. f_equal. apply IH, Hin.
Qed.

Lemma index_of_le_length x l : (index_of x l <= length l)%nat.
Proof.
  induction l as [|y l IH]; simpl; [lia|]. destruct (x =? y); lia.
Qed.

Lemma index_of_absent x l : x ∉ l -> index_of x l = length l.
Proof.
  induction l as [|y l IH]; intros Hx; [reflexivity|].
  apply not_elem_of_cons in Hx as [Hne Hx]. simpl.
  destruct (Z.eqb_spec x y); [contradiction|]. f_equal. apply IH, Hx.
Qed.

Lemma index_of_elem x l : x ∈ l -> l !! index_of x l = Some x.
Proof.
  induction l as [|y l IH]; intros Hin; [inversion Hin|]. simpl.
  destruct (Z.eqb_spec x y) as [->|Hne]; [reflexivity|].
  apply elem_of_cons in Hin as [?|Hin]; [contradiction|]. simpl. apply IH, Hin.
Qed.

(** ** The search loop of [lzarena_alloc_align] *)

Lemma search_loop_spec size j a l2 :
  forall t w A fuel,
    a <> 0 -> arenas w !! a = Some A -> tail A = t ->
    chain (regions w) t (t :: l2) ->
    (forall k r, regions w !! k = Some r -> region_ok (log w) k r) ->
    (length l2 < fuel)%nat -> 0 <= j < 64 ->
    exists pre t' post w',
      t :: l2 = pre ++ t' :: post /\
      search_loop fuel size (2 ^ j) a w = Ok (tt, w') /\
      arenas w' = <[a := set_tail A t']> (arenas w) /\
      regions w' = regions w /\ mem w' = mem w /\ log w' = log w /\
      (forall k r, k ∈ pre -> regions w !! k = Some r -> avail_spec r (2 ^ j) < size) /\
      (forall r, regions w !! t' = Some r -> post = [] \/ size <= avail_spec r (2 ^ j)).
Proof.
  induction l2 as [|k1 l2 IH]; intros t w A fuel Ha HA Ht Hc Hok Hfuel Hj;
    (destruct fuel as [|fuel]; [simpl in Hfuel; lia|]);
    destruct Hc as (_ & Htnz & Hc); destruct (regions w !! t) as [rt|] eqn:Hrt;
      try contradiction; cbn [search_loop];
    rewrite (bind_ok _ _ _ _ _ (load_arena_ok w a A HA Ha)); rewrite Ht;
    rewrite (bind_ok _ _ _ _ _ (load_region_ok w t rt Hrt Htnz)).
  - simpl in Hc. rewrite Hc. simpl.
    exists [], t, [], w. repeat split; try reflexivity.
    + rewrite <- Ht, set_tail_id. symmetry. apply insert_id. assumption.
    + intros k r Hk. inversion Hk.
    + intros r _. left. reflexivity.
  - destruct Hc as (Hn & Hk1 & Hc). rewrite Hn.
    destruct (Z.eqb_spec k1 0) as [|_]; [contradiction|].
    rewrite (bind_ok _ _ _ _ _ (region_avail_ok w (log w) t rt j Hrt (Hok _ _ Hrt) Hj)).
    destruct (Z.ltb_spec (avail_spec rt (2 ^ j)) size) as [Hlt|Hge].
    + rewrite (bind_ok _ _ _ _ _ (store_arena_ok w a _ Ha)).
      set (w1 := mkWorld (<[a := set_tail A k1]> (arenas w)) (regions w) (mem w) (log w)).
      destruct (IH k1 w1 (set_tail A k1) fuel Ha) as
          (pre & t' & post & w' & Hsplit & Hrun & Har & Hreg & Hmem & Hlog & Hpre & Hpost).
      * subst w1. simpl. apply lookup_insert_eq.
      * reflexivity.
      * subst w1. simpl. split; [reflexivity|]. split; [assumption|]. exact Hc.
      * exact Hok.
      * simpl in Hfuel. lia.
      * exact Hj.
      * exists (t :: pre), t', post, w'. repeat split.
        -- simpl. f_equal. exact Hsplit.
        -- exact Hrun.
        -- rewrite Har. subst w1. simpl. rewrite insert_insert_eq. reflexivity.
        -- exact Hreg.
        -- exact Hmem.
        -- exact Hlog.
        -- intros k r Hk Hr. apply elem_of_cons in Hk as [->|Hk].
           ++ rewrite Hrt in Hr. injection Hr as <-. exact Hlt.
           ++ eapply Hpre; eassumption.
        -- exact Hpost.
    + exists [], t, (k1 :: l2), w. repeat split; try reflexivity.
      * rewrite <- Ht, set_tail_id. symmetry. apply insert_id. assumption.
      * intros k r Hk. inversion Hk.
      * intros r Hr. rewrite Hrt in Hr. injection Hr as <-. right. exact Hge.
Qed.

(** ** Growing the chain *)

Section Growth.

Context `{Platform}.
Hypothesis platform_good : platform_ok.

Lemma default_alignment_pos : 0 < LZARENA_DEFAULT_ALIGNMENT <= 2 ^ 63.
Proof. destruct (pf_align platform_good) as (d & Hd & ->). apply pow2_lt_word, Hd. Qed.

Lemma init_facts b :
  0 < b -> b <= ADDR_LIMIT ->
  b <= region_key b < b + LZARENA_DEFAULT_ALIGNMENT /\
  region_key b <= ADDR_LIMIT /\
  region_key b + REGION_SIZE <= region_base b
    < region_key b + REGION_SIZE + LZARENA_DEFAULT_ALIGNMENT.
Proof.
  intros Hb Hlim. pose proof default_alignment_pos as Hda.
  unfold region_base, region_key.
  destruct (pf_align platform_good) as (d & Hd & Hdeq).
  pose proof (align_up_limit b d Hd Hlim) as Hk. rewrite <- Hdeq in Hk.
  destruct (align_up_spec b _ (proj1 Hda)) as [H1 _].
  destruct (align_up_spec (align_up b LZARENA_DEFAULT_ALIGNMENT + REGION_SIZE)
              _ (proj1 Hda)) as [H2 _].
  lia.
Qed.

Lemma block_bounds :
  0 < REGION_SIZE /\ 0 < LZARENA_DEFAULT_ALIGNMENT /\
  REGION_SIZE + 2 * LZARENA_DEFAULT_ALIGNMENT <= DEFAULT_BLOCK /\ DEFAULT_BLOCK <= 2 ^ 63.
Proof.
  pose proof default_alignment_pos. pose proof (pf_header platform_good).
  pose proof (pf_block platform_good). pose proof (pf_block_max platform_good) as Hm.
  unfold ADDR_LIMIT in Hm. lia.
Qed.

Lemma lzregion_init_spec w n b :
  0 < b -> 0 <= n -> b + n <= ADDR_LIMIT ->
  lzregion_init n b w =
  if region_base b <=? b + n then
    Ok (region_key b,
        mkWorld (arenas w) (<[region_key b := fresh_region n b]> (regions w)) (mem w) (log w))
  else AssertFail.
Proof.
  intros Hb Hn Hlim. pose proof block_bounds as (Hrs & Hda & Hblk & Hmax).
  assert (Hlim' : b + n <= 2 ^ 63) by exact Hlim.
  destruct (init_facts b Hb ltac:(unfold ADDR_LIMIT; lia)) as (Hk & Hkl & Hc).
  assert (Hkl' : region_key b <= 2 ^ 63) by exact Hkl.
  destruct (pf_align platform_good) as (d & Hd & Hdeq).
  unfold lzregion_init.
  assert (E1 : align_forward b LZARENA_DEFAULT_ALIGNMENT = Ok (region_key b)).
  { unfold region_key. rewrite Hdeq. apply align_forward_pow2; [assumption|lia|].
    rewrite <- Hdeq. fold (region_key b). lia. }
  rewrite E1. unfold lift at 1. unfold bind at 1.
  rewrite (wrap_small (region_key b + REGION_SIZE)) by lia.
  assert (E2 : align_forward (region_key b + REGION_SIZE) LZARENA_DEFAULT_ALIGNMENT
               = Ok (region_base b)).
  { unfold region_base. rewrite Hdeq. apply align_forward_pow2; [assumption|lia|].
    rewrite <- Hdeq. fold (region_base b). lia. }
  rewrite E2. unfold lift at 1. unfold bind at 1.
  rewrite (wrap_small (b + n)) by lia.
  unfold assert at 1. unfold bind at 1.
  destruct (Z.leb_spec (region_base b) (b + n)) as [Hle|Hgt]; [|reflexivity].
  rewrite (wrap_small (b + n - region_base b)) by lia.
  unfold assert at 1. unfold bind at 1.
  destruct (Z.ltb_spec (b + n - region_base b) n) as [_|Hge]; [|lia].
  assert (Hknz : region_key b <> 0) by lia.
  rewrite (bind_ok _ _ _ _ _ (store_region_ok w (region_key b) _ Hknz)).
  reflexivity.
Qed.

Lemma growth_len_range size : 0 <= growth_len size < 2 ^ 64.
Proof.
  unfold growth_len.
  destruct (_ >? _); apply wrap_range.
Qed.

Lemma growth_len_bounds size :
  0 <= size -> size + REGION_SIZE + DEFAULT_BLOCK <= 2 ^ 64 ->
  DEFAULT_BLOCK <= growth_len size /\ size + REGION_SIZE <= growth_len size.
Proof.
  intros Hsz Hfit. pose proof block_bounds as (Hrs & Hda & Hblk & Hmax).
  unfold growth_len. fold DEFAULT_BLOCK.
  rewrite (wrap_small (size + REGION_SIZE)) by lia.
  rewrite (wrap_small DEFAULT_BLOCK) by lia.
  destruct (Z.gtb_spec (size + REGION_SIZE) DEFAULT_BLOCK) as [Hgt|Hle]; [|lia].
  set (s := size + REGION_SIZE) in *. set (L := DEFAULT_BLOCK) in *.
  pose proof (Z.mul_div_le s L ltac:(lia)) as Hq1.
  pose proof (Z.mul_succ_div_gt s L ltac:(lia)) as Hq2.
  assert (Hq0 : 0 <= s / L) by (apply Z.div_pos; lia).
  rewrite (wrap_small (s / L * L)) by lia.
  destruct (Z.ltb_spec (s / L * L) s) as [Hlt|Hge].
  - rewrite (wrap_small (s / L + 1)) by nia.
    rewrite wrap_small by nia. nia.
  - rewrite wrap_small by lia. nia.
Qed.

(** The growth computation makes no room for alignment padding: for a
    request of two default blocks less the header, the buffer is exactly two
    default blocks, and as soon as the header or the base needs padding the
    usable span of the new region is smaller than the request. *)
Lemma growth_ignores_padding b :
  0 < b -> b + 2 * DEFAULT_BLOCK <= ADDR_LIMIT ->
  b + REGION_SIZE < region_base b ->
  let sz := 2 * DEFAULT_BLOCK - REGION_SIZE in
  DEFAULT_BLOCK < sz /\ growth_len sz = 2 * DEFAULT_BLOCK /\
  chunk_len (fresh_region (growth_len sz) b) < sz.
Proof.
  intros Hb Hlim Hpad sz. pose proof block_bounds as (Hrs & Hda & Hblk & Hmax).
  assert (Hlim' : b + 2 * DEFAULT_BLOCK <= 2 ^ 63) by exact Hlim.
  assert (Hg : growth_len sz = 2 * DEFAULT_BLOCK).
  { unfold growth_len, sz. fold DEFAULT_BLOCK.
    replace (2 * DEFAULT_BLOCK - REGION_SIZE + REGION_SIZE) with (2 * DEFAULT_BLOCK) by lia.
    rewrite (wrap_small (2 * DEFAULT_BLOCK)), (wrap_small DEFAULT_BLOCK) by lia.
    destruct (Z.gtb_spec (2 * DEFAULT_BLOCK) DEFAULT_BLOCK) as [_|]; [|lia].
    rewrite Z.div_mul by lia.
    rewrite (wrap_small (2 * DEFAULT_BLOCK)) by lia.
    destruct (Z.ltb_spec (2 * DEFAULT_BLOCK) (2 * DEFAULT_BLOCK)) as [|_]; [lia|].
    apply wrap_small. lia. }
  split; [unfold sz; lia|]. split; [exact Hg|].
  rewrite Hg. unfold fresh_region, sz. simpl. lia.
Qed.

End Growth.

Section Arena.

Context `{Platform}.
Hypothesis platform_good : platform_ok.

Variable backend : list event -> Z -> Z -> Z.
Hypothesis backend_good : backend_sound backend.

Lemma region_ok_acquire lg al n b k r :
  region_ok lg k r -> region_ok (EvAcquire al n b :: lg) k r.
Proof.
  intros (H1 & H2 & H3 & H4 & H5 & H6 & Hb). repeat split; try assumption.
  simpl. destruct (b =? 0); [assumption|]. apply Exists_cons_tl. exact Hb.
Qed.

Lemma fresh_buffer_disjoint lg k0 r0 b n :
  region_ok lg k0 r0 ->
  Forall (fun b0 => b + n <= fst b0 \/ fst b0 + snd b0 <= b) (outstanding lg) ->
  b + n <= k0 \/ chunk r0 + chunk_len r0 <= b.
Proof.
  intros (_ & _ & _ & _ & _ & _ & Hex) Hall.
  apply Exists_exists in Hex as ([b0 n0] & Hin & Hlo & Hhi).
  rewrite Forall_forall in Hall. specialize (Hall _ Hin). simpl in *. lia.
Qed.

(** The heap after a region has been carved out of a new buffer. *)
Lemma heap_inv_append w al n b ar (rs' : gmap Z LZRegion) :
  heap_inv w -> 0 < b -> 0 <= n -> b + n <= ADDR_LIMIT ->
  Forall (fun b0 => b + n <= fst b0 \/ fst b0 + snd b0 <= b) (outstanding (log w)) ->
  region_base b <= b + n ->
  rs' !! region_key b = Some (fresh_region n b) ->
  (forall k0 r', k0 <> region_key b -> rs' !! k0 = Some r' ->
     exists r0, regions w !! k0 = Some r0 /\ chunk r' = chunk r0 /\
                chunk_len r' = chunk_len r0 /\ offset r' = offset r0) ->
  heap_inv (mkWorld ar rs' (mem w) (EvAcquire al n b :: log w)).
Proof.
  intros [Hreg Hdis] Hb Hn Hlim Hfresh Hfit Hnew Hold.
  destruct (init_facts platform_good b Hb ltac:(lia)) as (Hk & Hkl & Hc).
  pose proof (block_bounds platform_good) as (Hrs & Hda & _).
  assert (Hfr : region_ok (EvAcquire al n b :: log w) (region_key b) (fresh_region n b)).
  { unfold region_ok, fresh_region. simpl.
    destruct (Z.eqb_spec b 0) as [|_]; [lia|].
    repeat split; try lia. apply Exists_cons_hd. simpl. lia. }
  assert (Hold_ok : forall k0 r', k0 <> region_key b -> rs' !! k0 = Some r' ->
            region_ok (EvAcquire al n b :: log w) k0 r' /\
            (b + n <= k0 \/ chunk r' + chunk_len r' <= b)).
  { intros k0 r' Hne Hr'. destruct (Hold _ _ Hne Hr') as (r0 & Hr0 & E1 & E2 & E3).
    pose proof (Hreg _ _ Hr0) as Hok0.
    pose proof (fresh_buffer_disjoint _ _ _ _ _ Hok0 Hfresh) as Hd.
    rewrite E1, E2. split; [|exact Hd].
    apply region_ok_acquire.
    destruct Hok0 as (H1 & H2 & H3 & H4 & H5 & H6 & H7).
    unfold region_ok. rewrite E1, E2, E3. repeat split; assumption. }
  split; simpl.
  - intros k0 r' Hr'. destruct (decide (k0 = region_key b)) as [->|Hne].
    + rewrite Hnew in Hr'. injection Hr' as <-. exact Hfr.
    + apply Hold_ok; assumption.
  - intros k1 r1 k2 r2 H1 H2 Hne. unfold footprint_disjoint.
    destruct (decide (k1 = region_key b)) as [->|Hne1];
      destruct (decide (k2 = region_key b)) as [->|Hne2].
    + contradiction.
    + rewrite Hnew in H1. injection H1 as <-.
      destruct (Hold_ok _ _ Hne2 H2) as [_ Hd]. unfold fresh_region. simpl. lia.
    + rewrite Hnew in H2. injection H2 as <-.
      destruct (Hold_ok _ _ Hne1 H1) as [_ Hd]. unfold fresh_region. simpl. lia.
    + destruct (Hold _ _ Hne1 H1) as (r1' & Hr1 & E1 & E2 & _).
      destruct (Hold _ _ Hne2 H2) as (r2' & Hr2 & E3 & E4 & _).
      rewrite E1, E2, E3, E4. apply (Hdis k1 r1' k2 r2'); assumption.
Qed.

Lemma fresh_key_absent w b n :
  heap_inv w -> 0 < b -> 0 <= n -> b + n <= ADDR_LIMIT ->
  Forall (fun b0 => b + n <= fst b0 \/ fst b0 + snd b0 <= b) (outstanding (log w)) ->
  region_base b <= b + n ->
  regions w !! region_key b = None.
Proof.
  intros [Hreg _] Hb Hn Hlim Hfresh Hfit.
  destruct (regions w !! region_key b) as [r0|] eqn:Hr0; [exfalso|reflexivity].
  destruct (init_facts platform_good b Hb ltac:(lia)) as (Hk & Hkl & Hc).
  pose proof (block_bounds platform_good) as (Hrs & Hda & _).
  pose proof (Hreg _ _ Hr0) as Hok0.
  pose proof (fresh_buffer_disjoint _ _ _ _ _ Hok0 Hfresh) as Hd.
  destruct Hok0 as (H1 & H2 & H3 & H4 & H5 & H6 & H7). lia.
Qed.

(** The first step of [append_region] computes [growth_len]. *)
Lemma append_region_unfold size a w :
  append_region backend size a w =
  (let* buff_len := ret (growth_len size) in
   let* A := load_arena a in
   let* region :=
     if negb (allocator A =? 0) then
       let* buff := lzalloc backend buff_len (allocator A) in
       if buff =? 0 then ret None
       else let* r := lzregion_init buff_len buff in ret (Some r)
     else
       let* r := lzregion_create backend buff_len in ret (Some r) in
   match region with
   | None => ret 1
   | Some region =>
       if region =? 0 then ret 1
       else
         let* A := load_arena a in
         let* _ :=
           if negb (tail A =? 0) then
             let* t := load_region (tail A) in
             store_region (tail A) (set_next t region)
           else store_arena a (set_head A region) in
         let* A := load_arena a in
         let* _ := store_arena a (set_tail A region) in
         ret 0
   end) w.
Proof.
  pose proof (block_bounds platform_good) as (Hrs & Hda & Hblk & Hmax).
  unfold append_region, growth_len. fold DEFAULT_BLOCK.
  rewrite (wrap_small DEFAULT_BLOCK) by lia.
  destruct (_ >? _); [|reflexivity].
  destruct (Z.eqb_spec DEFAULT_BLOCK 0) as [|_]; [lia|]. reflexivity.
Qed.

Lemma append_region_spec w a l A size :
  arena_inv w a l -> arenas w !! a = Some A ->
  (l = [] /\ tail A = 0) \/ last l = Some (tail A) ->
  let n := growth_len size in
  let b := backend (log w) (allocator A) n in
  match append_region backend size a w with
  | Ok (rc, w') =>
      (rc = 1 /\ b = 0 /\
       w' = mkWorld (arenas w) (regions w) (mem w) (EvAcquire (allocator A) n 0 :: log w))
      \/ (rc = 0 /\ b <> 0 /\ appended a l A n b w w')
  | AssertFail => b <> 0 /\ b + n < region_base b
  | _ => False
  end.
Proof.
  intros Hinv HA Htail n b.
  pose proof Hinv as [Hheap Ha (A0 & HA0 & Hchain & Htok)].
  rewrite HA in HA0. injection HA0 as <-.
  pose proof (growth_len_range size) as Hn. fold n in Hn.
  pose proof (backend_good (log w) (allocator A) n ltac:(lia)) as Hb.
  simpl in Hb. fold b in Hb.
  set (wlg := mkWorld (arenas w) (regions w) (mem w) (EvAcquire (allocator A) n b :: log w)).
  rewrite append_region_unfold. fold n.
  unfold ret at 1. unfold bind at 1.
  rewrite (bind_ok _ _ _ _ _ (load_arena_ok w a A HA Ha)).
  (* the acquisition, through either backend *)
  assert (Hacq :
    (if negb (allocator A =? 0) then
       let* buff := lzalloc backend n (allocator A) in
       if buff =? 0 then ret None
       else let* r := lzregion_init n buff in ret (Some r)
     else let* r := lzregion_create backend n in ret (Some r)) w
    = if b =? 0 then Ok (if allocator A =? 0 then Some 0 else None, wlg)
      else bind (lzregion_init n b) (fun r => ret (Some r)) wlg).
  { destruct (Z.eqb_spec (allocator A) 0) as [Hz|Hnz]; simpl.
    - unfold lzregion_create, lzalloc. unfold bind at 1 2.
      assert (Eb : backend (log w) 0 n = b) by (unfold b; rewrite Hz; reflexivity).
      rewrite Eb. assert (Ew : mkWorld (arenas w) (regions w) (mem w)
                                 (EvAcquire 0 n b :: log w) = wlg)
        by (unfold wlg; rewrite Hz; reflexivity).
      rewrite Ew. destruct (b =? 0); reflexivity.
    - unfold lzalloc. unfold bind at 1. fold b. fold wlg.
      destruct (b =? 0); reflexivity. }
  unfold bind at 1. rewrite Hacq. clear Hacq.
  destruct (Z.eqb_spec b 0) as [Hb0|Hbnz].
  - (* the backend fails *)
    assert (Hw : wlg = mkWorld (arenas w) (regions w) (mem w)
                         (EvAcquire (allocator A) n 0 :: log w))
      by (unfold wlg; rewrite Hb0; reflexivity).
    destruct (allocator A =? 0); simpl; left; auto.
  - destruct Hb as [?|(Hbpos & Hblim & Hfresh)]; [contradiction|].
    unfold bind at 1.
    rewrite (lzregion_init_spec platform_good wlg n b Hbpos ltac:(lia) Hblim).
    destruct (Z.leb_spec (region_base b) (b + n)) as [Hfit|Hnofit]; [|split; assumption].
    destruct (init_facts platform_good b Hbpos ltac:(lia)) as (Hk & Hkl & Hc).
    pose proof (block_bounds platform_good) as (Hrs & Hda & _).
    pose proof (fresh_key_absent w b n Hheap Hbpos ltac:(lia) Hblim Hfresh Hfit) as Habs.
    assert (Hknl : (region_key b) ∉ l).
    { intros Hin. destruct (chain_lookup _ _ _ _ Hchain Hin) as [r Hr]. congruence. }
    unfold ret at 1. simpl arenas. simpl regions. simpl mem. simpl log.
    destruct (Z.eqb_spec (region_key b) 0) as [|_]; [lia|].
    set (w2 := mkWorld (arenas w) (<[(region_key b) := (fresh_region n b)]> (regions w)) (mem w)
                       (EvAcquire (allocator A) n b :: log w)).
    rewrite (bind_ok _ _ _ _ _ (load_arena_ok w2 a A HA Ha)).
    destruct (Z.eqb_spec (tail A) 0) as [Ht0|Htnz]; simpl negb; cbv iota.
    + (* empty chain *)
      assert (Hl : l = []).
      { destruct Htail as [[? _]|Hlast]; [assumption|].
        apply last_Some_elem_of in Hlast.
        exfalso. eapply chain_nonzero; eassumption. }
      subst l.
      rewrite (bind_ok _ _ _ _ _ (store_arena_ok w2 a _ Ha)).
      set (w3 := mkWorld _ _ _ _).
      rewrite (bind_ok _ _ _ _ _ (load_arena_ok w3 a (set_head A (region_key b))
                 ltac:(subst w3; simpl; apply lookup_insert_eq) Ha)).
      rewrite (bind_ok _ _ _ _ _ (store_arena_ok w3 a _ Ha)).
      unfold ret. right. split; [reflexivity|]. split; [assumption|].
      subst w3 w2. simpl. rewrite insert_insert_eq.
      split; simpl; try reflexivity.
      * auto.
      * exact Habs.
      * split; [|exact Ha|].
        -- apply (heap_inv_append w (allocator A) n b _ _ Hheap Hbpos ltac:(lia)
                    Hblim Hfresh Hfit).
           ++ apply lookup_insert_eq.
           ++ intros k0 r' Hne Hr'. rewrite lookup_insert_ne in Hr' by congruence.
              exists r'. auto.
        -- eexists. simpl. split; [apply lookup_insert_eq|]. simpl.
           split; [|right; left].
           split; [reflexivity|]. split; [lia|].
           rewrite lookup_insert_eq. reflexivity.
      * rewrite Ht0. reflexivity.
      * apply lookup_insert_eq.
      * intros k0 r0 Hr0. exists r0.
        rewrite lookup_insert_ne by congruence. auto 10.
    + (* the chain ends at [tail] *)
      destruct Htail as [[_ ?]|Hlast]; [contradiction|].
      pose proof (last_Some_elem_of _ _ Hlast) as Htin.
      destruct (chain_lookup _ _ _ _ Hchain Htin) as [rt Hrt].
      assert (Htk : tail A <> (region_key b)) by congruence.
      unfold bind at 1.
      rewrite (bind_ok _ _ _ _ _ (load_region_ok w2 (tail A) rt
                 ltac:(subst w2; simpl; rewrite lookup_insert_ne by congruence; exact Hrt)
                 Htnz)).
      rewrite (store_region_ok w2 (tail A) _ Htnz).
      set (w3 := mkWorld _ _ _ _).
      rewrite (bind_ok _ _ _ _ _ (load_arena_ok w3 a A HA Ha)).
      rewrite (bind_ok _ _ _ _ _ (store_arena_ok w3 a _ Ha)).
      unfold ret. right. split; [reflexivity|]. split; [assumption|].
      subst w3 w2. simpl.
      split; simpl; try reflexivity.
      * auto.
      * exact Habs.
      * split; [|exact Ha|].
        -- apply (heap_inv_append w (allocator A) n b _ _ Hheap Hbpos ltac:(lia)
                    Hblim Hfresh Hfit).
           ++ rewrite lookup_insert_ne by congruence. apply lookup_insert_eq.
           ++ intros k0 r' Hne Hr'.
              destruct (decide (k0 = tail A)) as [->|Hne2].
              ** rewrite lookup_insert_eq in Hr'. injection Hr' as <-.
                 exists rt. auto.
              ** rewrite !lookup_insert_ne in Hr' by congruence. exists r'. auto.
        -- eexists. simpl. split; [apply lookup_insert_eq|]. simpl.
           split; [|right; apply elem_of_app; right; left].
           rewrite insert_insert_ne by congruence.
           apply chain_snoc; try assumption; [lia|reflexivity].
      * destruct (Z.eqb_spec (tail A) 0); [contradiction|reflexivity].
      * rewrite lookup_insert_ne by congruence. apply lookup_insert_eq.
      * intros k0 r0 Hr0.
        destruct (decide (k0 = tail A)) as [->|Hne2].
        -- rewrite lookup_insert_eq. rewrite Hrt in Hr0. injection Hr0 as <-.
           eexists. split; [reflexivity|]. simpl. repeat split; try reflexivity.
           intros ?. contradiction.
        -- rewrite !lookup_insert_ne by congruence. exists r0. auto 10.
Qed.

(** ** How an arena evolves *)

Lemma grows_refl a l w : grows a l w l w.
Proof.
  split; try reflexivity.
  - intros k Hk Hnk. contradiction.
  - intros k r Hr. exists r. repeat split; try assumption; lia.
  - intros A HA. exists A. repeat split; try assumption; lia.
Qed.

Lemma grows_trans a l w l1 w1 l2 w2 :
  grows a l w l1 w1 -> grows a l1 w1 l2 w2 -> grows a l w l2 w2.
Proof.
  intros [P1 F1 M1 R1 A1 B1] [P2 F2 M2 R2 A2 B2]. split.
  - etransitivity; eassumption.
  - intros k Hk Hnk. destruct (decide (k ∈ l1)) as [Hin|Hnin]; [apply F1; assumption|].
    specialize (F2 k Hk Hnin).
    destruct (regions w !! k) as [r|] eqn:Hr; [|reflexivity].
    destruct (R1 _ _ Hr) as (r' & Hr' & _). congruence.
  - congruence.
  - intros k r Hr. destruct (R1 _ _ Hr) as (r1 & Hr1 & E1 & E2 & E3 & E4).
    destruct (R2 _ _ Hr1) as (r2 & Hr2 & E5 & E6 & E7 & E8).
    exists r2. repeat split; try congruence. lia.
  - intros A HA. destruct (A1 _ HA) as (A' & HA' & E1 & E2 & E3).
    destruct (A2 _ HA') as (A'' & HA'' & E4 & E5 & E6).
    exists A''. repeat split; try congruence; [|lia].
    intros Hne. rewrite E5; [apply E2, Hne|].
    intros ->. destruct P1 as [x Hx]. destruct l; [contradiction|discriminate].
  - intros A i k HA Hi Hk. destruct (A1 _ HA) as (A' & HA' & _ & _ & E3).
    rewrite (B2 A' i k HA' ltac:(lia)); [apply (B1 A i k HA Hi Hk)|].
    destruct P1 as [x ->]. apply lookup_app_l_Some. exact Hk.
Qed.

Lemma heap_inv_acquire_failed w al n :
  heap_inv w ->
  heap_inv (mkWorld (arenas w) (regions w) (mem w) (EvAcquire al n 0 :: log w)).
Proof.
  intros [Hreg Hdis]. split; simpl; [|exact Hdis].
  intros k r Hr. apply region_ok_acquire, Hreg, Hr.
Qed.

Lemma arena_inv_tail_nonzero w a l A :
  arena_inv w a l -> arenas w !! a = Some A -> (tail A = 0 <-> l = []).
Proof.
  intros [_ _ (A0 & HA0 & Hchain & Htok)] HA. rewrite HA in HA0. injection HA0 as <-.
  split.
  - intros Ht. destruct Htok as [[? _]|Hin]; [assumption|].
    exfalso. eapply chain_nonzero; eassumption.
  - intros ->. destruct Htok as [[_ ?]|Hin]; [assumption|inversion Hin].
Qed.

(** A failed acquisition only grows the log. *)
Lemma acquire_failed_step w a l al n :
  arena_inv w a l ->
  let w' := mkWorld (arenas w) (regions w) (mem w) (EvAcquire al n 0 :: log w) in
  arena_inv w' a l /\ grows a l w l w'.
Proof.
  intros [Hheap Ha Har]. split.
  - split; [apply heap_inv_acquire_failed, Hheap|exact Ha|exact Har].
  - split; simpl; try reflexivity.
    + intros k Hk Hnk. contradiction.
    + intros k r Hr. exists r. repeat split; try assumption; lia.
    + intros A HA. exists A. repeat split; try assumption; lia.
Qed.

(** A successful [append_region]. *)
Lemma appended_grows a l A n b w w' :
  arena_inv w a l -> arenas w !! a = Some A ->
  appended a l A n b w w' -> grows a l w (l ++ [region_key b]) w'.
Proof.
  intros Hinv HA [Hbuf Habs Hinv' Har Hnew Hold Hmem Hlog].
  pose proof (arena_inv_tail_nonzero w a l A Hinv HA) as Htz.
  destruct Hinv as [Hheap Ha (A0 & HA0 & Hchain & Htok)].
  rewrite HA in HA0. injection HA0 as <-.
  pose proof (chain_nodup _ _ _ Hchain) as Hnd.
  destruct Hinv' as [_ _ (A' & HA' & Hchain' & _)].
  pose proof (chain_nodup _ _ _ Hchain') as Hnd'.
  split.
  - exists [region_key b]. reflexivity.
  - intros k Hk Hnk. apply elem_of_app in Hk as [?|Hk]; [contradiction|].
    apply list_elem_of_singleton in Hk as ->. exact Habs.
  - exact Hmem.
  - intros k r Hr. destruct (Hold _ _ Hr) as (r' & Hr' & E1 & E2 & E3 & E4 & _).
    exists r'. repeat split; try assumption. lia.
  - intros A1 HA1. rewrite HA in HA1. injection HA1 as <-.
    eexists. rewrite Har. split; [apply lookup_insert_eq|]. simpl.
    split; [reflexivity|]. split.
    + intros Hne. destruct (Z.eqb_spec (tail A) 0) as [Ht|_]; [|reflexivity].
      exfalso. apply Hne, Htz, Ht.
    + rewrite index_of_middle by exact Hnd'. apply index_of_le_length.
  - intros A1 i k HA1 Hi Hk. rewrite HA in HA1. injection HA1 as <-.
    assert (Hkl : k ∈ l) by (eapply list_elem_of_lookup_2; eassumption).
    destruct (chain_lookup _ _ _ _ Hchain Hkl) as [r Hr].
    destruct (Hold _ _ Hr) as (r' & Hr' & _ & _ & _ & _ & Hsame).
    rewrite Hr', Hr. f_equal. apply Hsame.
    intros ->. rewrite (index_of_lookup l i (tail A) Hnd Hk) in Hi. lia.
Qed.

(** ** The phases of [lzarena_alloc_align] *)

Lemma search_phase w a l A sz j :
  arena_inv w a l -> arenas w !! a = Some A -> tail A <> 0 -> 0 <= j < 64 ->
  exists w1 A1,
    search_loop (S (size (regions w))) sz (2 ^ j) a w = Ok (tt, w1) /\
    arena_inv w1 a l /\ grows a l w l w1 /\
    arenas w1 !! a = Some A1 /\ tail A1 ∈ l /\
    regions w1 = regions w /\ log w1 = log w /\ mem w1 = mem w /\
    head A1 = head A /\ allocator A1 = allocator A /\
    (index_of (tail A) l <= index_of (tail A1) l)%nat /\
    (forall r, regions w !! tail A1 = Some r ->
       last l = Some (tail A1) \/ sz <= avail_spec r (2 ^ j)) /\
    (forall k r, k ∈ l -> (index_of (tail A) l <= index_of k l)%nat ->
       (index_of k l < index_of (tail A1) l)%nat ->
       regions w !! k = Some r -> avail_spec r (2 ^ j) < sz) /\
    arenas w1 = <[a := A1]> (arenas w).
Proof.
  intros Hinv HA Htnz Hj.
  destruct Hinv as [Hheap Ha (A0 & HA0 & Hchain & Htok)].
  rewrite HA in HA0. injection HA0 as <-.
  destruct Htok as [[_ ?]|Htin]; [contradiction|].
  pose proof (chain_nodup _ _ _ Hchain) as Hnd.
  pose proof (chain_length _ _ _ Hchain) as Hlen.
  destruct (list_elem_of_split _ _ Htin) as (l1 & l2 & El).
  assert (Hsuf : chain (regions w) (tail A) (tail A :: l2)).
  { rewrite El in Hchain. eapply chain_suffix. exact Hchain. }
  destruct (search_loop_spec sz j a l2 (tail A) w A (S (size (regions w))) Ha HA eq_refl Hsuf
              (hi_regions w Hheap)) as
      (pre & t' & post & w1 & Hsplit & Hrun & Har & Hreg & Hmem & Hlog & Hpre & Hpost);
    [rewrite El, length_app in Hlen; simpl in Hlen; lia|exact Hj|].
  assert (El' : l = (l1 ++ pre) ++ t' :: post).
  { rewrite El, Hsplit, <- app_assoc. reflexivity. }
  assert (Hi0 : index_of (tail A) l = length l1).
  { rewrite El. apply index_of_middle. rewrite <- El. exact Hnd. }
  assert (Hi1 : index_of t' l = length (l1 ++ pre)).
  { rewrite El'. apply index_of_middle. rewrite <- El'. exact Hnd. }
  assert (Ht'in : t' ∈ l).
  { rewrite El'. apply elem_of_app. right. left. }
  exists w1, (set_tail A t').
  assert (HA1 : arenas w1 !! a = Some (set_tail A t')).
  { rewrite Har. apply lookup_insert_eq. }
  split; [exact Hrun|].
  split.
  { split; [|exact Ha|].
    - destruct Hheap as [Hr Hd]. split; rewrite ?Hreg, ?Hlog; assumption.
    - exists (set_tail A t'). split; [exact HA1|]. simpl. rewrite Hreg.
      split; [exact Hchain|]. right. exact Ht'in. }
  split.
  { split; try reflexivity.
    - intros k Hk Hnk. contradiction.
    - exact Hmem.
    - intros k r Hr. exists r. rewrite Hreg. repeat split; try assumption; lia.
    - intros A1 HA1'. rewrite HA in HA1'. injection HA1' as <-.
      exists (set_tail A t'). split; [exact HA1|]. simpl.
      repeat split; try reflexivity. rewrite Hi0, Hi1, length_app. lia.
    - intros A1 i k _ _ _. rewrite Hreg. reflexivity. }
  split; [exact HA1|]. simpl.
  split; [exact Ht'in|].
  split; [exact Hreg|]. split; [exact Hlog|]. split; [exact Hmem|].
  split; [reflexivity|]. split; [reflexivity|].
  split; [rewrite Hi0, Hi1, length_app; lia|].
  split; [|split; [|exact Har]].
  - intros r Hr. destruct (Hpost r Hr) as [->|Hfit]; [left|right; exact Hfit].
    rewrite El'. apply last_snoc.
  - intros k r Hk Hlo Hhi Hr. apply (Hpre k r); [|exact Hr].
    assert (Hlk : ((l1 ++ pre) ++ t' :: post) !! index_of k l = Some k)
      by (rewrite <- El'; apply index_of_elem; exact Hk).
    rewrite Hi0 in Hlo. rewrite Hi1, length_app in Hhi.
    rewrite <- app_assoc in Hlk.
    rewrite lookup_app_r in Hlk by lia.
    rewrite lookup_app_l in Hlk by lia.
    eapply list_elem_of_lookup_2. exact Hlk.
Qed.

Lemma bump_phase w a l A rt sz j :
  arena_inv w a l -> arenas w !! a = Some A -> tail A ∈ l ->
  regions w !! tail A = Some rt ->
  0 <= j < 64 -> 0 <= sz -> sz <= avail_spec rt (2 ^ j) ->
  let p := align_up (offset rt) (2 ^ j) in
  let w' := bump w (tail A) rt (p + sz) in
  arena_inv w' a l /\ grows a l w l w' /\
  p mod 2 ^ j = 0 /\ offset rt <= p /\ chunk rt <= p /\
  (0 < sz -> p + sz <= chunk rt + chunk_len rt).
Proof.
  intros Hinv HA Htin Hrt Hj Hsz Hfit p w'.
  destruct Hinv as [Hheap Ha (A0 & HA0 & Hchain & Htok)].
  rewrite HA in HA0. injection HA0 as <-.
  pose proof (chain_nodup _ _ _ Hchain) as Hnd.
  pose proof (hi_regions w Hheap _ _ Hrt) as Hok.
  destruct (avail_spec_fits _ _ _ j sz Hok Hj Hsz Hfit) as (H1 & H2 & H3 & H4 & H5).
  fold p in H1, H2, H3, H4, H5.
  pose proof Hok as (_ & _ & Hco & _).
  split; [|split; [|repeat split; try assumption; lia]].
  - split; [|exact Ha|].
    + apply (heap_inv_update w (tail A) rt); try assumption; try reflexivity.
      apply region_ok_bump; [exact Hok|lia].
    + exists A. simpl. split; [exact HA|]. split; [|exact Htok].
      eapply chain_insert_keep; [exact Hchain|exact Hrt|reflexivity].
  - split; simpl; try reflexivity.
    + intros k Hk Hnk. contradiction.
    + intros k r Hr. destruct (decide (k = tail A)) as [->|Hne].
      * rewrite lookup_insert_eq. rewrite Hrt in Hr. injection Hr as <-.
        eexists. split; [reflexivity|]. simpl. repeat split; lia.
      * rewrite lookup_insert_ne by congruence. exists r. repeat split; try assumption; lia.
    + intros A1 HA1. exists A1. repeat split; try assumption; lia.
    + intros A1 i k HA1 Hi Hk. rewrite HA in HA1. injection HA1 as <-.
      apply lookup_insert_ne. intros <-.
      rewrite (index_of_lookup l i (tail A) Hnd Hk) in Hi. lia.
Qed.

(** ** The whole of [lzarena_alloc_align] *)

Lemma alloc_post_grows sz al a l w l1 w1 res :
  grows a l w l1 w1 -> alloc_post sz al a l1 w1 res -> alloc_post sz al a l w res.
Proof.
  intros Hg. destruct res as [[p w']| | |]; simpl; auto.
  intros (l' & Hinv & Hg' & Hs). exists l'. split; [exact Hinv|].
  split; [eapply grows_trans; eassumption|].
  intros Hp. destruct (Hs Hp) as (Hal & A' & rt' & HA' & Hrt' & E1 & E2 & E3 & E4).
  split; [exact Hal|]. exists A', rt'. repeat split; try assumption.
  intros r Hr. destruct (g_regions _ _ _ _ _ Hg _ _ Hr) as (r1 & Hr1 & _ & _ & _ & Hle).
  specialize (E4 _ Hr1). lia.
Qed.

Lemma append_assert_bound sz b :
  0 <= sz -> 0 < b -> b + growth_len sz <= ADDR_LIMIT ->
  b + growth_len sz < region_base b ->
  2 ^ 64 < sz + REGION_SIZE + DEFAULT_BLOCK.
Proof.
  intros Hsz Hb Hlim Hbad.
  destruct (Z_lt_le_dec (2 ^ 64) (sz + REGION_SIZE + DEFAULT_BLOCK)) as [|Hfit];
    [assumption|exfalso].
  destruct (growth_len_bounds platform_good sz Hsz Hfit) as [Hn1 Hn2].
  pose proof (growth_len_range sz) as Hn.
  destruct (init_facts platform_good b Hb ltac:(lia)) as (Hk & Hkl & Hc).
  pose proof (block_bounds platform_good) as (Hrs & Hda & Hblk & _).
  lia.
Qed.

Lemma lzarena_alloc_align_unfold sz al a :
  lzarena_alloc_align backend sz al a =
  (let* A := load_arena a in
   let* failed :=
     if tail A =? 0 then
       let* rc := append_region backend sz a in ret (negb (rc =? 0))
     else ret false in
   if failed : bool then ret 0 else alloc_search backend sz al a).
Proof. reflexivity. Qed.

Lemma bump_served w a l A rt sz j :
  arena_inv w a l -> arenas w !! a = Some A -> tail A ∈ l ->
  regions w !! tail A = Some rt ->
  0 <= j < 64 -> 0 <= sz < 2 ^ 64 ->
  alloc_post sz (2 ^ j) a l w (lzregion_alloc_align sz (2 ^ j) (tail A) w).
Proof.
  intros Hinv HA Htin Hrt Hj Hsz.
  pose proof (hi_regions w (ai_heap _ _ _ Hinv) _ _ Hrt) as Hok.
  rewrite (region_alloc_ok w (log w) (tail A) rt j sz Hrt Hok Hj Hsz).
  destruct (Z.gtb_spec sz (avail_spec rt (2 ^ j))) as [Hgt|Hle]; simpl.
  - exists l. split; [exact Hinv|]. split; [apply grows_refl|].
    intros Hp. contradiction.
  - destruct (bump_phase w a l A rt sz j Hinv HA Htin Hrt Hj ltac:(lia) Hle)
      as (Hinv' & Hg & Hal & H1 & H2 & H3).
    exists l. split; [exact Hinv'|]. split; [exact Hg|].
    intros _. split; [exact Hal|].
    exists A. eexists. simpl. split; [exact HA|].
    split; [apply lookup_insert_eq|]. simpl.
    repeat split; try assumption.
    intros r Hr. rewrite Hrt in Hr. injection Hr as <-. exact H1.
Qed.

Lemma alloc_finish_spec w a l A rt sz j :
  arena_inv w a l -> arenas w !! a = Some A -> tail A ∈ l ->
  regions w !! tail A = Some rt ->
  last l = Some (tail A) \/ sz <= avail_spec rt (2 ^ j) ->
  0 <= j < 64 -> 0 <= sz < 2 ^ 64 ->
  alloc_post sz (2 ^ j) a l w (alloc_finish backend sz (2 ^ j) a w).
Proof.
  intros Hinv HA Htin Hrt Hend Hj Hsz.
  pose proof (ai_nonnull _ _ _ Hinv) as Ha.
  pose proof (hi_regions w (ai_heap _ _ _ Hinv) _ _ Hrt) as Hok.
  unfold alloc_finish.
  rewrite (bind_ok _ _ _ _ _ (load_arena_ok w a A HA Ha)).
  rewrite (bind_ok _ _ _ _ _ (region_avail_ok w (log w) (tail A) rt j Hrt Hok Hj)).
  destruct (Z.gtb_spec sz (avail_spec rt (2 ^ j))) as [Hgt|Hle].
  - destruct Hend as [Hlast|?]; [|lia].
    pose proof (append_region_spec w a l A sz Hinv HA (or_intror Hlast)) as Hap.
    pose proof (growth_len_range sz) as Hn.
    pose proof (backend_good (log w) (allocator A) (growth_len sz) (proj1 Hn)) as Hb.
    simpl in Hap, Hb. unfold bind at 1. unfold bind at 1.
    destruct (append_region backend sz a w) as [[rc w1]| | |]; try contradiction.
    + destruct Hap as [(-> & Hb0 & ->)|(-> & Hbnz & Happ)]; unfold ret at 1; simpl.
      * destruct (acquire_failed_step w a l (allocator A) (growth_len sz) Hinv) as [Hi Hg].
        exists l. split; [exact Hi|]. split; [exact Hg|]. intros Hp. contradiction.
      * pose proof (appended_grows _ _ _ _ _ _ _ Hinv HA Happ) as Hg.
        destruct Happ as [Hbuf Habs Hinv1 Har Hnew Hold Hmem Hlog].
        set (A1 := mkArena _ _ _) in Har.
        assert (HA1 : arenas w1 !! a = Some A1) by (rewrite Har; apply lookup_insert_eq).
        rewrite (bind_ok _ _ _ _ _ (load_arena_ok w1 a A1 HA1 Ha)).
        apply (alloc_post_grows _ _ _ _ _ _ _ _ Hg).
        eapply (bump_served w1 a _ A1 _ sz j Hinv1 HA1); try assumption.
        -- simpl. apply elem_of_app. right. left.
        -- exact Hnew.
    + destruct Hap as [Hbnz Hbad]. destruct Hb as [?|(Hbpos & Hblim & _)]; [contradiction|].
      apply (append_assert_bound sz _ ltac:(lia) Hbpos Hblim Hbad).
  - unfold ret at 1. unfold bind at 1.
    rewrite (bind_ok _ _ _ _ _ (load_arena_ok w a A HA Ha)).
    apply (bump_served w a l A rt sz j); assumption.
Qed.

Lemma alloc_search_spec w a l A sz j :
  arena_inv w a l -> arenas w !! a = Some A -> tail A <> 0 ->
  0 <= j < 64 -> 0 <= sz < 2 ^ 64 ->
  alloc_post sz (2 ^ j) a l w (alloc_search backend sz (2 ^ j) a w).
Proof.
  intros Hinv HA Htnz Hj Hsz.
  destruct (search_phase w a l A sz j Hinv HA Htnz Hj) as
      (w1 & A1 & Hrun & Hinv1 & Hg & HA1 & Htin & Hreg & Hlog & Hmem & _ & _ & _ & Hstop & _ & _).
  unfold alloc_search, regions_fuel. unfold bind at 1.
  rewrite (bind_ok _ _ _ _ _ Hrun).
  apply (alloc_post_grows _ _ _ _ _ _ _ _ Hg).
  destruct Hinv1 as [Hheap1 Ha1 (A0 & HA0 & Hchain1 & Htok1)].
  destruct (chain_lookup _ _ _ _ Hchain1 Htin) as [rt Hrt].
  apply (alloc_finish_spec w1 a l A1 rt sz j); try assumption.
  - split; [exact Hheap1|exact Ha1|]. exists A0. auto.
  - apply Hstop. rewrite <- Hreg. exact Hrt.
Qed.

Theorem lzarena_alloc_align_spec w a l sz j :
  arena_inv w a l -> 0 <= j < 64 -> 0 <= sz < 2 ^ 64 ->
  alloc_post sz (2 ^ j) a l w (lzarena_alloc_align backend sz (2 ^ j) a w).
Proof.
  intros Hinv Hj Hsz.
  pose proof Hinv as [Hheap Ha (A & HA & Hchain & Htok)].
  pose proof (arena_inv_tail_nonzero w a l A Hinv HA) as Htz.
  rewrite lzarena_alloc_align_unfold.
  rewrite (bind_ok _ _ _ _ _ (load_arena_ok w a A HA Ha)).
  destruct (Z.eqb_spec (tail A) 0) as [Ht0|Htnz].
  - pose proof (proj1 Htz Ht0) as Hl.
    pose proof (append_region_spec w a l A sz Hinv HA (or_introl (conj Hl Ht0))) as Hap.
    pose proof (growth_len_range sz) as Hn.
    pose proof (backend_good (log w) (allocator A) (growth_len sz) (proj1 Hn)) as Hb.
    simpl in Hap, Hb. unfold bind at 1. unfold bind at 1.
    destruct (append_region backend sz a w) as [[rc w1]| | |]; try contradiction.
    + destruct Hap as [(-> & Hb0 & ->)|(-> & Hbnz & Happ)]; unfold ret at 1; simpl.
      * destruct (acquire_failed_step w a l (allocator A) (growth_len sz) Hinv) as [Hi Hg].
        exists l. split; [exact Hi|]. split; [exact Hg|]. intros Hp. contradiction.
      * pose proof (appended_grows _ _ _ _ _ _ _ Hinv HA Happ) as Hg.
        destruct Happ as [Hbuf Habs Hinv1 Har Hnew Hold Hmem Hlog].
        set (A1 := mkArena _ _ _) in Har.
        assert (HA1 : arenas w1 !! a = Some A1) by (rewrite Har; apply lookup_insert_eq).
        apply (alloc_post_grows _ _ _ _ _ _ _ _ Hg).
        apply (alloc_search_spec w1 a _ A1 sz j Hinv1 HA1); try assumption.
        simpl. destruct (init_facts platform_good _ (proj1 Hbuf) ltac:(lia)) as (Hk & _). lia.
    + destruct Hap as [Hbnz Hbad]. destruct Hb as [?|(Hbpos & Hblim & _)]; [contradiction|].
      apply (append_assert_bound sz _ ltac:(lia) Hbpos Hblim Hbad).
  - unfold ret at 1. unfold bind at 1.
    apply (alloc_search_spec w a l A sz j); assumption.
Qed.

(** ** C1: what [lzarena_alloc_align] hands out *)

Lemma bind_inv {A B} (m : M A) (k : A -> M B) w r :
  bind m k w = Ok r -> exists x w1, m w = Ok (x, w1) /\ k x w1 = Ok r.
Proof.
  unfold bind. destruct (m w) as [[x w1]| | |]; try discriminate. eauto.
Qed.

Lemma consumed_grows a l w l' w' blk :
  grows a l w l' w' -> consumed w blk -> consumed w' blk.
Proof.
  intros Hg [H0|[H0|(k & r & Hr & Hpos & H1 & H2 & H3)]]; [left; assumption|right; left; assumption|].
  destruct (g_regions _ _ _ _ _ Hg _ _ Hr) as (r' & Hr' & _ & E1 & E2 & Hle).
  right. right. exists k, r'. rewrite E1, E2. repeat split; try assumption. lia.
Qed.

Lemma served_tail_in sz al a w p w' l' :
  arena_inv w' a l' -> served sz al a w p w' -> p <> 0 ->
  exists A' rt', arenas w' !! a = Some A' /\ tail A' ∈ l' /\
    regions w' !! tail A' = Some rt' /\ region_ok (log w') (tail A') rt' /\
    p mod al = 0 /\ offset rt' = p + sz /\ chunk rt' <= p /\
    (0 < sz -> p + sz <= chunk rt' + chunk_len rt') /\
    (forall r, regions w !! tail A' = Some r -> offset r <= p).
Proof.
  intros Hinv Hs Hp. destruct (Hs Hp) as (Hal & A' & rt' & HA' & Hrt' & E1 & E2 & E3 & E4).
  pose proof (hi_regions w' (ai_heap _ _ _ Hinv) _ _ Hrt') as Hok.
  assert (Htin : tail A' ∈ l').
  { destruct Hinv as [_ _ (A0 & HA0 & _ & Htok)]. rewrite HA' in HA0. injection HA0 as <-.
    destruct Htok as [[_ Ht0]|Hin]; [|exact Hin].
    destruct Hok as (Hpos & _). lia. }
  exists A', rt'.
  split; [exact HA'|]. split; [exact Htin|]. split; [exact Hrt'|]. split; [exact Hok|].
  repeat split; assumption.
Qed.

Lemma served_consumed sz al a w p w' l' :
  arena_inv w' a l' -> served sz al a w p w' -> 0 <= sz -> consumed w' (p, sz).
Proof.
  intros Hinv Hs Hsz. unfold consumed. simpl.
  destruct (Z.eq_dec p 0) as [|Hp]; [left; assumption|right].
  destruct (Z.eq_dec sz 0) as [|Hnz]; [left; assumption|right].
  destruct (served_tail_in _ _ _ _ _ _ _ Hinv Hs Hp) as
      (A' & rt' & _ & _ & Hrt' & _ & _ & E1 & E2 & E3 & _).
  exists (tail A'), rt'. repeat split; try assumption; lia.
Qed.

Lemma served_disjoint sz al a l w p w' l' blk :
  arena_inv w' a l' -> grows a l w l' w' -> served sz al a w p w' ->
  0 <= sz -> p <> 0 -> consumed w blk -> fst blk = 0 \/ ~ overlap (p, sz) blk.
Proof.
  intros Hinv Hg Hs Hsz Hp [H0|[H0|(k & r & Hr & Hpos & H1 & H2 & H3)]].
  - left. assumption.
  - right. unfold overlap. simpl. lia.
  - right. unfold overlap. simpl.
    destruct (Z.eq_dec sz 0) as [|Hnz]; [lia|].
    destruct (served_tail_in _ _ _ _ _ _ _ Hinv Hs Hp) as
        (A' & rt' & _ & _ & Hrt' & Hok' & _ & E1 & E2 & E3 & E4).
    destruct (decide (k = tail A')) as [->|Hne].
    + specialize (E4 _ Hr). lia.
    + destruct (g_regions _ _ _ _ _ Hg _ _ Hr) as (r' & Hr' & _ & F1 & F2 & _).
      pose proof (hi_regions w' (ai_heap _ _ _ Hinv) _ _ Hr') as Hokr.
      pose proof (hi_disjoint w' (ai_heap _ _ _ Hinv) _ _ _ _ Hr' Hrt' Hne) as Hd.
      unfold footprint_disjoint in Hd. rewrite F1, F2 in Hd.
      destruct Hokr as (_ & Hkc & _). rewrite F2 in Hkc.
      destruct Hok' as (_ & Htc & _). lia.
Qed.

Lemma alloc_many_inv a reqs :
  forall w0 l0 blocks w,
    arena_inv w0 a l0 -> Forall valid_request reqs ->
    alloc_many backend reqs a w0 = Ok (blocks, w) ->
    exists l, arena_inv w a l /\ grows a l0 w0 l w /\ Forall (consumed w) blocks.
Proof.
  induction reqs as [|[sz al] rest IH]; intros w0 l0 blocks w Hinv Hval Hrun.
  - injection Hrun as <- <-. exists l0. split; [exact Hinv|]. split; [apply grows_refl|constructor].
  - apply Forall_cons in Hval as [[Hsz (j & Hj & Hal)] Hval]. simpl in Hsz, Hal. subst al.
    cbn [alloc_many] in Hrun.
    apply bind_inv in Hrun as (p & w1 & Hcall & Hrun).
    apply bind_inv in Hrun as (bs & w2 & Hrest & Hret).
    injection Hret as <- <-.
    pose proof (lzarena_alloc_align_spec w0 a l0 sz j Hinv Hj Hsz) as Hpost.
    rewrite Hcall in Hpost. destruct Hpost as (l1 & Hinv1 & Hg1 & Hs).
    destruct (IH w1 l1 bs w2 Hinv1 Hval Hrest) as (l2 & Hinv2 & Hg2 & Hbs).
    exists l2. split; [exact Hinv2|]. split; [eapply grows_trans; eassumption|].
    constructor; [|exact Hbs].
    eapply consumed_grows; [exact Hg2|].
    eapply served_consumed; [exact Hinv1|exact Hs|lia].
Qed.

(** C1: after any run of earlier requests on a well-formed arena, a call of
    [lzarena_alloc_align] with a power-of-two alignment returns null, or an
    address that is a multiple of the alignment, whose range lies in the
    usable span of one region of the chain and overlaps no block handed out
    by the earlier calls.  The call always comes back, except that a size so
    large that the growth computation overflows can stop it on the assertion
    of [lzregion_init]. *)
Theorem lzarena_alloc_align_sound w0 a l0 reqs blocks w sz j :
  arena_inv w0 a l0 -> Forall valid_request reqs ->
  alloc_many backend reqs a w0 = Ok (blocks, w) ->
  0 <= j < 64 -> 0 <= sz < 2 ^ 64 ->
  match lzarena_alloc_align backend sz (2 ^ j) a w with
  | Ok (p, w') =>
      p = 0 \/
      (p mod 2 ^ j = 0 /\
       (exists l' k r, arena_inv w' a l' /\ k ∈ l' /\ regions w' !! k = Some r /\
          range_within p sz (chunk r) (chunk r + chunk_len r)) /\
       Forall (fun blk => fst blk = 0 \/ ~ overlap (p, sz) blk) blocks)
  | AssertFail => 2 ^ 64 < sz + REGION_SIZE + DEFAULT_BLOCK
  | _ => False
  end.
Proof.
  intros Hinv0 Hval Hrun Hj Hsz.
  destruct (alloc_many_inv a reqs w0 l0 blocks w Hinv0 Hval Hrun) as (l & Hinv & _ & Hlive).
  pose proof (lzarena_alloc_align_spec w a l sz j Hinv Hj Hsz) as Hpost.
  destruct (lzarena_alloc_align backend sz (2 ^ j) a w) as [[p w']| | |]; try exact Hpost.
  destruct Hpost as (l' & Hinv' & Hg & Hs).
  destruct (Z.eq_dec p 0) as [|Hp]; [left; assumption|right].
  destruct (served_tail_in _ _ _ _ _ _ _ Hinv' Hs Hp) as
      (A' & rt' & _ & Htin & Hrt' & _ & Hal & E1 & E2 & E3 & _).
  split; [exact Hal|]. split.
  - exists l', (tail A'), rt'.
    split; [exact Hinv'|]. split; [exact Htin|]. split; [exact Hrt'|].
    intros x Hx. lia.
  - rewrite Forall_forall in Hlive. apply Forall_forall. intros blk Hin.
    eapply served_disjoint; try eassumption; [lia|]. apply Hlive, Hin.
Qed.

(** ** C9: [tail] only moves forward *)

Lemma walk_chain rs p l fuel :
  chain rs p l -> (length l < fuel)%nat -> walk fuel rs p = l.
Proof.
  revert p fuel. induction l as [|k l IH]; intros p fuel Hc Hf.
  - simpl in Hc. subst p. destruct fuel; reflexivity.
  - destruct fuel as [|fuel]; [simpl in Hf; lia|].
    destruct Hc as (-> & Hk & Hc). simpl.
    destruct (Z.eqb_spec k 0) as [|_]; [contradiction|].
    destruct (rs !! k); [|contradiction].
    f_equal. apply IH; [exact Hc|simpl in Hf; lia].
Qed.

Lemma chain_of_inv w a l : arena_inv w a l -> chain_of a w = l.
Proof.
  intros [_ _ (A & HA & Hc & _)]. unfold chain_of. rewrite HA.
  apply walk_chain; [exact Hc|]. pose proof (chain_length _ _ _ Hc). lia.
Qed.

Lemma tail_position_inv w a l A :
  arena_inv w a l -> arenas w !! a = Some A -> tail_position a w = index_of (tail A) l.
Proof.
  intros Hinv HA. unfold tail_position. rewrite HA, (chain_of_inv w a l Hinv). reflexivity.
Qed.

Lemma alloc_post_forward w a l sz al p w' :
  arena_inv w a l -> 0 <= sz -> alloc_post sz al a l w (Ok (p, w')) ->
  forward_step a sz w p w' /\ exists l', arena_inv w' a l'.
Proof.
  intros Hinv Hsz (l' & Hinv' & Hg & Hs). split; [|exists l'; exact Hinv'].
  pose proof Hinv as [_ _ (A & HA & _)].
  destruct (g_arena _ _ _ _ _ Hg A HA) as (A' & HA' & _ & _ & Hidx).
  unfold forward_step.
  rewrite (chain_of_inv w a l Hinv), (chain_of_inv w' a l' Hinv').
  rewrite (tail_position_inv w a l A Hinv HA), (tail_position_inv w' a l' A' Hinv' HA').
  split; [exact (g_prefix _ _ _ _ _ Hg)|]. split; [exact Hidx|]. split.
  - intros i k Hi Hk. exact (g_before _ _ _ _ _ Hg A i k HA Hi Hk).
  - intros Hp.
    destruct (served_tail_in _ _ _ _ _ _ _ Hinv' Hs Hp) as
        (A1 & rt' & HA1 & Htin & Hrt' & _ & _ & E1 & E2 & E3 & _).
    rewrite HA' in HA1. injection HA1 as <-.
    exists (tail A'), rt'. split; [apply index_of_elem, Htin|].
    split; [exact Hrt'|]. split; [exact E1|]. intros x Hx. lia.
Qed.

(** C9: in any sequence of [lzarena_alloc_align] calls on a well-formed
    arena, every call leaves [tail] at its position in the chain or further,
    leaves every region strictly before the [tail] it started from exactly as
    it was, and cuts the block it returns from the region [tail] points to
    when it ends.  The sequence runs to its end unless a size overflows the
    growth computation. *)
Theorem tail_moves_forward reqs :
  forall w a l,
    arena_inv w a l -> Forall valid_request reqs ->
    match alloc_run backend reqs a w with
    | Ok tr => forward_trace a w reqs tr
    | AssertFail => Exists (fun req => 2 ^ 64 < fst req + REGION_SIZE + DEFAULT_BLOCK) reqs
    | _ => False
    end.
Proof.
  induction reqs as [|[sz al] rest IH]; intros w a l Hinv Hval; [exact I|].
  apply Forall_cons in Hval as [[Hsz (j & Hj & Hal)] Hval]. simpl in Hsz, Hal. subst al.
  cbn [alloc_run].
  pose proof (lzarena_alloc_align_spec w a l sz j Hinv Hj Hsz) as Hpost.
  destruct (lzarena_alloc_align backend sz (2 ^ j) a w) as [[p w']| | |];
    try contradiction.
  - destruct (alloc_post_forward w a l sz (2 ^ j) p w' Hinv ltac:(lia) Hpost)
      as [Hstep (l' & Hinv')].
    specialize (IH w' a l' Hinv' Hval).
    destruct (alloc_run backend rest a w') as [tr| | |]; try contradiction.
    + split; assumption.
    + apply Exists_cons_tl. exact IH.
  - apply Exists_cons_hd. exact Hpost.
Qed.

(** ** C3: a request that cannot be satisfied *)

Lemma append_region_failed w a l A sz :
  arena_inv w a l -> arenas w !! a = Some A ->
  (l = [] /\ tail A = 0) \/ last l = Some (tail A) ->
  backend (log w) (allocator A) (growth_len sz) = 0 ->
  append_region backend sz a w =
  Ok (1, mkWorld (arenas w) (regions w) (mem w)
                 (EvAcquire (allocator A) (growth_len sz) 0 :: log w)).
Proof.
  intros Hinv HA Htail Hb.
  pose proof (append_region_spec w a l A sz Hinv HA Htail) as Hap. simpl in Hap.
  destruct (append_region backend sz a w) as [[rc w1]| | |]; try contradiction.
  - destruct Hap as [(-> & _ & ->)|(_ & Hbnz & _)]; [reflexivity|contradiction].
  - destruct Hap as [Hbnz _]. contradiction.
Qed.

(** C3 (amended): when no region from [tail] on has room for the request
    and the backing allocator refuses a new buffer, [lzarena_alloc_align] and
    [lzarena_calloc_align] return null; [head], every region (its cursor and
    its chain link) and the bytes of memory are as before the call; [tail]
    is left on the last region of the chain. *)
Theorem alloc_failure_effects w a l A sz j :
  arena_inv w a l -> arenas w !! a = Some A ->
  0 <= j < 64 -> 0 <= sz < 2 ^ 64 ->
  (forall k, k ∈ l -> (index_of (tail A) l <= index_of k l)%nat ->
     exists n, lzregion_available_alignment (2 ^ j) k w = Ok (n, w) /\ n < sz) ->
  backend (log w) (allocator A) (growth_len sz) = 0 ->
  exists w',
    lzarena_alloc_align backend sz (2 ^ j) a w = Ok (0, w') /\
    lzarena_calloc_align backend sz (2 ^ j) a w = Ok (0, w') /\
    regions w' = regions w /\ mem w' = mem w /\
    arenas w' = <[a := set_tail A (default 0 (last l))]> (arenas w) /\
    log w' = EvAcquire (allocator A) (growth_len sz) 0 :: log w.
Proof.
  intros Hinv HA Hj Hsz Hfull Hb.
  pose proof Hinv as [Hheap Ha (A0 & HA0 & Hchain & Htok)].
  rewrite HA in HA0. injection HA0 as <-.
  pose proof (arena_inv_tail_nonzero w a l A Hinv HA) as Htz.
  assert (Hcall : exists w',
    lzarena_alloc_align backend sz (2 ^ j) a w = Ok (0, w') /\
    regions w' = regions w /\ mem w' = mem w /\
    arenas w' = <[a := set_tail A (default 0 (last l))]> (arenas w) /\
    log w' = EvAcquire (allocator A) (growth_len sz) 0 :: log w).
  { rewrite lzarena_alloc_align_unfold.
    rewrite (bind_ok _ _ _ _ _ (load_arena_ok w a A HA Ha)).
    destruct (Z.eqb_spec (tail A) 0) as [Ht0|Htnz].
    - pose proof (proj1 Htz Ht0) as Hl.
      unfold bind at 1. unfold bind at 1.
      rewrite (append_region_failed w a l A sz Hinv HA (or_introl (conj Hl Ht0)) Hb).
      unfold ret at 1. simpl. eexists. split; [reflexivity|]. simpl.
      repeat split. rewrite Hl. simpl. rewrite <- Ht0, set_tail_id.
      symmetry. apply insert_id. exact HA.
    - unfold ret at 1. unfold bind at 1.
      destruct (search_phase w a l A sz j Hinv HA Htnz Hj) as
          (w1 & A1 & Hrun & Hinv1 & Hg & HA1 & Htin & Hreg & Hlog & Hmem & Hhd & Hal
           & Hidx & Hstop & _ & Har).
      unfold alloc_search, regions_fuel. unfold bind at 1.
      rewrite (bind_ok _ _ _ _ _ Hrun).
      destruct (chain_lookup _ _ _ _ Hchain Htin) as [rt Hrt].
      pose proof (hi_regions w Hheap _ _ Hrt) as Hok.
      destruct (Hfull _ Htin Hidx) as (n & Hn & Hlt).
      rewrite (region_avail_ok w (log w) _ rt j Hrt Hok Hj) in Hn.
      injection Hn as <-.
      assert (Hlast : last l = Some (tail A1)).
      { destruct (Hstop rt Hrt) as [?|?]; [assumption|lia]. }
      assert (Hrt1 : regions w1 !! tail A1 = Some rt) by (rewrite Hreg; exact Hrt).
      assert (Hok1 : region_ok (log w1) (tail A1) rt) by (rewrite Hlog; exact Hok).
      unfold alloc_finish.
      rewrite (bind_ok _ _ _ _ _ (load_arena_ok w1 a A1 HA1 Ha)).
      rewrite (bind_ok _ _ _ _ _ (region_avail_ok w1 (log w1) _ rt j Hrt1 Hok1 Hj)).
      destruct (Z.gtb_spec sz (avail_spec rt (2 ^ j))) as [_|?]; [|lia].
      unfold bind at 1. unfold bind at 1.
      rewrite (append_region_failed w1 a l A1 sz Hinv1 HA1 (or_intror Hlast)
                 ltac:(rewrite Hlog, Hal; exact Hb)).
      unfold ret at 1. simpl. eexists. split; [reflexivity|]. simpl.
      rewrite Hreg, Hmem, Hlog, Hal, Har, Hlast. simpl.
      repeat split. f_equal.
      assert (HA1' : <[a := A1]> (arenas w) !! a = Some A1) by apply lookup_insert_eq.
      rewrite <- Har, HA1 in HA1'. clear HA1'.
      destruct A as [h t al0], A1 as [h1 t1 al1]. simpl in *. subst. reflexivity. }
  destruct Hcall as (w' & Hcall & Hrest). exists w'.
  split; [exact Hcall|]. split; [|exact Hrest].
  unfold lzarena_calloc_align. rewrite (bind_ok _ _ _ _ _ Hcall). reflexivity.
Qed.

(** ** C8: reallocation *)

Lemma memcpy_bytes_spec c :
  forall m dst src,
    0 <= dst -> 0 <= src ->
    dst + Z.of_nat c < 2 ^ 64 -> src + Z.of_nat c < 2 ^ 64 ->
    src + Z.of_nat c <= dst \/ dst + Z.of_nat c <= src ->
    (forall i, 0 <= i < Z.of_nat c ->
       memcpy_bytes m dst src c (dst + i) = m (src + i)) /\
    (forall x, x < dst \/ dst + Z.of_nat c <= x -> memcpy_bytes m dst src c x = m x).
Proof.
  induction c as [|c IH]; intros m dst src Hd Hs Hdl Hsl Hdis.
  - split; [intros i Hi; lia|intros x _; reflexivity].
  - cbn [memcpy_bytes].
    rewrite (wrap_small (dst + 1)), (wrap_small (src + 1)) by lia.
    destruct (IH (fun a => if a =? dst then m src else m a) (dst + 1) (src + 1))
      as [Hcopy Hkeep]; try lia.
    split.
    + intros i Hi. destruct (Z.eq_dec i 0) as [->|Hnz].
      * rewrite Z.add_0_r. rewrite Hkeep by lia. rewrite Z.eqb_refl.
        rewrite Z.add_0_r. reflexivity.
      * replace (dst + i) with (dst + 1 + (i - 1)) by lia.
        rewrite Hcopy by lia.
        destruct (Z.eqb_spec (src + 1 + (i - 1)) dst) as [|_]; [lia|].
        f_equal. lia.
    + intros x Hx. rewrite Hkeep by lia.
      destruct (Z.eqb_spec x dst) as [|_]; [lia|reflexivity].
Qed.

(** C8 (amended): for a live, non-null block [p] of [old_size] bytes,
    [lzarena_realloc_align] with [new_size <= old_size] returns [p] and
    leaves the world as it is; with [new_size > old_size] it returns what
    the allocation underneath returns and, when that is not null, the block
    is aligned, does not overlap the old one, hence is at a different address
    when [old_size > 0], and its first [old_size] bytes are the bytes that
    were at [p].  The call stops without returning only on the assertion of
    an allocation whose size overflows, or when the allocation returned null
    and there are bytes to copy. *)
Theorem lzarena_realloc_align_spec w a l p old_size new_size j :
  arena_inv w a l -> 0 <= j < 64 ->
  0 <= old_size -> 0 <= new_size < 2 ^ 64 ->
  p <> 0 -> live_block w p old_size ->
  (new_size <= old_size ->
   lzarena_realloc_align backend p old_size new_size (2 ^ j) a w = Ok (p, w)) /\
  (old_size < new_size ->
   match lzarena_realloc_align backend p old_size new_size (2 ^ j) a w with
   | Ok (q, w') =>
       (exists w1, lzarena_alloc_align backend new_size (2 ^ j) a w = Ok (q, w1)) /\
       (q <> 0 ->
        q mod 2 ^ j = 0 /\
        (forall i, 0 <= i < old_size -> mem w' (q + i) = mem w (p + i)) /\
        ~ overlap (q, new_size) (p, old_size) /\
        (0 < old_size -> q <> p))
   | Fault =>
       0 < old_size /\
       exists w1, lzarena_alloc_align backend new_size (2 ^ j) a w = Ok (0, w1)
   | AssertFail => 2 ^ 64 < new_size + REGION_SIZE + DEFAULT_BLOCK
   | OutOfFuel => False
   end).
Proof.
  intros Hinv Hj Hold Hnew Hp Hlive. unfold lzarena_realloc_align. split.
  - intros Hle. destruct (Z.leb_spec new_size old_size); [reflexivity|lia].
  - intros Hlt. destruct (Z.leb_spec new_size old_size) as [|_]; [lia|].
    pose proof (lzarena_alloc_align_spec w a l new_size j Hinv Hj Hnew) as Hpost.
    unfold bind at 1.
    destruct (lzarena_alloc_align backend new_size (2 ^ j) a w) as [[q w1]| | |];
      try exact Hpost; try contradiction.
    destruct Hpost as (l1 & Hinv1 & Hg & Hs).
    destruct (Z.eqb_spec p 0) as [|_]; [contradiction|]. cbn [negb].
    unfold bind at 1. unfold memcpy.
    destruct (Z.eqb_spec p 0) as [|_]; [contradiction|].
    destruct (Z.eqb_spec q 0) as [->|Hq]; cbn [orb].
    + destruct (Z.ltb_spec 0 old_size) as [Hpos|Hz]; cbn [andb].
      * split; [exact Hpos|]. exists w1. reflexivity.
      * unfold ret. split; [eexists; reflexivity|]. intros Hq. contradiction.
    + rewrite Bool.andb_false_r. unfold ret.
      split; [exists w1; reflexivity|]. intros _. simpl.
      destruct (served_tail_in _ _ _ _ _ _ _ Hinv1 Hs Hq) as
          (A' & rt' & _ & _ & Hrt' & Hok' & Hal & E1 & E2 & E3 & _).
      destruct Hok' as (Htpos & Htc & _ & _ & _ & Hend & _).
      destruct Hlive as (k & r & Hr & L1 & L2 & L3).
      pose proof (hi_regions w (ai_heap _ _ _ Hinv) _ _ Hr)
        as (Hkpos & Hkc & _ & _ & _ & Hkend & _).
      assert (Hno : ~ overlap (q, new_size) (p, old_size)).
      { destruct (Z.eq_dec old_size 0) as [->|Hnz]; [unfold overlap; simpl; lia|].
        assert (Hc : consumed w (p, old_size)).
        { right. right. exists k, r. simpl. repeat split; try assumption. lia. }
        destruct (served_disjoint _ _ _ _ _ _ _ _ _ Hinv1 Hg Hs ltac:(lia) Hq Hc) as [?|Hd];
          [simpl in *; contradiction|exact Hd]. }
      split; [exact Hal|]. split; [|split; [exact Hno|]].
      * intros i Hi. rewrite (g_mem _ _ _ _ _ Hg).
        unfold overlap in Hno. simpl in Hno.
        assert (Hends : q + new_size <= 2 ^ 63) by (unfold ADDR_LIMIT in Hend; lia).
        assert (Hends' : p + old_size <= 2 ^ 63) by (unfold ADDR_LIMIT in Hkend; lia).
        destruct (memcpy_bytes_spec (Z.to_nat old_size) (mem w) q p) as [Hcopy _];
          rewrite ?Z2Nat.id by lia; try lia.
        apply Hcopy. lia.
      * intros Hpos. unfold overlap in Hno. simpl in Hno. lia.
Qed.

End Arena.

(** ** C7: bulk reset and report *)

Lemma chain_ext rs rs' p l :
  chain rs p l ->
  (forall k r, k ∈ l -> rs !! k = Some r -> exists r', rs' !! k = Some r' /\ next r' = next r) ->
  chain rs' p l.
Proof.
  revert p. induction l as [|k l IH]; intros p Hc Hsame; [exact Hc|].
  destruct Hc as (-> & Hk & Hc). split; [reflexivity|]. split; [exact Hk|].
  destruct (rs !! k) as [r|] eqn:Hr; [|contradiction].
  destruct (Hsame k r ltac:(left) Hr) as (r' & Hr' & Hn). rewrite Hr', Hn.
  apply IH; [exact Hc|]. intros k0 r0 Hin. apply Hsame. right. exact Hin.
Qed.

Lemma free_all_loop_spec l :
  forall p w fuel,
    chain (regions w) p l -> (length l < fuel)%nat ->
    exists w',
      free_all_loop fuel p w = Ok (tt, w') /\
      arenas w' = arenas w /\ mem w' = mem w /\ log w' = log w /\
      (forall k r, k ∈ l -> regions w !! k = Some r ->
         regions w' !! k = Some (set_offset r (chunk r))) /\
      (forall k, k ∉ l -> regions w' !! k = regions w !! k).
Proof.
  induction l as [|k l IH]; intros p w fuel Hc Hf;
    (destruct fuel as [|fuel]; [simpl in Hf; lia|]).
  - simpl in Hc. subst p. exists w. simpl. repeat split; try reflexivity.
    intros k r Hk. inversion Hk.
  - pose proof (chain_nodup _ _ _ Hc) as Hnd. apply NoDup_cons in Hnd as [Hkl Hnd].
    destruct Hc as (-> & Hk & Hc). destruct (regions w !! k) as [r|] eqn:Hr; [|contradiction].
    cbn [free_all_loop]. destruct (Z.eqb_spec k 0) as [|_]; [contradiction|].
    rewrite (bind_ok _ _ _ _ _ (load_region_ok w k r Hr Hk)).
    unfold LZREGION_FREE. unfold bind at 1.
    rewrite (bind_ok _ _ _ _ _ (load_region_ok w k r Hr Hk)).
    rewrite (store_region_ok w k _ Hk).
    set (w1 := mkWorld _ _ _ _).
    destruct (IH (next r) w1 fuel) as (w' & Hrun & Har & Hmem & Hlog & Hin & Hout).
    { subst w1. simpl. apply chain_insert_fresh; assumption. }
    { simpl in Hf. lia. }
    exists w'. split; [exact Hrun|]. subst w1. simpl in *.
    split; [exact Har|]. split; [exact Hmem|]. split; [exact Hlog|]. split.
    + intros k0 r0 Hk0 Hr0. apply elem_of_cons in Hk0 as [->|Hk0].
      * rewrite Hr in Hr0. injection Hr0 as <-.
        rewrite (Hout k Hkl). apply lookup_insert_eq.
      * apply Hin; [exact Hk0|]. rewrite lookup_insert_ne; [exact Hr0|].
        intros <-. contradiction.
    + intros k0 Hk0. apply not_elem_of_cons in Hk0 as [Hne Hk0].
      rewrite (Hout k0 Hk0). apply lookup_insert_ne. congruence.
Qed.

Lemma available_is_chunk_len o c :
  0 <= c < 2 ^ 64 -> wrap (wrap (o + c) - o) = c.
Proof.
  intros Hc. unfold wrap, WORD_MODULUS. rewrite Zminus_mod_idemp_l.
  replace (o + c - o) with c by lia. apply Z.mod_small. exact Hc.
Qed.

(** [lzregion_available] on a well-formed region: the length of the usable
    span, wherever the cursor stands; the assertion fails on an empty span. *)
Lemma lzregion_available_spec w lg k r :
  regions w !! k = Some r -> region_ok lg k r ->
  lzregion_available k w =
  if 0 <? chunk_len r then Ok (chunk_len r, w) else AssertFail.
Proof.
  intros Hr (Hk & Hkc & Hco & Hol & Hlen & Hend & _). unfold ADDR_LIMIT in *.
  unfold lzregion_available.
  rewrite (bind_ok _ _ _ _ _ (load_region_ok w k r Hr ltac:(lia))).
  unfold assert at 1. unfold bind at 1.
  rewrite (wrap_small (offset r + chunk_len r)) by lia.
  destruct (Z.ltb_spec 0 (chunk_len r)) as [Hpos|Hz];
    destruct (Z.ltb_spec (offset r) (offset r + chunk_len r)); try lia; [|reflexivity].
  unfold ret. f_equal. f_equal.
  replace (offset r + chunk_len r - offset r) with (chunk_len r) by lia.
  apply wrap_small. lia.
Qed.

Lemma report_loop_spec l :
  forall p w fuel u s,
    chain (regions w) p l -> (length l < fuel)%nat -> 0 <= u < 2 ^ 64 ->
    (forall k r, k ∈ l -> regions w !! k = Some r -> 0 <= chunk_len r < 2 ^ 64) ->
    report_loop fuel u s p w =
    match report_spec (regions w) l s with
    | Some s' => Ok ((u, s'), w)
    | None => AssertFail
    end.
Proof.
  induction l as [|k l IH]; intros p w fuel u s Hc Hf Hu Hlen;
    (destruct fuel as [|fuel]; [simpl in Hf; lia|]).
  - simpl in Hc. subst p. reflexivity.
  - destruct Hc as (-> & Hk & Hc). destruct (regions w !! k) as [r|] eqn:Hr; [|contradiction].
    cbn [report_loop report_spec]. rewrite Hr.
    destruct (Z.eqb_spec k 0) as [|_]; [contradiction|].
    rewrite (bind_ok _ _ _ _ _ (load_region_ok w k r Hr Hk)).
    unfold lzregion_available. unfold bind at 1.
    rewrite (bind_ok _ _ _ _ _ (load_region_ok w k r Hr Hk)).
    unfold assert at 1. unfold bind at 1.
    destruct (offset r <? wrap (offset r + chunk_len r)); [|reflexivity].
    unfold ret at 1.
    rewrite (available_is_chunk_len _ _ (Hlen k r ltac:(left) Hr)).
    rewrite Z.sub_diag. replace (wrap 0) with 0 by reflexivity.
    rewrite Z.add_0_r, (wrap_small u) by exact Hu.
    apply IH; [exact Hc|simpl in Hf; lia|exact Hu|].
    intros k0 r0 Hk0. apply Hlen. right. exact Hk0.
Qed.

Lemma lzarena_report_spec w a l A :
  arena_inv w a l -> arenas w !! a = Some A ->
  lzarena_report a w =
  match report_spec (regions w) l 0 with
  | Some s => Ok ((0, s), w)
  | None => AssertFail
  end.
Proof.
  intros [Hheap Ha (A0 & HA0 & Hchain & _)] HA. rewrite HA in HA0. injection HA0 as <-.
  unfold lzarena_report.
  rewrite (bind_ok _ _ _ _ _ (load_arena_ok w a A HA Ha)).
  unfold regions_fuel. unfold bind at 1.
  apply report_loop_spec; [exact Hchain| |lia|].
  - pose proof (chain_length _ _ _ Hchain). lia.
  - intros k r _ Hr.
    destruct (hi_regions w Hheap _ _ Hr) as (Hk & Hkc & _ & _ & Hlen & Hend & _).
    unfold ADDR_LIMIT in Hend. lia.
Qed.

Lemma report_spec_reset lg rs rs' l :
  (forall k r, k ∈ l -> rs !! k = Some r ->
     region_ok lg k r /\ rs' !! k = Some (set_offset r (chunk r))) ->
  forall s s', report_spec rs l s = Some s' -> report_spec rs' l s = Some s'.
Proof.
  induction l as [|k l IH]; intros Hreset s s' Hrep; [exact Hrep|].
  simpl in *. destruct (rs !! k) as [r|] eqn:Hr; [|discriminate].
  destruct (Hreset k r ltac:(left) Hr) as [Hok Hr']. rewrite Hr'. simpl.
  destruct Hok as (Hk & Hkc & Hco & Hol & Hlen & Hend & _).
  unfold ADDR_LIMIT in *.
  destruct (Z.ltb_spec (offset r) (wrap (offset r + chunk_len r))) as [Hlt|]; [|discriminate].
  assert (Hpos : 0 < chunk_len r).
  { destruct (Z.eq_dec (chunk_len r) 0) as [E|]; [|lia].
    rewrite E, Z.add_0_r, wrap_small in Hlt by lia. lia. }
  rewrite (wrap_small (chunk r + chunk_len r)) by lia.
  destruct (Z.ltb_spec (chunk r) (chunk r + chunk_len r)); [|lia].
  apply IH; [|exact Hrep]. intros k0 r0 Hk0. apply Hreset. right. exact Hk0.
Qed.

Lemma lzarena_free_all_spec w a l :
  arena_inv w a l ->
  exists w',
    lzarena_free_all a w = Ok (tt, w') /\
    arena_inv w' a l /\
    (forall k r, k ∈ l -> regions w !! k = Some r ->
       regions w' !! k = Some (set_offset r (chunk r))) /\
    (forall k, k ∉ l -> regions w' !! k = regions w !! k) /\
    (exists A, arenas w !! a = Some A /\
       arenas w' = <[a := set_tail A (head A)]> (arenas w)) /\
    log w' = log w /\ mem w' = mem w.
Proof.
  intros Hinv. pose proof Hinv as [Hheap Ha (A & HA & Hchain & Htok)].
  pose proof (chain_length _ _ _ Hchain) as Hlen.
  destruct (free_all_loop_spec l (head A) w (S (size (regions w))) Hchain ltac:(lia))
    as (w1 & Hrun & Har & Hmem & Hlog & Hin & Hout).
  assert (HA1 : arenas w1 !! a = Some A) by (rewrite Har; exact HA).
  set (w' := mkWorld (<[a := set_tail A (head A)]> (arenas w1)) (regions w1) (mem w1) (log w1)).
  assert (Hcall : lzarena_free_all a w = Ok (tt, w')).
  { unfold lzarena_free_all.
    rewrite (bind_ok _ _ _ _ _ (load_arena_ok w a A HA Ha)).
    unfold regions_fuel. unfold bind at 1. unfold bind at 1. rewrite Hrun.
    rewrite (bind_ok _ _ _ _ _ (load_arena_ok w1 a A HA1 Ha)).
    apply store_arena_ok. exact Ha. }
  assert (Hinv' : arena_inv w' a l).
  { split; [|exact Ha|].
    - destruct Hheap as [Hreg Hdis]. subst w'. split; simpl.
      + intros k r' Hr'. rewrite Hlog.
        destruct (decide (k ∈ l)) as [Hkl|Hkl].
        * destruct (chain_lookup _ _ _ _ Hchain Hkl) as [r Hr].
          rewrite (Hin k r Hkl Hr) in Hr'. injection Hr' as <-.
          pose proof (Hreg _ _ Hr) as Hok.
          destruct Hok as (H1 & H2 & H3 & H4 & H5 & H6 & H7).
          unfold region_ok. simpl. repeat split; try assumption; lia.
        * rewrite (Hout k Hkl) in Hr'. apply Hreg, Hr'.
      + assert (Hstatic : forall k r', regions w1 !! k = Some r' ->
                  exists r, regions w !! k = Some r /\ chunk r' = chunk r /\
                            chunk_len r' = chunk_len r).
        { intros k r' Hr'. destruct (decide (k ∈ l)) as [Hkl|Hkl].
          - destruct (chain_lookup _ _ _ _ Hchain Hkl) as [r Hr].
            rewrite (Hin k r Hkl Hr) in Hr'. injection Hr' as <-. exists r. auto.
          - rewrite (Hout k Hkl) in Hr'. exists r'. auto. }
        intros k1 r1 k2 r2 H1 H2 Hne.
        destruct (Hstatic _ _ H1) as (r1' & Hr1 & E1 & E2).
        destruct (Hstatic _ _ H2) as (r2' & Hr2 & E3 & E4).
        unfold footprint_disjoint. rewrite E1, E2, E3, E4.
        apply (Hdis k1 r1' k2 r2'); assumption.
    - exists (set_tail A (head A)). subst w'. simpl.
      split; [apply lookup_insert_eq|]. split.
      + apply (chain_ext (regions w)); [exact Hchain|].
        intros k r Hk Hr. rewrite (Hin k r Hk Hr). eexists. split; reflexivity.
      + destruct l as [|k l]; [left; split; [reflexivity|exact Hchain]|].
        right. destruct Hchain as (-> & _). left. }
  exists w'. split; [exact Hcall|]. split; [exact Hinv'|].
  subst w'. simpl. split; [exact Hin|]. split; [exact Hout|].
  split; [exists A; split; [exact HA|rewrite Har; reflexivity]|].
  split; [exact Hlog|exact Hmem].
Qed.

(** C7: on a well-formed arena [lzarena_free_all] returns; afterwards every
    region of the chain has its cursor on its base and is otherwise as it
    was (buffer, span and chain link), [tail] equals [head], no call to the
    backing allocator has been logged, bytes are not written, and a report
    that returned [(u, s)] before the reset returns [(0, s)] after it. *)
Theorem lzarena_free_all_resets w a l :
  arena_inv w a l ->
  exists w',
    lzarena_free_all a w = Ok (tt, w') /\
    arena_inv w' a l /\
    (forall k r, k ∈ l -> regions w !! k = Some r ->
       regions w' !! k = Some (set_offset r (chunk r))) /\
    (forall k, k ∉ l -> regions w' !! k = regions w !! k) /\
    (exists A, arenas w !! a = Some A /\
       arenas w' = <[a := set_tail A (head A)]> (arenas w)) /\
    log w' = log w /\ mem w' = mem w /\
    (forall u s w0, lzarena_report a w = Ok ((u, s), w0) ->
       lzarena_report a w' = Ok ((0, s), w')).
Proof.
  intros Hinv.
  destruct (lzarena_free_all_spec w a l Hinv) as
      (w' & Hrun & Hinv' & Hin & Hout & (A & HA & Har) & Hlog & Hmem).
  exists w'. split; [exact Hrun|]. split; [exact Hinv'|].
  split; [exact Hin|]. split; [exact Hout|].
  split; [exists A; split; [exact HA|exact Har]|].
  split; [exact Hlog|]. split; [exact Hmem|].
  intros u s w0 Hrep.
  rewrite (lzarena_report_spec w a l A Hinv HA) in Hrep.
  destruct (report_spec (regions w) l 0) as [s0|] eqn:Hs; [|discriminate].
  injection Hrep as _ <- _.
  assert (HA' : arenas w' !! a = Some (set_tail A (head A)))
    by (rewrite Har; apply lookup_insert_eq).
  rewrite (lzarena_report_spec w' a l _ Hinv' HA').
  rewrite (report_spec_reset (log w) (regions w) (regions w') l) with (s' := s0);
    [reflexivity| |exact Hs].
  intros k r Hk Hr.
  split; [apply (hi_regions w (ai_heap _ _ _ Hinv)), Hr|apply Hin; assumption].
Qed.

(** ** The reference configuration is well formed *)

Lemma linux64_ok : @platform_ok linux64.
Proof.
  split.
  - exists 4. split; [lia|reflexivity].
  - reflexivity.
  - vm_compute. discriminate.
  - vm_compute. discriminate.
Qed.

Lemma outstanding_acquired lg b : In b (outstanding lg) -> In b (acquired lg).
Proof.
  induction lg as [|[al n p|al p] lg IH]; simpl; intros Hin; [exact Hin| |].
  - destruct (p =? 0); [apply IH, Hin|].
    destruct Hin as [<-|Hin]; [left; reflexivity|right; apply IH, Hin].
  - apply filter_In in Hin as [Hin _]. apply IH, Hin.
Qed.

Lemma high_water_bound lg :
  65536 <= high_water lg /\
  forall b, In b (acquired lg) -> fst b + snd b <= high_water lg.
Proof.
  unfold high_water. induction (acquired lg) as [|b0 l [IH1 IH2]]; simpl.
  - split; [lia|intros b []].
  - split; [lia|]. intros b [<-|Hin]; [lia|]. specialize (IH2 b Hin). lia.
Qed.

Lemma bump_backend_sound budget : backend_sound (bump_backend budget).
Proof.
  intros lg al n Hn. unfold bump_backend. simpl.
  destruct (length (acquired lg) <? budget)%nat; [|left; reflexivity].
  destruct (high_water_bound lg) as [Hlo Hall].
  pose proof (Z.div_mod (high_water lg + 4095) 4096 ltac:(lia)) as Hdm.
  pose proof (Z.mod_pos_bound (high_water lg + 4095) 4096 ltac:(lia)) as Hm.
  destruct (Z.leb_spec ((high_water lg + 4095) / 4096 * 4096 + n) ADDR_LIMIT) as [Hle|];
    [right|left; reflexivity].
  split; [lia|]. split; [exact Hle|].
  apply Forall_forall. intros b Hb. right.
  apply list_elem_of_In, outstanding_acquired, Hall in Hb. lia.
Qed.

Lemma heap_inv_empty : heap_inv empty_world.
Proof.
  split; simpl.
  - intros k r Hr. rewrite lookup_empty in Hr. discriminate.
  - intros k1 r1 k2 r2 Hr. rewrite lookup_empty in Hr. discriminate.
Qed.

Section Setup.

Context `{Platform}.
Hypothesis platform_good : platform_ok.
Variable backend : list event -> Z -> Z -> Z.
Hypothesis backend_good : backend_sound backend.

Lemma lzarena_create_inv al w a w' :
  heap_inv w -> lzarena_create backend al w = Ok (a, w') -> a <> 0 ->
  arena_inv w' a [].
Proof.
  intros Hheap Hrun Ha. unfold lzarena_create, lzalloc in Hrun.
  unfold bind at 1 in Hrun.
  destruct (Z.eqb_spec (backend (log w) al ARENA_SIZE) 0) as [E|Hnz].
  - injection Hrun as <- _. contradiction.
  - rewrite (bind_ok _ _ _ _ _ (store_arena_ok _ _ _ Hnz)) in Hrun.
    injection Hrun as <- <-. simpl.
    split; [|exact Ha|].
    + destruct Hheap as [Hreg Hdis]. split; simpl; [|exact Hdis].
      intros k r Hr. apply region_ok_acquire, Hreg, Hr.
    + eexists. simpl. split; [apply lookup_insert_eq|]. simpl.
      split; [reflexivity|]. left. split; reflexivity.
Qed.

Lemma setup_inv reqs a blocks w :
  Forall valid_request reqs ->
  setup backend reqs empty_world = Ok ((a, blocks), w) -> a <> 0 ->
  exists w0 l, lzarena_create backend 0 empty_world = Ok (a, w0) /\
    arena_inv w0 a [] /\ alloc_many backend reqs a w0 = Ok (blocks, w) /\
    arena_inv w a l.
Proof.
  intros Hval Hrun Ha. unfold setup in Hrun.
  apply bind_inv in Hrun as (a0 & w0 & Hcreate & Hrun).
  apply bind_inv in Hrun as (bs & w1 & Hmany & Hret).
  injection Hret as -> -> ->.
  pose proof (lzarena_create_inv 0 _ _ _ heap_inv_empty Hcreate Ha) as Hinv0.
  destruct (alloc_many_inv platform_good backend backend_good a reqs _ _ _ _ Hinv0 Hval Hmany)
    as (l & Hinv & _).
  exists w0, l. auto.
Qed.

End Setup.

(** ** Runs on the reference configuration *)

Lemma Ok_pair_inj {A} (x y : A) (w w' : World) :
  Ok (x, w) = Ok (y, w') -> x = y /\ w = w'.
Proof. intros E. injection E as -> ->. split; reflexivity. Qed.

Lemma demo_valid : Forall valid_request demo_requests.
Proof.
  apply Forall_cons. split; [split; [simpl; lia|exists 4; split; [lia|reflexivity]]|].
  apply Forall_cons. split; [split; [simpl; lia|exists 4; split; [lia|reflexivity]]|].
  apply Forall_nil_2.
Qed.

Lemma demo_run :
  setup demo_backend demo_requests empty_world = Ok ((demo_arena, demo_blocks), demo_world).
Proof. vm_compute. reflexivity. Qed.

Lemma fresh_world_inv : arena_inv fresh_world demo_arena [].
Proof.
  apply (lzarena_create_inv demo_backend 0 empty_world); [exact heap_inv_empty| |discriminate].
  vm_compute. reflexivity.
Qed.

Lemma demo_many :
  alloc_many demo_backend demo_requests demo_arena fresh_world = Ok (demo_blocks, demo_world).
Proof. vm_compute. reflexivity. Qed.

Lemma demo_world_inv : arena_inv demo_world demo_arena demo_chain.
Proof.
  destruct (alloc_many_inv linux64_ok demo_backend (bump_backend_sound 8) demo_arena
              demo_requests _ _ _ _ fresh_world_inv demo_valid demo_many) as (l & Hinv & _).
  pose proof (chain_of_inv _ _ _ Hinv) as E. vm_compute in E. subst l. exact Hinv.
Qed.

Lemma scarce_setup :
  setup scarce_backend demo_requests empty_world
  = Ok ((demo_arena, demo_blocks), scarce_pre_world).
Proof. vm_compute. reflexivity. Qed.

Lemma scarce_reset : lzarena_free_all demo_arena scarce_pre_world = Ok (tt, scarce_world).
Proof. vm_compute. reflexivity. Qed.

Lemma scarce_world_inv : arena_inv scarce_world demo_arena demo_chain.
Proof.
  destruct (setup_inv linux64_ok scarce_backend (bump_backend_sound 3) demo_requests
              _ _ _ demo_valid scarce_setup ltac:(discriminate)) as (w0 & l & _ & _ & _ & Hinv).
  destruct (lzarena_free_all_spec _ demo_arena l Hinv) as (w' & Hfree' & Hinv' & _).
  rewrite scarce_reset in Hfree'. apply Ok_pair_inj in Hfree' as [_ E0]. subst w'.
  pose proof (chain_of_inv _ _ _ Hinv') as E. vm_compute in E. subst l. exact Hinv'.
Qed.

(** ** Instances of the theorems on the reference configuration *)

Lemma lzarena_alloc_align_sound_witness :
  match lzarena_alloc_align demo_backend 64 (2 ^ 4) demo_arena demo_world with
  | Ok (p, w') =>
      p = 0 \/
      (p mod 2 ^ 4 = 0 /\
       (exists l' k r, arena_inv w' demo_arena l' /\ k ∈ l' /\ regions w' !! k = Some r /\
          range_within p 64 (chunk r) (chunk r + chunk_len r)) /\
       Forall (fun blk => fst blk = 0 \/ ~ overlap (p, 64) blk) demo_blocks)
  | AssertFail => 2 ^ 64 < 64 + REGION_SIZE + DEFAULT_BLOCK
  | _ => False
  end.
Proof.
  exact (lzarena_alloc_align_sound linux64_ok demo_backend (bump_backend_sound 8)
           fresh_world demo_arena [] demo_requests demo_blocks demo_world 64 4
           fresh_world_inv demo_valid demo_many
           ltac:(lia)
           ltac:(lia)).
Defined.

Lemma tail_moves_forward_witness :
  match alloc_run demo_backend demo_requests demo_arena fresh_world with
  | Ok tr => forward_trace demo_arena fresh_world demo_requests tr
  | AssertFail =>
      Exists (fun req => 2 ^ 64 < fst req + REGION_SIZE + DEFAULT_BLOCK) demo_requests
  | _ => False
  end.
Proof.
  exact (tail_moves_forward linux64_ok demo_backend (bump_backend_sound 8)
           demo_requests fresh_world demo_arena [] fresh_world_inv demo_valid).
Defined.

Lemma lzarena_free_all_resets_witness :
  exists w',
    lzarena_free_all demo_arena demo_world = Ok (tt, w') /\
    arena_inv w' demo_arena demo_chain /\
    (forall k r, k ∈ demo_chain -> regions demo_world !! k = Some r ->
       regions w' !! k = Some (set_offset r (chunk r))) /\
    (forall k, k ∉ demo_chain -> regions w' !! k = regions demo_world !! k) /\
    (exists A, arenas demo_world !! demo_arena = Some A /\
       arenas w' = <[demo_arena := set_tail A (head A)]> (arenas demo_world)) /\
    log w' = log demo_world /\ mem w' = mem demo_world /\
    (forall u s w0, lzarena_report demo_arena demo_world = Ok ((u, s), w0) ->
       lzarena_report demo_arena w' = Ok ((0, s), w')).
Proof.
  exact (lzarena_free_all_resets demo_world demo_arena demo_chain demo_world_inv).
Defined.

Lemma scarce_arena :
  arenas scarce_world !! demo_arena = Some (mkArena 69632 69632 0).
Proof. vm_compute. reflexivity. Qed.

Lemma scarce_full k :
  k ∈ demo_chain ->
  exists n, lzregion_available_alignment (2 ^ 4) k scarce_world = Ok (n, scarce_world) /\
            n < 9000.
Proof.
  intros Hk. apply elem_of_cons in Hk as [->|Hk].
  - exists 4048. split; [vm_compute; reflexivity|lia].
  - apply list_elem_of_singleton in Hk as ->.
    exists 8144. split; [vm_compute; reflexivity|lia].
Qed.

Lemma scarce_refuses :
  scarce_backend (log scarce_world) 0 (growth_len 9000) = 0.
Proof. vm_compute. reflexivity. Qed.

Lemma alloc_failure_effects_witness :
  exists w',
    lzarena_alloc_align scarce_backend 9000 (2 ^ 4) demo_arena scarce_world = Ok (0, w') /\
    lzarena_calloc_align scarce_backend 9000 (2 ^ 4) demo_arena scarce_world = Ok (0, w') /\
    regions w' = regions scarce_world /\ mem w' = mem scarce_world /\
    arenas w' =
      <[demo_arena := set_tail (mkArena 69632 69632 0) (default 0 (last demo_chain))]>
        (arenas scarce_world) /\
    log w' = EvAcquire 0 (growth_len 9000) 0 :: log scarce_world.
Proof.
  exact (alloc_failure_effects linux64_ok scarce_backend (bump_backend_sound 3)
           scarce_world demo_arena demo_chain (mkArena 69632 69632 0) 9000 4
           scarce_world_inv scarce_arena
           ltac:(lia)
           ltac:(lia)
           (fun k Hk _ => scarce_full k Hk) scarce_refuses).
Defined.

Lemma demo_live : live_block demo_world 69680 100.
Proof.
  exists 69632, (mkRegion 4096 4048 69780 69680 73728).
  split; [vm_compute; reflexivity|]. simpl. lia.
Qed.

Lemma lzarena_realloc_align_spec_witness :
  lzarena_realloc_align demo_backend 69680 100 8 (2 ^ 4) demo_arena demo_world
  = Ok (69680, demo_world) /\
  match lzarena_realloc_align demo_backend 69680 100 200 (2 ^ 4) demo_arena demo_world with
  | Ok (q, w') =>
      (exists w1, lzarena_alloc_align demo_backend 200 (2 ^ 4) demo_arena demo_world
                  = Ok (q, w1)) /\
      (q <> 0 ->
       q mod 2 ^ 4 = 0 /\
       (forall i, 0 <= i < 100 -> mem w' (q + i) = mem demo_world (69680 + i)) /\
       ~ overlap (q, 200) (69680, 100) /\
       (0 < 100 -> q <> 69680))
  | Fault =>
      0 < 100 /\
      exists w1, lzarena_alloc_align demo_backend 200 (2 ^ 4) demo_arena demo_world
                 = Ok (0, w1)
  | AssertFail => 2 ^ 64 < 200 + REGION_SIZE + DEFAULT_BLOCK
  | OutOfFuel => False
  end.
Proof.
  split.
  - apply (proj1 (lzarena_realloc_align_spec linux64_ok demo_backend (bump_backend_sound 8)
                    demo_world demo_arena demo_chain 69680 100 8 4 demo_world_inv
                    ltac:(lia) ltac:(lia) ltac:(lia) ltac:(discriminate) demo_live)).
    lia.
  - apply (proj2 (lzarena_realloc_align_spec linux64_ok demo_backend (bump_backend_sound 8)
                    demo_world demo_arena demo_chain 69680 100 200 4 demo_world_inv
                    ltac:(lia) ltac:(lia) ltac:(lia) ltac:(discriminate) demo_live)).
    lia.
Defined.

(** ** Where the code departs from the specification *)

(** C2 fails on the code: a request of size 0 whose alignment padding
    overshoots the end of the region is granted.  On a region that satisfies
    [chunk <= offset <= chunk + chunk_len], [lzregion_alloc_align] with size 0
    and alignment 131072 returns normally and leaves the cursor beyond the
    end of the usable span; so does [lzarena_alloc_align] on the arena's tail
    region. *)
Theorem zero_size_alloc_breaks_region_invariant :
  exists r w' r',
    regions demo_world !! 69632 = Some r /\
    chunk r <= offset r <= chunk r + chunk_len r /\
    lzregion_alloc_align 0 131072 69632 demo_world = Ok (131072, w') /\
    regions w' !! 69632 = Some r' /\
    chunk r' + chunk_len r' < offset r' /\
    exists t w'' t',
      regions demo_world !! 73728 = Some t /\
      chunk t <= offset t <= chunk t + chunk_len t /\
      lzarena_alloc_align demo_backend 0 131072 demo_arena demo_world = Ok (131072, w'') /\
      regions w'' !! 73728 = Some t' /\
      chunk t' + chunk_len t' < offset t'.
Proof.
  exists (mkRegion 4096 4048 69780 69680 73728),
    (world_of (lzregion_alloc_align 0 131072 69632 demo_world)),
    (mkRegion 4096 4048 131072 69680 73728).
  split; [vm_compute; reflexivity|]. split; [simpl; lia|].
  split; [vm_compute; reflexivity|]. split; [vm_compute; reflexivity|].
  split; [simpl; lia|].
  exists (mkRegion 8192 8144 78776 73776 0),
    (world_of (lzarena_alloc_align demo_backend 0 131072 demo_arena demo_world)),
    (mkRegion 8192 8144 131072 73776 0).
  split; [vm_compute; reflexivity|]. split; [simpl; lia|].
  split; [vm_compute; reflexivity|]. split; [vm_compute; reflexivity|].
  simpl. lia.
Qed.

(** C3, as stated, fails on the code: with [tail] on the first of two
    regions, a request that fits in neither, and a backing allocator that
    refuses a third buffer, the call returns null and [tail] has moved to the
    second region. *)
Lemma alloc_failure_moves_tail :
  exists w',
    lzarena_alloc_align scarce_backend 9000 16 demo_arena scarce_world = Ok (0, w') /\
    log w' = EvAcquire 0 12288 0 :: log scarce_world /\
    arenas scarce_world !! demo_arena = Some (mkArena 69632 69632 0) /\
    arenas w' !! demo_arena = Some (mkArena 69632 73728 0) /\
    arenas w' <> arenas scarce_world.
Proof.
  exists (world_of (lzarena_alloc_align scarce_backend 9000 16 demo_arena scarce_world)).
  split; [vm_compute; reflexivity|]. split; [vm_compute; reflexivity|].
  split; [vm_compute; reflexivity|].
  assert (Hafter : arenas (world_of (lzarena_alloc_align scarce_backend 9000 16 demo_arena
                                       scarce_world)) !! demo_arena
                   = Some (mkArena 69632 73728 0)) by (vm_compute; reflexivity).
  split; [exact Hafter|].
  intros E. rewrite E, scarce_arena in Hafter. discriminate Hafter.
Qed.

(** C4 fails on the code: [append_region] adds the header size to the
    request but not the padding that aligns the header and the base.  On a
    fresh arena a request of 8152 bytes (two default blocks less the header),
    larger than the default block, makes the arena acquire two buffers of
    8192 bytes, each with a usable span of 8144 bytes, and return null. *)
Theorem growth_region_too_small :
  exists w' r1 r2,
    DEFAULT_BLOCK < 8152 /\
    lzarena_alloc_align demo_backend 8152 16 demo_arena fresh_world = Ok (0, w') /\
    arenas w' !! demo_arena = Some (mkArena 69632 77824 0) /\
    regions w' !! 69632 = Some r1 /\ regions w' !! 77824 = Some r2 /\
    chunk_len r1 = 8144 /\ chunk_len r2 = 8144 /\
    log w' = EvAcquire 0 8192 77824 :: EvAcquire 0 8192 69632 :: log fresh_world.
Proof.
  exists (world_of (lzarena_alloc_align demo_backend 8152 16 demo_arena fresh_world)),
    (mkRegion 8192 8144 69680 69680 77824), (mkRegion 8192 8144 77872 77872 0).
  split; [vm_compute; reflexivity|].
  repeat split; vm_compute; reflexivity.
Qed.

(** C5 fails on the code: [lzregion_available] measures from the cursor to
    the cursor plus [chunk_len], so it returns [chunk_len] wherever the cursor
    stands.  On a region with a span of 4048 bytes of which 100 are used it
    returns 4048, not the 3948 bytes left. *)
Theorem lzregion_available_ignores_cursor :
  exists r,
    regions demo_world !! 69632 = Some r /\
    chunk r <= offset r <= chunk r + chunk_len r /\
    chunk r + chunk_len r - offset r = 3948 /\
    lzregion_available 69632 demo_world = Ok (4048, demo_world).
Proof.
  exists (mkRegion 4096 4048 69780 69680 73728).
  split; [vm_compute; reflexivity|]. split; [simpl; lia|].
  split; [reflexivity|]. vm_compute. reflexivity.
Qed.

(** C8, as stated, fails on the code: a block of size 0 is handed out at
    the cursor and leaves the cursor in place, so growing it returns the same
    address. *)
Lemma realloc_grow_may_return_same_address :
  exists w w',
    lzarena_alloc_align demo_backend 0 16 demo_arena fresh_world = Ok (69680, w) /\
    lzarena_realloc_align demo_backend 69680 0 8 16 demo_arena w = Ok (69680, w').
Proof.
  exists (world_of (lzarena_alloc_align demo_backend 0 16 demo_arena fresh_world)).
  exists (world_of (lzarena_realloc_align demo_backend 69680 0 8 16 demo_arena
                      (world_of (lzarena_alloc_align demo_backend 0 16 demo_arena fresh_world)))).
  split; vm_compute; reflexivity.
Qed.

(** Growing an empty block when no memory can be had returns null: there
    is no byte to copy.  On the arena, with both regions full and a backing
    allocator that refuses; on a region with 3948 bytes left. *)
Lemma realloc_of_empty_block_returns_null :
  (exists w', lzarena_realloc_align scarce_backend 69680 0 9000 16 demo_arena scarce_world
              = Ok (0, w')) /\
  exists w', lzregion_realloc_align 69680 0 5000 16 69632 demo_world = Ok (0, w').
Proof.
  split.
  - exists (world_of (lzarena_realloc_align scarce_backend 69680 0 9000 16 demo_arena
                        scarce_world)).
    vm_compute. reflexivity.
  - exists (world_of (lzregion_realloc_align 69680 0 5000 16 69632 demo_world)).
    vm_compute. reflexivity.
Qed.

(** * Further properties of the code *)

(** ** Alignment utilities *)

Lemma align_up_word a j :
  0 <= j < 64 -> 0 <= a < 2 ^ 64 -> a <= align_up a (2 ^ j) <= 2 ^ 64.
Proof.
  intros Hj Ha. pose proof (pow2_lt_word j Hj) as Hp.
  destruct (align_up_spec a (2 ^ j) ltac:(lia)) as [Hr _].
  split; [lia|]. apply align_up_least; [lia|lia|].
  replace 64 with (64 - j + j) by lia.
  rewrite Z.pow_add_r by lia. apply Z.mod_mul. lia.
Qed.

Lemma align_forward_wrap a j :
  0 <= j < 64 -> 0 <= a < 2 ^ 64 ->
  align_forward a (2 ^ j) = Ok (wrap (align_up a (2 ^ j))).
Proof.
  intros Hj Ha. pose proof (pow2_lt_word j Hj) as Hp.
  unfold align_forward. rewrite is_power_of_two_pow2 by exact Hj.
  rewrite (wrap_small (2 ^ j - 1)) by lia.
  rewrite land_pred_pow2 by lia.
  pose proof (Z.mod_pos_bound a (2 ^ j) ltac:(lia)) as Hm.
  f_equal. unfold align_up.
  destruct (Z.eqb_spec (a mod 2 ^ j) 0) as [H0|Hne].
  - rewrite H0, Z.sub_0_r, Z.mod_same by lia. f_equal. lia.
  - rewrite (Z.mod_small (2 ^ j - a mod 2 ^ j)) by lia.
    rewrite (wrap_small (2 ^ j - a mod 2 ^ j)) by lia. f_equal. lia.
Qed.

(** X1: for a power-of-two alignment, [align_forward] returns the smallest
    multiple of the alignment that is at least the address; when no such
    multiple fits in a word (the address is within the last alignment step of
    the address space) the addition wraps and it returns 0. *)
Theorem align_forward_rounds_up a j :
  0 <= j < 64 -> 0 <= a < 2 ^ 64 ->
  exists v,
    align_forward a (2 ^ j) = Ok v /\
    ((a <= v < a + 2 ^ j /\ v < 2 ^ 64 /\ v mod 2 ^ j = 0 /\
      forall m, a <= m -> m mod 2 ^ j = 0 -> v <= m)
     \/ (v = 0 /\ 2 ^ 64 - 2 ^ j < a)).
Proof.
  intros Hj Ha. pose proof (pow2_lt_word j Hj) as Hp.
  exists (wrap (align_up a (2 ^ j))). split; [apply align_forward_wrap; assumption|].
  destruct (align_up_spec a (2 ^ j) ltac:(lia)) as [Hr Hm].
  pose proof (align_up_word a j Hj Ha) as Hw.
  destruct (Z.eq_dec (align_up a (2 ^ j)) (2 ^ 64)) as [E|Hne].
  - right. rewrite E. split; [reflexivity|lia].
  - left. rewrite wrap_small by lia.
    split; [exact Hr|]. split; [lia|]. split; [exact Hm|].
    intros m Hle Hmm. apply align_up_least; [lia|exact Hle|exact Hmm].
Qed.

Lemma align_forward_rounds_up_witness :
  exists v,
    align_forward 69672 (2 ^ 4) = Ok v /\
    ((69672 <= v < 69672 + 2 ^ 4 /\ v < 2 ^ 64 /\ v mod 2 ^ 4 = 0 /\
      forall m, 69672 <= m -> m mod 2 ^ 4 = 0 -> v <= m)
     \/ (v = 0 /\ 2 ^ 64 - 2 ^ 4 < 69672)).
Proof. apply (align_forward_rounds_up 69672 4); lia. Defined.

Lemma land_word_mask a : 0 <= a < 2 ^ 64 -> Z.land a (wrap (0 - 1)) = a.
Proof.
  intros Ha. replace (wrap (0 - 1)) with (Z.ones 64) by reflexivity.
  rewrite Z.land_ones by lia. apply Z.mod_small. exact Ha.
Qed.

Lemma wrap_opp_add a : 0 < a < 2 ^ 64 -> wrap (wrap (0 - a) + a) = 0.
Proof.
  intros Ha. unfold wrap at 2. unfold WORD_MODULUS.
  replace (0 - a) with (- a) by lia.
  rewrite Z.mod_opp_l_nz by (rewrite ?Z.mod_small; lia).
  rewrite Z.mod_small by lia.
  replace (2 ^ 64 - a + a) with (2 ^ 64) by lia. reflexivity.
Qed.

(** X2: alignment 0 passes the assertion of [align_forward], which then
    returns 0 for every address. *)
Theorem align_forward_zero_alignment a :
  0 <= a < 2 ^ 64 -> align_forward a 0 = Ok 0.
Proof.
  intros Ha. unfold align_forward. rewrite is_power_of_two_zero.
  rewrite land_word_mask by exact Ha.
  destruct (Z.eqb_spec a 0) as [->|Hne]; [reflexivity|].
  f_equal. apply wrap_opp_add. lia.
Qed.

Lemma align_forward_zero_alignment_witness : align_forward 69672 0 = Ok 0.
Proof. apply (align_forward_zero_alignment 69672). lia. Defined.

(** X3: [align_size] rounds a size up to the next multiple of a
    power-of-two alignment when that multiple fits in a word, leaves a size
    that is already a multiple as it is (so rounding twice is rounding once),
    and returns the size unchanged for alignment 0. *)
Theorem align_size_rounds_up s j :
  0 <= j < 64 -> 0 <= s -> s + 2 ^ j <= 2 ^ 64 ->
  exists v,
    align_size s (2 ^ j) = Ok v /\ s <= v < s + 2 ^ j /\ v mod 2 ^ j = 0 /\
    (forall m, s <= m -> m mod 2 ^ j = 0 -> v <= m) /\
    align_size v (2 ^ j) = Ok v /\ align_size s 0 = Ok s.
Proof.
  intros Hj Hs Hfit. pose proof (pow2_lt_word j Hj) as Hp.
  destruct (align_up_spec s (2 ^ j) ltac:(lia)) as [Hr Hm].
  assert (Hcalc : forall x, 0 <= x -> align_up x (2 ^ j) < 2 ^ 64 ->
            align_size x (2 ^ j) = Ok (align_up x (2 ^ j))).
  { intros x Hx Hlt. unfold align_size. rewrite is_power_of_two_pow2 by exact Hj.
    destruct (Z.eqb_spec (2 ^ j) 0) as [|_]; [lia|].
    rewrite (wrap_small (2 ^ j - 1)) by lia. rewrite land_pred_pow2 by lia.
    pose proof (Z.mod_pos_bound x (2 ^ j) ltac:(lia)) as Hxm.
    f_equal. unfold align_up in *.
    destruct (Z.eqb_spec (x mod 2 ^ j) 0) as [H0|Hne].
    - rewrite H0, Z.sub_0_r, Z.mod_same in * by lia.
      rewrite Z.add_0_r in *. rewrite Z.add_0_l. apply wrap_small. lia.
    - rewrite (Z.mod_small (2 ^ j - x mod 2 ^ j)) in * by lia.
      rewrite (wrap_small (2 ^ j - x mod 2 ^ j)) by lia.
      rewrite Z.add_comm. apply wrap_small. lia. }
  exists (align_up s (2 ^ j)).
  split; [apply Hcalc; lia|]. split; [exact Hr|]. split; [exact Hm|].
  split; [intros m Hle Hmm; apply align_up_least; [lia|exact Hle|exact Hmm]|].
  split; [|reflexivity].
  assert (Hfix : align_up (align_up s (2 ^ j)) (2 ^ j) = align_up s (2 ^ j)).
  { unfold align_up at 1. rewrite Hm, Z.sub_0_r, Z.mod_same by lia. lia. }
  rewrite Hcalc by (rewrite ?Hfix; lia). rewrite Hfix. reflexivity.
Qed.

Lemma align_size_rounds_up_witness :
  exists v,
    align_size 8152 (2 ^ 4) = Ok v /\ 8152 <= v < 8152 + 2 ^ 4 /\ v mod 2 ^ 4 = 0 /\
    (forall m, 8152 <= m -> m mod 2 ^ 4 = 0 -> v <= m) /\
    align_size v (2 ^ 4) = Ok v /\ align_size 8152 0 = Ok 8152.
Proof. apply (align_size_rounds_up 8152 4); lia. Defined.

(** X4: what [align_forward] returns passes [is_aligned_to], and an address
    that passes [is_aligned_to] is returned by [align_forward] as it is. *)
Theorem align_forward_is_aligned a j :
  0 <= j < 64 -> 0 <= a < 2 ^ 64 ->
  (exists v, align_forward a (2 ^ j) = Ok v /\ is_aligned_to v (2 ^ j) = Ok true) /\
  (is_aligned_to a (2 ^ j) = Ok true -> align_forward a (2 ^ j) = Ok a).
Proof.
  intros Hj Ha. pose proof (pow2_lt_word j Hj) as Hp.
  assert (Hal : forall x, is_aligned_to x (2 ^ j) = Ok (x mod 2 ^ j =? 0)).
  { intros x. unfold is_aligned_to. rewrite is_power_of_two_pow2 by exact Hj.
    destruct (Z.eqb_spec (2 ^ j) 0) as [|_]; [lia|reflexivity]. }
  split.
  - exists (wrap (align_up a (2 ^ j))).
    split; [apply align_forward_wrap; assumption|]. rewrite Hal.
    destruct (align_up_spec a (2 ^ j) ltac:(lia)) as [_ Hm].
    pose proof (align_up_word a j Hj Ha) as Hw.
    destruct (Z.eq_dec (align_up a (2 ^ j)) (2 ^ 64)) as [E|Hne].
    + rewrite E. reflexivity.
    + rewrite wrap_small by lia. rewrite Hm. reflexivity.
  - rewrite Hal. intros E. injection E as E. apply Z.eqb_eq in E.
    rewrite align_forward_wrap by assumption. f_equal.
    unfold align_up. rewrite E, Z.sub_0_r, Z.mod_same by lia.
    rewrite Z.add_0_r. apply wrap_small. exact Ha.
Qed.

Lemma align_forward_is_aligned_witness :
  (exists v, align_forward 69672 (2 ^ 4) = Ok v /\ is_aligned_to v (2 ^ 4) = Ok true) /\
  (is_aligned_to 69672 (2 ^ 4) = Ok true -> align_forward 69672 (2 ^ 4) = Ok 69672).
Proof. apply (align_forward_is_aligned 69672 4); lia. Defined.

(** ** One region, further *)

(** X5: on a region whose cursor is inside its span, a request of positive
    size with a power-of-two alignment either finds no room, returns null and
    leaves the world as it is, or returns a non-null aligned block that
    starts at or after the cursor, less than one alignment step away, and
    ends inside the span; only the cursor of that region changes, to the end
    of the block. *)
Theorem lzregion_alloc_align_positive w lg k r sz j :
  regions w !! k = Some r -> region_ok lg k r ->
  offset r <= chunk r + chunk_len r ->
  0 <= j < 64 -> 0 < sz < 2 ^ 64 ->
  (lzregion_alloc_align sz (2 ^ j) k w = Ok (0, w) /\
   chunk r + chunk_len r < align_up (offset r) (2 ^ j) + sz) \/
  (exists p,
     lzregion_alloc_align sz (2 ^ j) k w = Ok (p, bump w k r (p + sz)) /\
     p <> 0 /\ p mod 2 ^ j = 0 /\ offset r <= p < offset r + 2 ^ j /\
     p + sz <= chunk r + chunk_len r).
Proof.
  intros Hr Hok Hinv Hj Hsz. pose proof (pow2_lt_word j Hj) as Hp.
  rewrite (region_alloc_ok w lg k r j sz Hr Hok Hj ltac:(lia)).
  destruct (align_up_spec (offset r) (2 ^ j) ltac:(lia)) as [Hv _].
  pose proof Hok as (Hk & Hkc & Hco & _).
  destruct (Z.gtb_spec sz (avail_spec r (2 ^ j))) as [Hgt|Hle].
  - left. split; [reflexivity|]. unfold avail_spec in Hgt.
    destruct (Z.geb_spec (align_up (offset r) (2 ^ j)) (chunk r + chunk_len r)); lia.
  - right. exists (align_up (offset r) (2 ^ j)).
    destruct (avail_spec_fits lg k r j sz Hok Hj ltac:(lia) Hle) as (H1 & H2 & H3 & H4 & H5).
    split; [reflexivity|]. repeat split; try assumption; lia.
Qed.

Lemma demo_region : regions demo_world !! 69632 = Some (mkRegion 4096 4048 69780 69680 73728).
Proof. vm_compute. reflexivity. Qed.

Lemma demo_region_ok :
  region_ok (log demo_world) 69632 (mkRegion 4096 4048 69780 69680 73728).
Proof. exact (hi_regions _ (ai_heap _ _ _ demo_world_inv) _ _ demo_region). Qed.

Lemma lzregion_alloc_align_positive_witness :
  (lzregion_alloc_align 24 (2 ^ 3) 69632 demo_world = Ok (0, demo_world) /\
   69680 + 4048 < align_up 69780 (2 ^ 3) + 24) \/
  (exists p,
     lzregion_alloc_align 24 (2 ^ 3) 69632 demo_world
     = Ok (p, bump demo_world 69632 (mkRegion 4096 4048 69780 69680 73728) (p + 24)) /\
     p <> 0 /\ p mod 2 ^ 3 = 0 /\ 69780 <= p < 69780 + 2 ^ 3 /\
     p + 24 <= 69680 + 4048).
Proof.
  apply (lzregion_alloc_align_positive demo_world (log demo_world) 69632
           (mkRegion 4096 4048 69780 69680 73728) 24 3 demo_region demo_region_ok);
    simpl; lia.
Defined.

(** X6: a region can be filled to its last byte: a request, with alignment
    1, of exactly the bytes between the cursor and the end of the span
    returns the cursor and moves it to the end; after that every request of
    positive size, whatever its power-of-two alignment, returns null and
    leaves the world as it is. *)
Theorem lzregion_alloc_align_fills w lg k r :
  regions w !! k = Some r -> region_ok lg k r ->
  offset r < chunk r + chunk_len r ->
  let n := chunk r + chunk_len r - offset r in
  let w1 := bump w k r (chunk r + chunk_len r) in
  lzregion_alloc_align n (2 ^ 0) k w = Ok (offset r, w1) /\
  forall sz j, 0 < sz < 2 ^ 64 -> 0 <= j < 64 ->
    lzregion_alloc_align sz (2 ^ j) k w1 = Ok (0, w1).
Proof.
  intros Hr Hok Hlt n w1.
  pose proof Hok as (Hk & Hkc & Hco & Hol & Hlen & Hend & Hbuf).
  assert (Hlim : chunk r + chunk_len r <= 2 ^ 63) by exact Hend.
  assert (Hup : align_up (offset r) (2 ^ 0) = offset r).
  { unfold align_up. rewrite Z.pow_0_r, !Z.mod_1_r. lia. }
  split.
  - rewrite (region_alloc_ok w lg k r 0 n Hr Hok ltac:(lia) ltac:(unfold n; lia)).
    unfold avail_spec. rewrite Hup.
    destruct (Z.geb_spec (offset r) (chunk r + chunk_len r)) as [|_]; [lia|].
    fold n. destruct (Z.gtb_spec n n) as [|_]; [lia|].
    unfold w1, n. do 3 f_equal. lia.
  - intros sz j Hsz Hj. pose proof (pow2_lt_word j Hj) as Hp.
    set (r1 := set_offset r (chunk r + chunk_len r)).
    assert (Hr1 : regions w1 !! k = Some r1) by (unfold w1, bump; simpl; apply lookup_insert_eq).
    assert (Hok1 : region_ok lg k r1).
    { apply region_ok_bump; [exact Hok|]. unfold ADDR_LIMIT. lia. }
    rewrite (region_alloc_ok w1 lg k r1 j sz Hr1 Hok1 Hj ltac:(lia)).
    destruct (align_up_spec (offset r1) (2 ^ j) ltac:(lia)) as [Hv _].
    unfold avail_spec.
    destruct (Z.geb_spec (align_up (offset r1) (2 ^ j)) (chunk r1 + chunk_len r1)) as [_|Hbad];
      [|simpl in *; lia].
    destruct (Z.gtb_spec sz 0) as [_|]; [reflexivity|lia].
Qed.

Lemma lzregion_alloc_align_fills_witness :
  let r := mkRegion 4096 4048 69780 69680 73728 in
  let n := chunk r + chunk_len r - offset r in
  let w1 := bump demo_world 69632 r (chunk r + chunk_len r) in
  lzregion_alloc_align n (2 ^ 0) 69632 demo_world = Ok (offset r, w1) /\
  forall sz j, 0 < sz < 2 ^ 64 -> 0 <= j < 64 ->
    lzregion_alloc_align sz (2 ^ j) 69632 w1 = Ok (0, w1).
Proof.
  apply (lzregion_alloc_align_fills demo_world (log demo_world) 69632
           (mkRegion 4096 4048 69780 69680 73728) demo_region demo_region_ok).
  simpl. lia.
Defined.

(** X7: on a region whose cursor is inside its span,
    [lzregion_available_alignment] returns without changing the world a
    number of bytes between 0 and the bytes left after the cursor; it returns
    exactly the bytes left when the cursor is already aligned, and 0 when the
    aligned cursor is at or past the end. *)
Theorem lzregion_available_alignment_bounds w lg k r j :
  regions w !! k = Some r -> region_ok lg k r ->
  offset r <= chunk r + chunk_len r -> 0 <= j < 64 ->
  exists n,
    lzregion_available_alignment (2 ^ j) k w = Ok (n, w) /\
    0 <= n <= chunk r + chunk_len r - offset r /\
    chunk r + chunk_len r - offset r - 2 ^ j < n /\
    (offset r mod 2 ^ j = 0 -> n = chunk r + chunk_len r - offset r).
Proof.
  intros Hr Hok Hinv Hj. pose proof (pow2_lt_word j Hj) as Hp.
  exists (avail_spec r (2 ^ j)).
  split; [exact (region_avail_ok w lg k r j Hr Hok Hj)|].
  destruct (align_up_spec (offset r) (2 ^ j) ltac:(lia)) as [Hv _].
  unfold avail_spec.
  destruct (Z.geb_spec (align_up (offset r) (2 ^ j)) (chunk r + chunk_len r));
    (split; [lia|]); (split; [lia|]); intros E;
    assert (Hup : align_up (offset r) (2 ^ j) = offset r)
      by (unfold align_up; rewrite E, Z.sub_0_r, Z.mod_same by lia; lia); lia.
Qed.

Lemma lzregion_available_alignment_bounds_witness :
  exists n,
    lzregion_available_alignment (2 ^ 4) 69632 demo_world = Ok (n, demo_world) /\
    0 <= n <= 69680 + 4048 - 69780 /\
    69680 + 4048 - 69780 - 2 ^ 4 < n /\
    (69780 mod 2 ^ 4 = 0 -> n = 69680 + 4048 - 69780).
Proof.
  apply (lzregion_available_alignment_bounds demo_world (log demo_world) 69632
           (mkRegion 4096 4048 69780 69680 73728) 4 demo_region demo_region_ok);
    simpl; lia.
Defined.

(** X8: alignment 0 is not refused: [lzregion_alloc_align] with alignment 0
    and a size up to the end address of the span returns null and yet
    overwrites the cursor of the region with the size. *)
Theorem lzregion_alloc_align_zero_alignment w lg k r sz :
  regions w !! k = Some r -> region_ok lg k r ->
  0 <= sz <= chunk r + chunk_len r ->
  lzregion_alloc_align sz 0 k w = Ok (0, bump w k r sz).
Proof.
  intros Hr Hok Hsz.
  pose proof Hok as (Hk & Hkc & Hco & Hol & Hlen & Hend & _).
  unfold ADDR_LIMIT in *.
  assert (Haf : align_forward (offset r) 0 = Ok 0).
  { unfold align_forward. rewrite is_power_of_two_zero.
    rewrite land_word_mask by lia.
    destruct (Z.eqb_spec (offset r) 0) as [|_]; [lia|].
    f_equal. apply wrap_opp_add. lia. }
  unfold lzregion_alloc_align, lzregion_available_alignment.
  unfold bind at 1.
  rewrite (bind_ok _ _ _ _ _ (load_region_ok w k r Hr ltac:(lia))).
  rewrite Haf. unfold lift at 1. unfold bind at 1. unfold ret at 1.
  rewrite (wrap_small (chunk r + chunk_len r)) by lia.
  destruct (Z.geb_spec 0 (chunk r + chunk_len r)) as [|_]; [lia|].
  rewrite Z.sub_0_r, (wrap_small (chunk r + chunk_len r)) by lia.
  destruct (Z.gtb_spec sz (chunk r + chunk_len r)) as [|_]; [lia|].
  rewrite (bind_ok _ _ _ _ _ (load_region_ok w k r Hr ltac:(lia))).
  rewrite Haf. unfold lift at 1. unfold bind at 1.
  rewrite Z.add_0_l, (wrap_small sz) by lia.
  rewrite (bind_ok _ _ _ _ _ (store_region_ok w k _ ltac:(lia))).
  reflexivity.
Qed.

Lemma lzregion_alloc_align_zero_alignment_witness :
  lzregion_alloc_align 64 0 69632 demo_world
  = Ok (0, bump demo_world 69632 (mkRegion 4096 4048 69780 69680 73728) 64).
Proof.
  apply (lzregion_alloc_align_zero_alignment demo_world (log demo_world) 69632
           (mkRegion 4096 4048 69780 69680 73728) 64 demo_region demo_region_ok).
  simpl. lia.
Defined.

(** X9: an alignment that is neither 0 nor a power of two stops every
    region-level allocation on the assertion of [align_forward], before
    anything is changed. *)
Theorem lzregion_alloc_align_rejects_alignment w k r sz al ptr old_size :
  regions w !! k = Some r -> k <> 0 ->
  0 < al < 2 ^ 64 -> (forall j, 0 <= j < 64 -> al <> 2 ^ j) ->
  lzregion_available_alignment al k w = AssertFail /\
  lzregion_alloc_align sz al k w = AssertFail /\
  lzregion_calloc_align sz al k w = AssertFail /\
  (old_size < sz -> lzregion_realloc_align ptr old_size sz al k w = AssertFail).
Proof.
  intros Hr Hk Hal Hnp.
  assert (Hpow : is_power_of_two al = false).
  { destruct (is_power_of_two al) eqn:E; [|reflexivity].
    destruct (is_power_of_two_inv al Hal E) as (j & Hj & ->).
    exfalso. exact (Hnp j Hj eq_refl). }
  assert (Hav : lzregion_available_alignment al k w = AssertFail).
  { unfold lzregion_available_alignment.
    rewrite (bind_ok _ _ _ _ _ (load_region_ok w k r Hr Hk)).
    unfold align_forward. rewrite Hpow. reflexivity. }
  assert (Hall : lzregion_alloc_align sz al k w = AssertFail).
  { unfold lzregion_alloc_align. unfold bind at 1. rewrite Hav. reflexivity. }
  split; [exact Hav|]. split; [exact Hall|]. split.
  - unfold lzregion_calloc_align. unfold bind at 1. rewrite Hall. reflexivity.
  - intros Hlt. unfold lzregion_realloc_align.
    destruct (Z.leb_spec sz old_size) as [|_]; [lia|].
    unfold bind at 1. rewrite Hall. reflexivity.
Qed.

Lemma lzregion_alloc_align_rejects_alignment_witness :
  lzregion_available_alignment 24 69632 demo_world = AssertFail /\
  lzregion_alloc_align 64 24 69632 demo_world = AssertFail /\
  lzregion_calloc_align 64 24 69632 demo_world = AssertFail /\
  (8 < 64 -> lzregion_realloc_align 69680 8 64 24 69632 demo_world = AssertFail).
Proof.
  apply (lzregion_alloc_align_rejects_alignment demo_world 69632
           (mkRegion 4096 4048 69780 69680 73728) 64 24 69680 8 demo_region);
    try lia.
  intros j Hj E.
  assert (Hc : forallb (fun i => negb (24 =? 2 ^ Z.of_nat i)) (seq 0 64) = true)
    by (vm_compute; reflexivity).
  rewrite forallb_forall in Hc. specialize (Hc (Z.to_nat j)).
  rewrite Z2Nat.id in Hc by lia. rewrite <- E, Z.eqb_refl in Hc.
  discriminate Hc. apply in_seq. lia.
Defined.

Lemma memset_bytes_spec c :
  forall m p v,
    0 <= p -> p + Z.of_nat c <= 2 ^ 64 ->
    (forall i, 0 <= i < Z.of_nat c -> memset_bytes m p v c (p + i) = v) /\
    (forall x, x < p \/ p + Z.of_nat c <= x -> memset_bytes m p v c x = m x).
Proof.
  induction c as [|c IH]; intros m p v Hp Hlim.
  - split; [intros i Hi; lia|intros x _; reflexivity].
  - cbn [memset_bytes].
    destruct c as [|c'].
    + cbn [memset_bytes]. split.
      * intros i Hi. replace (p + i) with p by lia. rewrite Z.eqb_refl. reflexivity.
      * intros x Hx. destruct (Z.eqb_spec x p) as [|_]; [lia|reflexivity].
    + rewrite (wrap_small (p + 1)) by lia.
      destruct (IH (fun a => if a =? p then v else m a) (p + 1) v) as [Hset Hkeep]; try lia.
      split.
      * intros i Hi. destruct (Z.eq_dec i 0) as [->|Hnz].
        -- rewrite Z.add_0_r. rewrite Hkeep by lia. rewrite Z.eqb_refl. reflexivity.
        -- replace (p + i) with (p + 1 + (i - 1)) by lia. apply Hset. lia.
      * intros x Hx. rewrite Hkeep by lia.
        destruct (Z.eqb_spec x p) as [|_]; [lia|reflexivity].
Qed.

(** X10: [lzregion_calloc_align] returns what [lzregion_alloc_align]
    returns and moves the cursor as it does; when the block is not null its
    bytes are all zero afterwards and every byte outside of it is as it was;
    when it is null nothing is written. *)
Theorem lzregion_calloc_align_zeroes w lg k r sz j :
  regions w !! k = Some r -> region_ok lg k r ->
  0 <= j < 64 -> 0 <= sz < 2 ^ 64 ->
  exists p w1 w',
    lzregion_alloc_align sz (2 ^ j) k w = Ok (p, w1) /\
    lzregion_calloc_align sz (2 ^ j) k w = Ok (p, w') /\
    arenas w' = arenas w1 /\ regions w' = regions w1 /\ log w' = log w1 /\
    (p = 0 -> w' = w) /\
    (p <> 0 ->
     (forall i, 0 <= i < sz -> mem w' (p + i) = 0) /\
     (forall x, x < p \/ p + sz <= x -> mem w' x = mem w x)).
Proof.
  intros Hr Hok Hj Hsz. pose proof (pow2_lt_word j Hj) as Hp.
  pose proof Hok as (Hk & Hkc & Hco & Hol & Hlen & Hend & _).
  unfold lzregion_calloc_align. unfold bind at 1.
  rewrite (region_alloc_ok w lg k r j sz Hr Hok Hj Hsz).
  destruct (Z.gtb_spec sz (avail_spec r (2 ^ j))) as [Hgt|Hle].
  - exists 0, w, w. simpl. repeat split; try reflexivity; intros; congruence.
  - destruct (avail_spec_fits lg k r j sz Hok Hj ltac:(lia) Hle) as (H1 & H2 & H3 & H4 & H5).
    unfold ADDR_LIMIT in *.
    set (p := align_up (offset r) (2 ^ j)) in *.
    assert (Hpnz : p <> 0) by lia.
    exists p, (bump w k r (p + sz)).
    destruct (Z.eqb_spec p 0) as [|_]; [contradiction|]. simpl negb. cbv iota.
    unfold bind at 1. unfold memset.
    destruct (Z.eqb_spec p 0) as [|_]; [contradiction|].
    eexists. split; [reflexivity|]. split; [reflexivity|]. simpl.
    repeat split; try reflexivity; try (intros; contradiction).
    + intros i Hi.
      destruct (memset_bytes_spec (Z.to_nat sz) (mem w) p 0) as [Hset _];
        rewrite ?Z2Nat.id by lia; try lia.
      apply Hset. lia.
    + intros x Hx.
      destruct (memset_bytes_spec (Z.to_nat sz) (mem w) p 0) as [_ Hkeep];
        rewrite ?Z2Nat.id by lia; try lia.
      apply Hkeep. lia.
Qed.

Lemma lzregion_calloc_align_zeroes_witness :
  exists p w1 w',
    lzregion_alloc_align 24 (2 ^ 3) 69632 demo_world = Ok (p, w1) /\
    lzregion_calloc_align 24 (2 ^ 3) 69632 demo_world = Ok (p, w') /\
    arenas w' = arenas w1 /\ regions w' = regions w1 /\ log w' = log w1 /\
    (p = 0 -> w' = demo_world) /\
    (p <> 0 ->
     (forall i, 0 <= i < 24 -> mem w' (p + i) = 0) /\
     (forall x, x < p \/ p + 24 <= x -> mem w' x = mem demo_world x)).
Proof.
  apply (lzregion_calloc_align_zeroes demo_world (log demo_world) 69632
           (mkRegion 4096 4048 69780 69680 73728) 24 3 demo_region demo_region_ok);
    lia.
Defined.



(** ** Carving a region out of a buffer *)

Section Carving.

Context `{Platform}.
Hypothesis platform_good : platform_ok.
Variable backend : list event -> Z -> Z -> Z.
Hypothesis backend_good : backend_sound backend.

(** X12: [lzregion_init] on a buffer in the lower half of the address space
    either stops on its assertion, and then the buffer is shorter than a
    region header and two alignment paddings, or stores one region and
    changes nothing else: the header is at the first aligned address of the
    buffer, the span starts at the first aligned address after the header
    and ends exactly where the buffer ends, the cursor is at the start of the
    span and the link is null. *)
Theorem lzregion_init_carves w n b :
  0 < b -> 0 <= n -> b + n <= ADDR_LIMIT ->
  match lzregion_init n b w with
  | Ok (k, w') =>
      exists r,
        w' = mkWorld (arenas w) (<[k := r]> (regions w)) (mem w) (log w) /\
        b <= k < b + LZARENA_DEFAULT_ALIGNMENT /\
        k mod LZARENA_DEFAULT_ALIGNMENT = 0 /\
        k + REGION_SIZE <= chunk r < k + REGION_SIZE + LZARENA_DEFAULT_ALIGNMENT /\
        chunk r mod LZARENA_DEFAULT_ALIGNMENT = 0 /\
        offset r = chunk r /\ chunk r + chunk_len r = b + n /\
        0 <= chunk_len r /\ region_len r = n /\ next r = 0
  | AssertFail => n < REGION_SIZE + 2 * LZARENA_DEFAULT_ALIGNMENT
  | _ => False
  end.
Proof.
  intros Hb Hn Hlim.
  rewrite (lzregion_init_spec platform_good w n b Hb Hn Hlim).
  assert (Hb' : b <= ADDR_LIMIT) by lia.
  destruct (init_facts platform_good b Hb Hb') as (Hk & Hkl & Hc).
  pose proof (default_alignment_pos platform_good) as Hda.
  destruct (Z.leb_spec (region_base b) (b + n)) as [Hfit|Hno]; [|lia].
  exists (fresh_region n b). simpl.
  split; [reflexivity|]. split; [exact Hk|].
  split; [apply align_up_spec; lia|]. split; [exact Hc|].
  split; [apply align_up_spec; lia|].
  repeat split; lia.
Qed.

(** X13: [lzregion_create] asks the default backing allocator for exactly
    [size] bytes; it returns null, with no region added, exactly when the
    allocator refuses; otherwise the region is well formed, lies in the
    buffer just acquired and its span ends where the buffer ends.  It stops
    on an assertion only for a buffer too short for a header. *)
Theorem lzregion_create_spec w n :
  0 <= n ->
  let b := backend (log w) 0 n in
  match lzregion_create backend n w with
  | Ok (k, w') =>
      log w' = EvAcquire 0 n b :: log w /\ arenas w' = arenas w /\ mem w' = mem w /\
      ((k = 0 /\ b = 0 /\ regions w' = regions w) \/
       (k <> 0 /\ b <> 0 /\
        exists r, regions w' = <[k := r]> (regions w) /\
          region_ok (log w') k r /\ b <= k /\ chunk r + chunk_len r = b + n /\
          offset r = chunk r))
  | AssertFail => b <> 0 /\ n < REGION_SIZE + 2 * LZARENA_DEFAULT_ALIGNMENT
  | _ => False
  end.
Proof.
  intros Hn b. unfold lzregion_create, lzalloc. unfold bind at 1. fold b.
  destruct (Z.eqb_spec b 0) as [Hz|Hnz].
  - unfold ret. simpl. repeat split; try reflexivity. left. repeat split. exact Hz.
  - destruct (backend_good (log w) 0 n Hn) as [Hbad|(Hb & Hlim & Hfree)];
      [fold b in Hbad; contradiction|]. fold b in Hb, Hlim, Hfree.
    rewrite (lzregion_init_spec platform_good _ n b Hb Hn Hlim).
    assert (Hb' : b <= ADDR_LIMIT) by lia.
    destruct (init_facts platform_good b Hb Hb') as (Hk & Hkl & Hc).
    pose proof block_bounds platform_good as (Hrs & Hda & _).
    destruct (Z.leb_spec (region_base b) (b + n)) as [Hfit|Hno]; [|split; [exact Hnz|lia]].
    simpl. repeat split; try reflexivity. right.
    split; [lia|]. split; [exact Hnz|]. exists (fresh_region n b).
    split; [reflexivity|]. split; [|simpl; repeat split; lia].
    unfold region_ok. simpl. repeat split; try lia.
    destruct (Z.eqb_spec b 0) as [|_]; [contradiction|].
    apply Exists_cons_hd. simpl. lia.
Qed.

End Carving.

Lemma lzregion_init_carves_witness :
  match lzregion_init 4096 65536 empty_world with
  | Ok (k, w') =>
      exists r,
        w' = mkWorld (arenas empty_world) (<[k := r]> (regions empty_world))
                     (mem empty_world) (log empty_world) /\
        65536 <= k < 65536 + LZARENA_DEFAULT_ALIGNMENT /\
        k mod LZARENA_DEFAULT_ALIGNMENT = 0 /\
        k + REGION_SIZE <= chunk r < k + REGION_SIZE + LZARENA_DEFAULT_ALIGNMENT /\
        chunk r mod LZARENA_DEFAULT_ALIGNMENT = 0 /\
        offset r = chunk r /\ chunk r + chunk_len r = 65536 + 4096 /\
        0 <= chunk_len r /\ region_len r = 4096 /\ next r = 0
  | AssertFail => 4096 < REGION_SIZE + 2 * LZARENA_DEFAULT_ALIGNMENT
  | _ => False
  end.
Proof.
  apply (lzregion_init_carves linux64_ok empty_world 4096 65536);
    unfold ADDR_LIMIT; lia.
Defined.

Lemma lzregion_create_spec_witness :
  let b := demo_backend (log empty_world) 0 4096 in
  match lzregion_create demo_backend 4096 empty_world with
  | Ok (k, w') =>
      log w' = EvAcquire 0 4096 b :: log empty_world /\
      arenas w' = arenas empty_world /\ mem w' = mem empty_world /\
      ((k = 0 /\ b = 0 /\ regions w' = regions empty_world) \/
       (k <> 0 /\ b <> 0 /\
        exists r, regions w' = <[k := r]> (regions empty_world) /\
          region_ok (log w') k r /\ b <= k /\ chunk r + chunk_len r = b + 4096 /\
          offset r = chunk r))
  | AssertFail => b <> 0 /\ 4096 < REGION_SIZE + 2 * LZARENA_DEFAULT_ALIGNMENT
  | _ => False
  end.
Proof.
  apply (lzregion_create_spec linux64_ok demo_backend (bump_backend_sound 8) empty_world 4096).
  lia.
Defined.

(** ** The arena, further *)

Lemma index_of_lt_length x l : x ∈ l -> (index_of x l < length l)%nat.
Proof.
  intros Hin. apply (lookup_lt_Some l (index_of x l) x). apply index_of_elem. exact Hin.
Qed.

Lemma index_of_last_elem l t : NoDup l -> last l = Some t -> S (index_of t l) = length l.
Proof.
  intros Hnd Hl. apply last_Some in Hl as (l' & ->).
  rewrite index_of_middle by exact Hnd. rewrite length_app. simpl. lia.
Qed.

Lemma index_of_same l x y : x ∈ l -> y ∈ l -> index_of x l = index_of y l -> x = y.
Proof.
  intros Hx Hy E. apply index_of_elem in Hx, Hy. rewrite E in Hx. congruence.
Qed.

Lemma arena_eta A h t al : head A = h -> tail A = t -> allocator A = al -> A = mkArena h t al.
Proof. destruct A; simpl; intros -> -> ->; reflexivity. Qed.

Section ArenaMore.

Context `{Platform}.
Hypothesis platform_good : platform_ok.
Variable backend : list event -> Z -> Z -> Z.
Hypothesis backend_good : backend_sound backend.

Lemma alloc_search_first_fit w a l A k r sz j :
  arena_inv w a l -> arenas w !! a = Some A ->
  0 <= j < 64 -> 0 <= sz < 2 ^ 64 ->
  k ∈ l -> (index_of (tail A) l <= index_of k l)%nat ->
  regions w !! k = Some r -> sz <= avail_spec r (2 ^ j) ->
  (forall k' r', k' ∈ l -> (index_of (tail A) l <= index_of k' l)%nat ->
     (index_of k' l < index_of k l)%nat ->
     regions w !! k' = Some r' -> avail_spec r' (2 ^ j) < sz) ->
  alloc_search backend sz (2 ^ j) a w =
  Ok (align_up (offset r) (2 ^ j),
      mkWorld (<[a := set_tail A k]> (arenas w))
              (<[k := set_offset r (align_up (offset r) (2 ^ j) + sz)]> (regions w))
              (mem w) (log w)).
Proof.
  intros Hinv HA Hj Hsz Hk Hidx Hr Hfit Hfirst.
  pose proof (ai_nonnull _ _ _ Hinv) as Ha.
  assert (Htnz : tail A <> 0).
  { intros E. apply (arena_inv_tail_nonzero w a l A Hinv HA) in E. subst l.
    apply elem_of_nil in Hk. exact Hk. }
  destruct (search_phase w a l A sz j Hinv HA Htnz Hj) as
      (w1 & A1 & Hrun & Hinv1 & _ & HA1 & Htin & Hreg & Hlog & Hmem & Hhd & Hal & Hmono
       & Hstop & Hbetween & Har).
  pose proof Hinv as [_ _ (A0 & HA0 & Hchain & _)].
  pose proof (chain_nodup _ _ _ Hchain) as Hnd.
  destruct (chain_lookup _ _ _ _ Hchain Htin) as [rt Hrt].
  assert (Ht1 : tail A1 = k).
  { destruct (Nat.lt_trichotomy (index_of (tail A1) l) (index_of k l)) as [Hlt|[Heq|Hgt]].
    - pose proof (Hfirst _ _ Htin Hmono Hlt Hrt) as Hno.
      destruct (Hstop rt Hrt) as [Hlast|Hroom]; [|lia].
      pose proof (index_of_last_elem l _ Hnd Hlast).
      pose proof (index_of_lt_length k l Hk). lia.
    - apply (index_of_same l); assumption.
    - pose proof (Hbetween k r Hk Hidx Hgt Hr). lia. }
  assert (EA1 : A1 = set_tail A k).
  { rewrite (arena_eta A1 (head A) k (allocator A) Hhd Ht1 Hal). destruct A; reflexivity. }
  subst A1.
  assert (Ew1 : w1 = mkWorld (<[a := set_tail A k]> (arenas w)) (regions w) (mem w) (log w)).
  { rewrite <- (world_eta w1), Har, Hreg, Hmem, Hlog. reflexivity. }
  assert (Hr1 : regions w1 !! k = Some r) by (rewrite Hreg; exact Hr).
  pose proof (hi_regions w1 (ai_heap _ _ _ Hinv1) _ _ Hr1) as Hok1.
  unfold alloc_search, regions_fuel. unfold bind at 1.
  rewrite (bind_ok _ _ _ _ _ Hrun). unfold alloc_finish.
  rewrite (bind_ok _ _ _ _ _ (load_arena_ok w1 a _ HA1 Ha)). simpl tail.
  rewrite (bind_ok _ _ _ _ _ (region_avail_ok w1 (log w1) k r j Hr1 Hok1 Hj)).
  destruct (Z.gtb_spec sz (avail_spec r (2 ^ j))) as [|_]; [lia|].
  unfold ret at 1. unfold bind at 1.
  rewrite (bind_ok _ _ _ _ _ (load_arena_ok w1 a _ HA1 Ha)). simpl tail.
  rewrite (region_alloc_ok w1 (log w1) k r j sz Hr1 Hok1 Hj Hsz).
  destruct (Z.gtb_spec sz (avail_spec r (2 ^ j))) as [|_]; [lia|].
  rewrite Ew1. reflexivity.
Qed.

Lemma alloc_align_nonempty w a l A sz al :
  arena_inv w a l -> arenas w !! a = Some A -> l <> [] ->
  lzarena_alloc_align backend sz al a w = alloc_search backend sz al a w.
Proof.
  intros Hinv HA Hl.
  rewrite lzarena_alloc_align_unfold.
  rewrite (bind_ok _ _ _ _ _ (load_arena_ok w a A HA (ai_nonnull _ _ _ Hinv))).
  destruct (Z.eqb_spec (tail A) 0) as [E|_].
  - apply (arena_inv_tail_nonzero w a l A Hinv HA) in E. contradiction.
  - reflexivity.
Qed.

(** X14: first fit from [tail], without the backing allocator: when [k] is
    the first region at or after [tail] whose room after alignment holds the
    request, [lzarena_alloc_align] cuts the block from [k], at the aligned
    cursor, moves [tail] to [k] and the cursor of [k] to the end of the
    block, and changes nothing else: no buffer is acquired, no byte is
    written, no other region is touched. *)
Theorem lzarena_alloc_align_first_fit w a l A k r sz j :
  arena_inv w a l -> arenas w !! a = Some A ->
  0 <= j < 64 -> 0 < sz < 2 ^ 64 ->
  k ∈ l -> (index_of (tail A) l <= index_of k l)%nat ->
  regions w !! k = Some r ->
  (exists n, lzregion_available_alignment (2 ^ j) k w = Ok (n, w) /\ sz <= n) ->
  (forall k', k' ∈ l -> (index_of (tail A) l <= index_of k' l)%nat ->
     (index_of k' l < index_of k l)%nat ->
     exists n, lzregion_available_alignment (2 ^ j) k' w = Ok (n, w) /\ n < sz) ->
  exists p,
    lzarena_alloc_align backend sz (2 ^ j) a w =
    Ok (p, mkWorld (<[a := set_tail A k]> (arenas w))
                   (<[k := set_offset r (p + sz)]> (regions w)) (mem w) (log w)) /\
    p <> 0 /\ p mod 2 ^ j = 0 /\ offset r <= p < offset r + 2 ^ j /\
    p + sz <= chunk r + chunk_len r.
Proof.
  intros Hinv HA Hj Hsz Hk Hidx Hr (n & Hn & Hroom) Hfirst.
  pose proof (hi_regions w (ai_heap _ _ _ Hinv) _ _ Hr) as Hok.
  rewrite (region_avail_ok w (log w) k r j Hr Hok Hj) in Hn.
  apply Ok_pair_inj in Hn as [<- _].
  assert (Hl : l <> []) by (intros ->; apply elem_of_nil in Hk; exact Hk).
  exists (align_up (offset r) (2 ^ j)). split.
  - rewrite (alloc_align_nonempty w a l A sz (2 ^ j) Hinv HA Hl).
    apply (alloc_search_first_fit w a l A k r sz j); try assumption; try lia.
    intros k' r' Hk' Hlo Hhi Hr'.
    destruct (Hfirst k' Hk' Hlo Hhi) as (n' & Hn' & Hlt).
    pose proof (hi_regions w (ai_heap _ _ _ Hinv) _ _ Hr') as Hok'.
    rewrite (region_avail_ok w (log w) k' r' j Hr' Hok' Hj) in Hn'.
    apply Ok_pair_inj in Hn' as [<- _]. exact Hlt.
  - pose proof (pow2_lt_word j Hj) as Hp.
    destruct (avail_spec_fits (log w) k r j sz Hok Hj ltac:(lia) Hroom)
      as (H1 & H2 & H3 & H4 & H5).
    destruct (align_up_spec (offset r) (2 ^ j) ltac:(lia)) as [Hv _].
    destruct Hok as (Hkpos & Hkc & Hco & _).
    repeat split; try assumption; lia.
Qed.

(** X15: memory is reused after a bulk reset: on an arena with at least one
    region, after [lzarena_free_all] a request that fits in the span of the
    first region is served at the aligned base of that span, and neither the
    reset nor the request goes to the backing allocator or writes a byte. *)
Theorem lzarena_free_all_then_alloc w a l A r sz j :
  arena_inv w a l -> arenas w !! a = Some A -> regions w !! head A = Some r ->
  0 <= j < 64 -> 0 < sz < 2 ^ 64 ->
  align_up (chunk r) (2 ^ j) + sz <= chunk r + chunk_len r ->
  exists w1 w2,
    lzarena_free_all a w = Ok (tt, w1) /\
    lzarena_alloc_align backend sz (2 ^ j) a w1 = Ok (align_up (chunk r) (2 ^ j), w2) /\
    log w2 = log w /\ mem w2 = mem w /\
    arenas w2 = <[a := set_tail A (head A)]> (arenas w).
Proof.
  intros Hinv HA Hr Hj Hsz Hfit.
  pose proof Hinv as [Hheap Ha (A0 & HA0 & Hchain & _)].
  rewrite HA in HA0. injection HA0 as <-.
  pose proof (hi_regions w Hheap _ _ Hr) as (Hhpos & _).
  destruct l as [|h l']; [simpl in Hchain; lia|].
  destruct Hchain as (Eh & Hh & _).
  destruct (lzarena_free_all_spec w a (h :: l') Hinv) as
      (w1 & Hrun & Hinv1 & Hin & _ & (A' & HA' & Har) & Hlog & Hmem).
  rewrite HA in HA'. injection HA' as <-.
  assert (Hhin : head A ∈ h :: l') by (rewrite Eh; left).
  pose proof (Hin _ _ Hhin Hr) as Hr1.
  assert (HA1 : arenas w1 !! a = Some (set_tail A (head A)))
    by (rewrite Har; apply lookup_insert_eq).
  exists w1. eexists. split; [exact Hrun|].
  rewrite (alloc_align_nonempty w1 a (h :: l') _ sz (2 ^ j) Hinv1 HA1 ltac:(discriminate)).
  rewrite (alloc_search_first_fit w1 a (h :: l') _ (head A) _ sz j Hinv1 HA1 Hj
             ltac:(lia) Hhin ltac:(simpl; lia) Hr1).
  - simpl. split; [reflexivity|]. split; [exact Hlog|]. split; [exact Hmem|].
    rewrite Har. destruct A; simpl. apply insert_insert_eq.
  - unfold avail_spec. simpl.
    destruct (Z.geb_spec (align_up (chunk r) (2 ^ j)) (chunk r + chunk_len r)); lia.
  - intros k' r' _ Hlo Hhi. simpl in Hlo, Hhi. lia.
Qed.

End ArenaMore.

Lemma scarce_regions :
  regions scarce_world !! 69632 = Some (mkRegion 4096 4048 69680 69680 73728) /\
  regions scarce_world !! 73728 = Some (mkRegion 8192 8144 73776 73776 0).
Proof. split; vm_compute; reflexivity. Qed.

Lemma demo_arena_lookup : arenas demo_world !! demo_arena = Some (mkArena 69632 73728 0).
Proof. vm_compute. reflexivity. Qed.

Lemma lzarena_alloc_align_first_fit_witness :
  exists p,
    lzarena_alloc_align scarce_backend 5000 (2 ^ 4) demo_arena scarce_world =
    Ok (p, mkWorld (<[demo_arena := set_tail (mkArena 69632 69632 0) 73728]>
                      (arenas scarce_world))
                   (<[73728 := set_offset (mkRegion 8192 8144 73776 73776 0) (p + 5000)]>
                      (regions scarce_world))
                   (mem scarce_world) (log scarce_world)) /\
    p <> 0 /\ p mod 2 ^ 4 = 0 /\ 73776 <= p < 73776 + 2 ^ 4 /\
    p + 5000 <= 73776 + 8144.
Proof.
  apply (lzarena_alloc_align_first_fit scarce_backend scarce_world demo_arena demo_chain
           (mkArena 69632 69632 0) 73728 (mkRegion 8192 8144 73776 73776 0) 5000 4
           scarce_world_inv scarce_arena).
  - lia.
  - lia.
  - right. left.
  - simpl. lia.
  - exact (proj2 scarce_regions).
  - exists 8144. split; [vm_compute; reflexivity|lia].
  - intros k' Hk' Hlo Hhi. exists 4048.
    apply elem_of_cons in Hk' as [->|Hk'].
    + split; [vm_compute; reflexivity|lia].
    + apply list_elem_of_singleton in Hk'. subst k'. simpl in Hhi. lia.
Defined.

Lemma lzarena_free_all_then_alloc_witness :
  exists w1 w2,
    lzarena_free_all demo_arena demo_world = Ok (tt, w1) /\
    lzarena_alloc_align demo_backend 100 (2 ^ 4) demo_arena w1
    = Ok (align_up 69680 (2 ^ 4), w2) /\
    log w2 = log demo_world /\ mem w2 = mem demo_world /\
    arenas w2 = <[demo_arena := set_tail (mkArena 69632 73728 0) 69632]> (arenas demo_world).
Proof.
  apply (lzarena_free_all_then_alloc demo_backend demo_world demo_arena demo_chain
           (mkArena 69632 73728 0) (mkRegion 4096 4048 69780 69680 73728) 100 4
           demo_world_inv demo_arena_lookup demo_region).
  - lia.
  - lia.
  - vm_compute. discriminate.
Defined.

(** ** Report, bulk reset and destruction *)

Lemma report_spec_total rs lg l :
  forall s, 0 <= s < 2 ^ 64 ->
    (forall k r, k ∈ l -> rs !! k = Some r -> region_ok lg k r /\ 0 < chunk_len r) ->
    (forall k, k ∈ l -> is_Some (rs !! k)) ->
    report_spec rs l s = Some (wrap (s + total_span rs l)).
Proof.
  induction l as [|k l IH]; intros s Hs Hall Hsome; simpl.
  - rewrite Z.add_0_r, wrap_small by exact Hs. reflexivity.
  - destruct (Hsome k ltac:(left)) as [r Hr]. rewrite Hr.
    destruct (Hall k r ltac:(left) Hr) as [(Hk & Hkc & Hco & Hol & Hlen & Hend & _) Hpos].
    unfold ADDR_LIMIT in *.
    rewrite (wrap_small (offset r + chunk_len r)) by lia.
    destruct (Z.ltb_spec (offset r) (offset r + chunk_len r)) as [_|]; [|lia].
    rewrite IH.
    + f_equal. unfold wrap. rewrite Zplus_mod_idemp_l. f_equal. lia.
    + apply wrap_range.
    + intros k0 r0 Hin. apply Hall. right. exact Hin.
    + intros k0 Hin. apply Hsome. right. exact Hin.
Qed.

Lemma report_spec_empty_span rs lg l :
  forall s,
    (exists k r, k ∈ l /\ rs !! k = Some r /\ region_ok lg k r /\ chunk_len r = 0) ->
    report_spec rs l s = None.
Proof.
  induction l as [|k l IH]; intros s (k0 & r0 & Hin & Hr0 & Hok & Hz).
  - apply elem_of_nil in Hin. contradiction.
  - simpl. destruct (rs !! k) as [r|] eqn:Hr; [|reflexivity].
    destruct (Z.ltb_spec (offset r) (wrap (offset r + chunk_len r))) as [Hlt|_];
      [|reflexivity].
    apply elem_of_cons in Hin as [->|Hin].
    + rewrite Hr in Hr0. injection Hr0 as ->.
      destruct Hok as (Hk & Hkc & Hco & Hol & _). unfold ADDR_LIMIT in *.
      rewrite Hz, Z.add_0_r, wrap_small in Hlt by lia. lia.
    + apply IH. exists k0, r0. auto.
Qed.

(** X16: [lzarena_report] leaves the world as it is and, when every region
    of the chain has a span that is not empty, stores 0 as the number of
    bytes used, whatever has been handed out, and the sum of the span
    lengths (modulo 2^64) as the size; it stops on the assertion of
    [lzregion_available] as soon as one region has an empty span. *)
Theorem lzarena_report_total w a l :
  arena_inv w a l ->
  ((forall k r, k ∈ l -> regions w !! k = Some r -> 0 < chunk_len r) ->
   lzarena_report a w = Ok ((0, wrap (total_span (regions w) l)), w)) /\
  ((exists k r, k ∈ l /\ regions w !! k = Some r /\ chunk_len r = 0) ->
   lzarena_report a w = AssertFail).
Proof.
  intros Hinv. pose proof Hinv as [Hheap Ha (A & HA & Hchain & _)].
  rewrite (lzarena_report_spec w a l A Hinv HA). split.
  - intros Hpos.
    rewrite (report_spec_total (regions w) (log w) l 0); [reflexivity|lia| |].
    + intros k r Hin Hr. split; [exact (hi_regions w Hheap k r Hr)|exact (Hpos k r Hin Hr)].
    + intros k Hin. exact (chain_lookup _ _ _ _ Hchain Hin).
  - intros (k & r & Hin & Hr & Hz).
    rewrite (report_spec_empty_span (regions w) (log w) l 0); [reflexivity|].
    exists k, r. split; [exact Hin|]. split; [exact Hr|].
    split; [exact (hi_regions w Hheap k r Hr)|exact Hz].
Qed.

Lemma lzarena_report_total_witness :
  ((forall k r, k ∈ demo_chain -> regions demo_world !! k = Some r -> 0 < chunk_len r) ->
   lzarena_report demo_arena demo_world
   = Ok ((0, wrap (total_span (regions demo_world) demo_chain)), demo_world)) /\
  ((exists k r, k ∈ demo_chain /\ regions demo_world !! k = Some r /\ chunk_len r = 0) ->
   lzarena_report demo_arena demo_world = AssertFail).
Proof. apply (lzarena_report_total demo_world demo_arena demo_chain demo_world_inv). Defined.

(** X17: [lzarena_free_all] is idempotent: a second bulk reset right after
    the first one leaves the world exactly as the first one left it. *)
Theorem lzarena_free_all_idempotent w a l :
  arena_inv w a l ->
  exists w1,
    lzarena_free_all a w = Ok (tt, w1) /\ lzarena_free_all a w1 = Ok (tt, w1).
Proof.
  intros Hinv.
  destruct (lzarena_free_all_spec w a l Hinv) as
      (w1 & Hrun & Hinv1 & Hin & Hout & (A & HA & Har) & Hlog & Hmem).
  destruct (lzarena_free_all_spec w1 a l Hinv1) as
      (w2 & Hrun2 & _ & Hin2 & Hout2 & (A1 & HA1 & Har2) & Hlog2 & Hmem2).
  exists w1. split; [exact Hrun|]. rewrite Hrun2. do 2 f_equal.
  rewrite <- (world_eta w2), <- (world_eta w1). f_equal.
  - rewrite Har in HA1. rewrite lookup_insert_eq in HA1. injection HA1 as <-.
    rewrite Har2, Har. destruct A; simpl. apply insert_insert_eq.
  - apply map_eq. intros k.
    destruct (decide (k ∈ l)) as [Hk|Hk]; [|apply Hout2; exact Hk].
    pose proof Hinv as [_ _ (A0 & _ & Hchain & _)].
    destruct (chain_lookup _ _ _ _ Hchain Hk) as [r Hr].
    pose proof (Hin k r Hk Hr) as Hr1.
    rewrite (Hin2 k _ Hk Hr1), Hr1. reflexivity.
  - exact Hmem2.
  - exact Hlog2.
Qed.

Lemma lzarena_free_all_idempotent_witness :
  exists w1,
    lzarena_free_all demo_arena demo_world = Ok (tt, w1) /\
    lzarena_free_all demo_arena w1 = Ok (tt, w1).
Proof. apply (lzarena_free_all_idempotent demo_world demo_arena demo_chain demo_world_inv). Defined.

Lemma chain_delete rs p l k : chain rs p l -> k ∉ l -> chain (delete k rs) p l.
Proof.
  revert p. induction l as [|k0 l IH]; intros p Hc Hk; [exact Hc|].
  destruct Hc as (-> & Hk0 & Hc). split; [reflexivity|]. split; [exact Hk0|].
  apply not_elem_of_cons in Hk as [Hne Hk].
  rewrite lookup_delete_ne by exact Hne.
  destruct (rs !! k0) as [r|]; [|contradiction].
  apply IH; assumption.
Qed.

Lemma destroy_loop_spec `{Platform} al l :
  forall p w fuel,
    chain (regions w) p l -> (length l < fuel)%nat ->
    exists w',
      destroy_loop fuel al p w = Ok (tt, w') /\
      arenas w' = arenas w /\ mem w' = mem w /\
      log w' = rev (map (EvRelease al) l) ++ log w /\
      (forall k, k ∈ l -> regions w' !! k = None) /\
      (forall k, k ∉ l -> regions w' !! k = regions w !! k).
Proof.
  induction l as [|k l IH]; intros p w fuel Hc Hlen.
  - simpl in Hc. subst p. destruct fuel as [|fuel]; [simpl in Hlen; lia|].
    exists w. simpl. repeat split; try reflexivity.
    intros k Hk. apply elem_of_nil in Hk. contradiction.
  - pose proof (chain_nodup _ _ _ Hc) as Hnd.
    apply NoDup_cons in Hnd as [Hkl Hnd].
    destruct Hc as (-> & Hk & Hc).
    destruct (regions w !! k) as [r|] eqn:Hr; [|contradiction].
    destruct fuel as [|fuel]; [simpl in Hlen; lia|].
    set (w1 := mkWorld (arenas w) (delete k (regions w)) (mem w) (EvRelease al k :: log w)).
    assert (Hstep :
      (if negb (al =? 0) then
         let* _ := lzdealloc k (region_len r) al in
         fun w0 => Ok (tt, mkWorld (arenas w0) (delete k (regions w0)) (mem w0) (log w0))
       else lzregion_destroy k) w = Ok (tt, w1)).
    { destruct (Z.eqb_spec al 0) as [->|Hal]; cbn [negb].
      - unfold lzregion_destroy. destruct (Z.eqb_spec k 0) as [|_]; [contradiction|].
        rewrite (bind_ok _ _ _ _ _ (load_region_ok w k r Hr Hk)).
        unfold bind, emit. reflexivity.
      - unfold lzdealloc. destruct (Z.eqb_spec k 0) as [|_]; [contradiction|].
        unfold bind, emit. reflexivity. }
    destruct (IH (next r) w1 fuel) as (w' & Hrun & Har & Hmem & Hlog & Hin & Hout).
    { unfold w1. simpl. apply chain_delete; assumption. }
    { simpl in Hlen. lia. }
    exists w'. split.
    + cbn [destroy_loop]. destruct (Z.eqb_spec k 0) as [|_]; [contradiction|].
      rewrite (bind_ok _ _ _ _ _ (load_region_ok w k r Hr Hk)).
      rewrite (bind_ok _ _ _ _ _ Hstep). exact Hrun.
    + split; [exact Har|]. split; [exact Hmem|]. split.
      * rewrite Hlog. unfold w1. simpl. rewrite <- app_assoc. reflexivity.
      * split.
        -- intros k0 Hk0. apply elem_of_cons in Hk0 as [->|Hk0]; [|apply Hin; exact Hk0].
           rewrite (Hout k Hkl). unfold w1. simpl. apply lookup_delete_eq.
        -- intros k0 Hk0. apply not_elem_of_cons in Hk0 as [Hne Hk0].
           rewrite (Hout k0 Hk0). unfold w1. simpl.
           apply lookup_delete_ne. congruence.
Qed.

(** X18: [lzarena_destroy] on a well-formed arena gives back to the
    allocator of the arena every region of the chain exactly once, in chain
    order, and then the arena header; afterwards the arena and its regions no
    longer exist, and nothing else has changed. *)
Theorem lzarena_destroy_releases `{Platform} w a l A :
  arena_inv w a l -> arenas w !! a = Some A ->
  exists w',
    lzarena_destroy a w = Ok (tt, w') /\
    log w' = EvRelease (allocator A) a :: rev (map (EvRelease (allocator A)) l) ++ log w /\
    arenas w' = delete a (arenas w) /\
    (forall k, k ∈ l -> regions w' !! k = None) /\
    (forall k, k ∉ l -> regions w' !! k = regions w !! k) /\
    mem w' = mem w.
Proof.
  intros Hinv HA. pose proof Hinv as [_ Ha (A0 & HA0 & Hchain & _)].
  rewrite HA in HA0. injection HA0 as <-.
  pose proof (chain_length _ _ _ Hchain) as Hlen.
  destruct (destroy_loop_spec (allocator A) l (head A) w (S (size (regions w))) Hchain
              ltac:(lia)) as (w1 & Hrun & Har & Hmem & Hlog & Hin & Hout).
  unfold lzarena_destroy. destruct (Z.eqb_spec a 0) as [|_]; [contradiction|].
  rewrite (bind_ok _ _ _ _ _ (load_arena_ok w a A HA Ha)).
  unfold regions_fuel. unfold bind at 1.
  rewrite (bind_ok _ _ _ _ _ Hrun).
  unfold lzdealloc. destruct (Z.eqb_spec a 0) as [|_]; [contradiction|].
  unfold bind, emit. eexists. split; [reflexivity|]. simpl.
  rewrite Hlog, Har, Hmem. repeat split; assumption.
Qed.

Lemma lzarena_destroy_releases_witness :
  exists w',
    lzarena_destroy demo_arena demo_world = Ok (tt, w') /\
    log w' = EvRelease (allocator (mkArena 69632 73728 0)) demo_arena
               :: rev (map (EvRelease (allocator (mkArena 69632 73728 0))) demo_chain)
               ++ log demo_world /\
    arenas w' = delete demo_arena (arenas demo_world) /\
    (forall k, k ∈ demo_chain -> regions w' !! k = None) /\
    (forall k, k ∉ demo_chain -> regions w' !! k = regions demo_world !! k) /\
    mem w' = mem demo_world.
Proof.
  apply (lzarena_destroy_releases demo_world demo_arena demo_chain (mkArena 69632 73728 0)
           demo_world_inv demo_arena_lookup).
Defined.

(** ** Creation and growth *)

Lemma not_power_of_two al :
  0 < al < 2 ^ 64 -> (forall j, 0 <= j < 64 -> al <> 2 ^ j) -> is_power_of_two al = false.
Proof.
  intros Hal Hnp. destruct (is_power_of_two al) eqn:E; [|reflexivity].
  destruct (is_power_of_two_inv al Hal E) as (j & Hj & ->).
  exfalso. exact (Hnp j Hj eq_refl).
Qed.

Lemma available_alignment_rejects w k r al :
  regions w !! k = Some r -> k <> 0 -> is_power_of_two al = false ->
  lzregion_available_alignment al k w = AssertFail.
Proof.
  intros Hr Hk Hpow. unfold lzregion_available_alignment.
  rewrite (bind_ok _ _ _ _ _ (load_region_ok w k r Hr Hk)).
  unfold align_forward. rewrite Hpow. reflexivity.
Qed.

Section Creation.

Context `{Platform}.
Hypothesis platform_good : platform_ok.
Variable backend : list event -> Z -> Z -> Z.
Hypothesis backend_good : backend_sound backend.

Lemma growth_len_multiple size :
  0 <= size -> size + REGION_SIZE + DEFAULT_BLOCK <= 2 ^ 64 ->
  growth_len size mod DEFAULT_BLOCK = 0 /\
  growth_len size < size + REGION_SIZE + DEFAULT_BLOCK.
Proof.
  intros Hsz Hfit. pose proof (block_bounds platform_good) as (Hrs & Hda & Hblk & Hmax).
  unfold growth_len. fold DEFAULT_BLOCK.
  rewrite (wrap_small (size + REGION_SIZE)) by lia.
  rewrite (wrap_small DEFAULT_BLOCK) by lia.
  destruct (Z.gtb_spec (size + REGION_SIZE) DEFAULT_BLOCK) as [Hgt|Hle];
    [|split; [apply Z.mod_same; lia|lia]].
  set (s := size + REGION_SIZE) in *. set (L := DEFAULT_BLOCK) in *.
  pose proof (Z.mul_div_le s L ltac:(lia)) as Hq1.
  pose proof (Z.mul_succ_div_gt s L ltac:(lia)) as Hq2.
  assert (Hq0 : 0 <= s / L) by (apply Z.div_pos; lia).
  rewrite (wrap_small (s / L * L)) by lia.
  destruct (Z.ltb_spec (s / L * L) s) as [Hlt|Hge].
  - rewrite (wrap_small (s / L + 1)) by nia.
    rewrite wrap_small by nia. split; [apply Z.mod_mul; lia|nia].
  - rewrite wrap_small by lia. split; [apply Z.mod_mul; lia|nia].
Qed.

(** X19: [lzarena_create] asks the given allocator for exactly one arena
    header and returns what it got: null, with no arena added, when the
    allocator refuses, otherwise a well-formed arena with an empty chain,
    [head] and [tail] null, that remembers its allocator.  No region is
    acquired at creation. *)
Theorem lzarena_create_spec al w :
  heap_inv w ->
  let b := backend (log w) al ARENA_SIZE in
  exists w',
    lzarena_create backend al w = Ok (b, w') /\
    log w' = EvAcquire al ARENA_SIZE b :: log w /\
    regions w' = regions w /\ mem w' = mem w /\
    (b = 0 -> arenas w' = arenas w) /\
    (b <> 0 -> arenas w' = <[b := mkArena 0 0 al]> (arenas w) /\ arena_inv w' b []).
Proof.
  intros Hheap b. unfold lzarena_create, lzalloc. unfold bind at 1. fold b.
  destruct (Z.eqb_spec b 0) as [Hz|Hnz].
  - eexists. split; [unfold ret; rewrite Hz; reflexivity|]. simpl.
    split; [rewrite Hz; reflexivity|]. split; [reflexivity|]. split; [reflexivity|].
    split; [reflexivity|]. intros Hb. contradiction.
  - rewrite (bind_ok _ _ _ _ _ (store_arena_ok _ _ _ Hnz)).
    eexists. split; [reflexivity|]. simpl.
    split; [reflexivity|]. split; [reflexivity|]. split; [reflexivity|].
    split; [intros Hb; contradiction|]. intros _. split; [reflexivity|].
    split; [|exact Hnz|].
    + destruct Hheap as [Hreg Hdis]. split; simpl; [|exact Hdis].
      intros k r Hr. apply region_ok_acquire, Hreg, Hr.
    + eexists. simpl. split; [apply lookup_insert_eq|]. simpl.
      split; [reflexivity|]. left. split; reflexivity.
Qed.

(** X20: [append_region] goes to the allocator of the arena exactly once
    and asks for the smallest positive multiple of the default block that
    holds the request and a region header; it returns 1 exactly when the
    allocator refuses and 0 otherwise, and it does not stop on an
    assertion. *)
Theorem append_region_request w a l A size :
  arena_inv w a l -> arenas w !! a = Some A ->
  (l = [] /\ tail A = 0) \/ last l = Some (tail A) ->
  0 <= size -> size + REGION_SIZE + DEFAULT_BLOCK <= 2 ^ 64 ->
  exists rc w' n,
    append_region backend size a w = Ok (rc, w') /\
    log w' = EvAcquire (allocator A) n (backend (log w) (allocator A) n) :: log w /\
    n mod DEFAULT_BLOCK = 0 /\ DEFAULT_BLOCK <= n /\
    size + REGION_SIZE <= n < size + REGION_SIZE + DEFAULT_BLOCK /\
    ((rc = 1 /\ backend (log w) (allocator A) n = 0) \/
     (rc = 0 /\ backend (log w) (allocator A) n <> 0)).
Proof.
  intros Hinv HA Htl Hsz Hfit.
  pose proof (append_region_spec platform_good backend backend_good w a l A size Hinv HA Htl)
    as Hap.
  destruct (growth_len_bounds platform_good size Hsz Hfit) as [Hn1 Hn2].
  destruct (growth_len_multiple size Hsz Hfit) as [Hn3 Hn4].
  pose proof (growth_len_range size) as Hn.
  pose proof (backend_good (log w) (allocator A) (growth_len size) (proj1 Hn)) as Hb.
  simpl in Hap, Hb.
  destruct (append_region backend size a w) as [[rc w']| | |]; try contradiction.
  - exists rc, w', (growth_len size). split; [reflexivity|].
    destruct Hap as [(-> & Hb0 & ->)|(-> & Hbnz & Happ)].
    + simpl. rewrite Hb0. repeat split; try assumption. left. split; reflexivity.
    + rewrite (apd_log _ _ _ _ _ _ _ Happ). repeat split; try assumption.
      right. split; [reflexivity|exact Hbnz].
  - exfalso. destruct Hap as [Hbnz Hbad].
    destruct Hb as [?|(Hbpos & Hblim & _)]; [contradiction|].
    pose proof (append_assert_bound platform_good size _ Hsz Hbpos Hblim Hbad). lia.
Qed.

(** X21: the first request on an empty arena, when the allocator hands out
    a buffer in which the request fits after the header and the alignment
    paddings: exactly one buffer is acquired, the arena gets one region, to
    which [head] and [tail] point, and the block is the first aligned address
    of the span of that region. *)
Theorem first_alloc_on_empty_arena w a A sz j :
  arena_inv w a [] -> arenas w !! a = Some A ->
  0 <= j < 64 -> 0 < sz < 2 ^ 64 ->
  let n := growth_len sz in
  let b := backend (log w) (allocator A) n in
  b <> 0 ->
  align_up (region_base b) (2 ^ j) + sz <= b + n ->
  exists w',
    lzarena_alloc_align backend sz (2 ^ j) a w
    = Ok (align_up (region_base b) (2 ^ j), w') /\
    log w' = EvAcquire (allocator A) n b :: log w /\ mem w' = mem w /\
    arena_inv w' a [region_key b] /\
    arenas w' !! a = Some (mkArena (region_key b) (region_key b) (allocator A)) /\
    regions w' !! region_key b =
    Some (set_offset (fresh_region n b) (align_up (region_base b) (2 ^ j) + sz)).
Proof.
  intros Hinv HA Hj Hsz n b Hbnz Hfits.
  pose proof (ai_nonnull _ _ _ Hinv) as Ha.
  pose proof (pow2_lt_word j Hj) as Hp.
  destruct (align_up_spec (region_base b) (2 ^ j) ltac:(lia)) as [Hv _].
  assert (Ht0 : tail A = 0) by (apply (arena_inv_tail_nonzero w a [] A Hinv HA); reflexivity).
  pose proof (append_region_spec platform_good backend backend_good w a [] A sz Hinv HA
                (or_introl (conj eq_refl Ht0))) as Hap.
  simpl in Hap. fold n in Hap. fold b in Hap.
  rewrite lzarena_alloc_align_unfold.
  rewrite (bind_ok _ _ _ _ _ (load_arena_ok w a A HA Ha)).
  rewrite Ht0. simpl Z.eqb. cbv iota.
  unfold bind at 1. unfold bind at 1.
  destruct (append_region backend sz a w) as [[rc w1]| | |]; try contradiction.
  - destruct Hap as [(_ & Hb0 & _)|(-> & _ & Happ)]; [contradiction|].
    unfold ret at 1. simpl.
    destruct Happ as [Hbuf Habs Hinv1 Har Hnew Hold Hmem Hlog].
    rewrite Ht0 in Har. simpl in Har.
    set (A1 := mkArena (region_key b) (region_key b) (allocator A)) in *.
    assert (HA1 : arenas w1 !! a = Some A1) by (rewrite Har; apply lookup_insert_eq).
    assert (Hroom : sz <= avail_spec (fresh_region n b) (2 ^ j)).
    { unfold avail_spec. simpl.
      destruct (Z.geb_spec (align_up (region_base b) (2 ^ j))
                           (region_base b + (b + n - region_base b))); lia. }
    rewrite (alloc_search_first_fit backend w1 a ([] ++ [region_key b]) A1 (region_key b)
               (fresh_region n b) sz j Hinv1 HA1 Hj ltac:(lia)
               ltac:(simpl; left) ltac:(simpl; lia) Hnew Hroom).
    + eexists. split; [reflexivity|]. simpl.
      split; [exact Hlog|]. split; [exact Hmem|].
      split; [|split; apply lookup_insert_eq].
      destruct (bump_phase w1 a ([] ++ [region_key b]) A1 (fresh_region n b) sz j Hinv1 HA1
                  ltac:(simpl; left) Hnew Hj ltac:(lia) Hroom) as [Hinv2 _].
      unfold bump in Hinv2. simpl in Hinv2.
      replace (<[a := set_tail A1 (region_key b)]> (arenas w1)) with (arenas w1);
        [exact Hinv2|].
      symmetry. apply insert_id. exact HA1.
    + intros k' r' _ Hlo Hhi. simpl in Hlo, Hhi. lia.
  - exfalso. destruct Hap as [_ Hbad]. lia.
Qed.

End Creation.

Lemma fresh_arena_lookup : arenas fresh_world !! demo_arena = Some (mkArena 0 0 0).
Proof. vm_compute. reflexivity. Qed.

Lemma lzarena_create_spec_witness :
  let b := demo_backend (log empty_world) 0 ARENA_SIZE in
  exists w',
    lzarena_create demo_backend 0 empty_world = Ok (b, w') /\
    log w' = EvAcquire 0 ARENA_SIZE b :: log empty_world /\
    regions w' = regions empty_world /\ mem w' = mem empty_world /\
    (b = 0 -> arenas w' = arenas empty_world) /\
    (b <> 0 -> arenas w' = <[b := mkArena 0 0 0]> (arenas empty_world) /\ arena_inv w' b []).
Proof. apply (lzarena_create_spec demo_backend 0 empty_world heap_inv_empty). Defined.

Lemma append_region_request_witness :
  exists rc w' n,
    append_region demo_backend 100 demo_arena fresh_world = Ok (rc, w') /\
    log w' = EvAcquire (allocator (mkArena 0 0 0)) n
               (demo_backend (log fresh_world) (allocator (mkArena 0 0 0)) n)
               :: log fresh_world /\
    n mod DEFAULT_BLOCK = 0 /\ DEFAULT_BLOCK <= n /\
    100 + REGION_SIZE <= n < 100 + REGION_SIZE + DEFAULT_BLOCK /\
    ((rc = 1 /\ demo_backend (log fresh_world) (allocator (mkArena 0 0 0)) n = 0) \/
     (rc = 0 /\ demo_backend (log fresh_world) (allocator (mkArena 0 0 0)) n <> 0)).
Proof.
  apply (append_region_request linux64_ok demo_backend (bump_backend_sound 8)
           fresh_world demo_arena [] (mkArena 0 0 0) 100 fresh_world_inv fresh_arena_lookup).
  - left. split; reflexivity.
  - lia.
  - vm_compute. discriminate.
Defined.

Lemma first_alloc_on_empty_arena_witness :
  let n := growth_len 100 in
  let b := demo_backend (log fresh_world) (allocator (mkArena 0 0 0)) n in
  exists w',
    lzarena_alloc_align demo_backend 100 (2 ^ 4) demo_arena fresh_world
    = Ok (align_up (region_base b) (2 ^ 4), w') /\
    log w' = EvAcquire (allocator (mkArena 0 0 0)) n b :: log fresh_world /\
    mem w' = mem fresh_world /\
    arena_inv w' demo_arena [region_key b] /\
    arenas w' !! demo_arena
    = Some (mkArena (region_key b) (region_key b) (allocator (mkArena 0 0 0))) /\
    regions w' !! region_key b =
    Some (set_offset (fresh_region n b) (align_up (region_base b) (2 ^ 4) + 100)).
Proof.
  apply (first_alloc_on_empty_arena linux64_ok demo_backend (bump_backend_sound 8)
           fresh_world demo_arena (mkArena 0 0 0) 100 4 fresh_world_inv fresh_arena_lookup).
  - lia.
  - lia.
  - vm_compute. discriminate.
  - vm_compute. discriminate.
Defined.

Section Rejects.

Context `{Platform}.
Hypothesis platform_good : platform_ok.
Variable backend : list event -> Z -> Z -> Z.
Hypothesis backend_good : backend_sound backend.

(** X22: on an arena that has a region, an alignment that is neither 0 nor
    a power of two stops [lzarena_alloc_align], [lzarena_calloc_align] and a
    growing [lzarena_realloc_align] on the assertion of [align_forward],
    whatever the size and whatever room there is. *)
Theorem lzarena_alloc_align_rejects_alignment w a l sz al p old_size :
  arena_inv w a l -> l <> [] ->
  0 < al < 2 ^ 64 -> (forall j, 0 <= j < 64 -> al <> 2 ^ j) ->
  lzarena_alloc_align backend sz al a w = AssertFail /\
  lzarena_calloc_align backend sz al a w = AssertFail /\
  (old_size < sz -> lzarena_realloc_align backend p old_size sz al a w = AssertFail).
Proof.
  intros Hinv Hl Hal Hnp.
  pose proof (not_power_of_two al Hal Hnp) as Hpow.
  pose proof Hinv as [Hheap Ha (A & HA & Hchain & Htok)].
  destruct Htok as [[? _]|Htin]; [contradiction|].
  pose proof (chain_nonzero _ _ _ _ Hchain Htin) as Htnz.
  destruct (chain_lookup _ _ _ _ Hchain Htin) as [rt Hrt].
  pose proof (available_alignment_rejects w (tail A) rt al Hrt Htnz Hpow) as Hav.
  assert (Hsearch : search_loop (S (size (regions w))) sz al a w = Ok (tt, w) \/
                    search_loop (S (size (regions w))) sz al a w = AssertFail).
  { cbn [search_loop].
    rewrite (bind_ok _ _ _ _ _ (load_arena_ok w a A HA Ha)).
    rewrite (bind_ok _ _ _ _ _ (load_region_ok w (tail A) rt Hrt Htnz)).
    destruct (next rt =? 0); [left; reflexivity|right].
    unfold bind at 1. rewrite Hav. reflexivity. }
  assert (Hall : lzarena_alloc_align backend sz al a w = AssertFail).
  { rewrite (alloc_align_nonempty backend w a l A sz al Hinv HA Hl).
    unfold alloc_search, regions_fuel. unfold bind at 1. unfold bind at 1.
    destruct Hsearch as [->| ->]; [|reflexivity].
    unfold alloc_finish.
    rewrite (bind_ok _ _ _ _ _ (load_arena_ok w a A HA Ha)).
    unfold bind at 1. rewrite Hav. reflexivity. }
  split; [exact Hall|]. split.
  - unfold lzarena_calloc_align. unfold bind at 1. rewrite Hall. reflexivity.
  - intros Hlt. unfold lzarena_realloc_align.
    destruct (Z.leb_spec sz old_size) as [|_]; [lia|].
    unfold bind at 1. rewrite Hall. reflexivity.
Qed.

(** X23: [lzarena_calloc_align] returns what [lzarena_alloc_align] returns
    and leaves the arena, the regions and the backing allocator as that call
    leaves them; when the block is not null all its bytes are zero afterwards
    and every byte outside of it is as it was before the call; when it is
    null no byte is written. *)
Theorem lzarena_calloc_align_zeroes w a l sz j :
  arena_inv w a l -> 0 <= j < 64 -> 0 <= sz < 2 ^ 64 ->
  match lzarena_calloc_align backend sz (2 ^ j) a w with
  | Ok (p, w') =>
      exists w1,
        lzarena_alloc_align backend sz (2 ^ j) a w = Ok (p, w1) /\
        arenas w' = arenas w1 /\ regions w' = regions w1 /\ log w' = log w1 /\
        (p = 0 -> mem w' = mem w) /\
        (p <> 0 ->
         (forall i, 0 <= i < sz -> mem w' (p + i) = 0) /\
         (forall x, x < p \/ p + sz <= x -> mem w' x = mem w x))
  | AssertFail => 2 ^ 64 < sz + REGION_SIZE + DEFAULT_BLOCK
  | _ => False
  end.
Proof.
  intros Hinv Hj Hsz.
  pose proof (lzarena_alloc_align_spec platform_good backend backend_good w a l sz j
                Hinv Hj Hsz) as Hpost.
  unfold lzarena_calloc_align. unfold bind at 1.
  destruct (lzarena_alloc_align backend sz (2 ^ j) a w) as [[p w1]| | |] eqn:Hrun;
    try exact Hpost.
  destruct Hpost as (l1 & Hinv1 & Hg & Hs).
  destruct (Z.eqb_spec p 0) as [Hp0|Hp]; cbn [negb].
  - unfold bind, ret. exists w1. split; [reflexivity|].
    repeat split; try reflexivity; try (intros Hp; contradiction).
    intros _. exact (g_mem _ _ _ _ _ Hg).
  - unfold bind at 1. unfold memset.
    destruct (Z.eqb_spec p 0) as [|_]; [contradiction|]. unfold ret. simpl.
    exists w1. split; [reflexivity|].
    split; [reflexivity|]. split; [reflexivity|]. split; [reflexivity|].
    split; [intros Hp0; contradiction|]. intros _.
    destruct (served_tail_in _ _ _ _ _ _ _ Hinv1 Hs Hp) as
        (A' & rt' & _ & _ & _ & Hok' & _ & E1 & E2 & E3 & _).
    destruct Hok' as (Htpos & Htc & _ & Hol & _ & Hend & _).
    unfold ADDR_LIMIT in *.
    assert (Hlim : p + sz <= 2 ^ 64) by lia.
    rewrite (g_mem _ _ _ _ _ Hg).
    destruct (memset_bytes_spec (Z.to_nat sz) (mem w) p 0) as [Hset Hkeep];
      rewrite ?Z2Nat.id by lia; try lia.
    split; [intros i Hi; apply Hset; lia|intros x Hx; apply Hkeep; lia].
Qed.

(** X24: a region created and then destroyed: the store of regions is as
    before and the log shows one acquisition and one release; the address
    given back to the backing allocator is the address of the region header,
    which lies in the buffer and is the address the allocator handed out only
    when that one is aligned to the default alignment. *)
Theorem lzregion_create_destroy w n :
  heap_inv w -> 0 <= n ->
  let b := backend (log w) 0 n in
  b <> 0 -> REGION_SIZE + 2 * LZARENA_DEFAULT_ALIGNMENT <= n ->
  exists k w1 w2,
    lzregion_create backend n w = Ok (k, w1) /\
    lzregion_destroy k w1 = Ok (tt, w2) /\
    regions w2 = regions w /\ arenas w2 = arenas w /\ mem w2 = mem w /\
    log w2 = EvRelease 0 k :: EvAcquire 0 n b :: log w /\
    b <= k < b + LZARENA_DEFAULT_ALIGNMENT /\
    (k = b <-> b mod LZARENA_DEFAULT_ALIGNMENT = 0).
Proof.
  intros Hheap Hn b Hbnz Hroom.
  destruct (backend_good (log w) 0 n Hn) as [Hbad|(Hb & Hlim & Hfree)];
    [fold b in Hbad; contradiction|]. fold b in Hb, Hlim, Hfree.
  assert (Hb' : b <= ADDR_LIMIT) by lia.
  destruct (init_facts platform_good b Hb Hb') as (Hk & Hkl & Hc).
  pose proof (default_alignment_pos platform_good) as Hda.
  assert (Hfit : region_base b <= b + n) by lia.
  pose proof (fresh_key_absent platform_good w b n Hheap Hb Hn Hlim Hfree Hfit) as Habs.
  set (w1 := mkWorld (arenas w) (<[region_key b := fresh_region n b]> (regions w)) (mem w)
                     (EvAcquire 0 n b :: log w)).
  assert (Hr1 : regions w1 !! region_key b = Some (fresh_region n b))
    by (unfold w1; simpl; apply lookup_insert_eq).
  assert (Hknz : region_key b <> 0) by lia.
  exists (region_key b), w1. eexists.
  split.
  { unfold lzregion_create, lzalloc. unfold bind at 1. fold b.
    destruct (Z.eqb_spec b 0) as [|_]; [contradiction|].
    rewrite (lzregion_init_spec platform_good _ n b Hb Hn Hlim).
    destruct (Z.leb_spec (region_base b) (b + n)) as [_|]; [|lia].
    reflexivity. }
  split.
  { unfold lzregion_destroy.
    destruct (Z.eqb_spec (region_key b) 0) as [|_]; [lia|].
    rewrite (bind_ok _ _ _ _ _ (load_region_ok w1 (region_key b) (fresh_region n b)
                                  Hr1 Hknz)).
    unfold bind, emit. reflexivity. }
  simpl. split; [apply delete_insert_id; exact Habs|].
  split; [reflexivity|]. split; [reflexivity|]. split; [reflexivity|].
  split; [exact Hk|].
  destruct (align_up_spec b LZARENA_DEFAULT_ALIGNMENT (proj1 Hda)) as [_ Hmod].
  fold (region_key b) in Hmod. split.
  - intros E. rewrite <- E. exact Hmod.
  - intros E. unfold region_key, align_up. rewrite E, Z.sub_0_r, Z.mod_same by lia. lia.
Qed.

End Rejects.

Lemma lzarena_alloc_align_rejects_alignment_witness :
  lzarena_alloc_align demo_backend 64 24 demo_arena demo_world = AssertFail /\
  lzarena_calloc_align demo_backend 64 24 demo_arena demo_world = AssertFail /\
  (8 < 64 -> lzarena_realloc_align demo_backend 69680 8 64 24 demo_arena demo_world
             = AssertFail).
Proof.
  apply (lzarena_alloc_align_rejects_alignment demo_backend demo_world demo_arena demo_chain
           64 24 69680 8 demo_world_inv); try lia; try discriminate.
  intros j Hj E.
  assert (Hc : forallb (fun i => negb (24 =? 2 ^ Z.of_nat i)) (seq 0 64) = true)
    by (vm_compute; reflexivity).
  rewrite forallb_forall in Hc. specialize (Hc (Z.to_nat j)).
  rewrite Z2Nat.id in Hc by lia. rewrite <- E, Z.eqb_refl in Hc.
  discriminate Hc. apply in_seq. lia.
Defined.

Lemma lzarena_calloc_align_zeroes_witness :
  match lzarena_calloc_align demo_backend 64 (2 ^ 4) demo_arena demo_world with
  | Ok (p, w') =>
      exists w1,
        lzarena_alloc_align demo_backend 64 (2 ^ 4) demo_arena demo_world = Ok (p, w1) /\
        arenas w' = arenas w1 /\ regions w' = regions w1 /\ log w' = log w1 /\
        (p = 0 -> mem w' = mem demo_world) /\
        (p <> 0 ->
         (forall i, 0 <= i < 64 -> mem w' (p + i) = 0) /\
         (forall x, x < p \/ p + 64 <= x -> mem w' x = mem demo_world x))
  | AssertFail => 2 ^ 64 < 64 + REGION_SIZE + DEFAULT_BLOCK
  | _ => False
  end.
Proof.
  apply (lzarena_calloc_align_zeroes linux64_ok demo_backend (bump_backend_sound 8)
           demo_world demo_arena demo_chain 64 4 demo_world_inv); lia.
Defined.

Lemma lzregion_create_destroy_witness :
  let b := demo_backend (log empty_world) 0 4096 in
  exists k w1 w2,
    lzregion_create demo_backend 4096 empty_world = Ok (k, w1) /\
    lzregion_destroy k w1 = Ok (tt, w2) /\
    regions w2 = regions empty_world /\ arenas w2 = arenas empty_world /\
    mem w2 = mem empty_world /\
    log w2 = EvRelease 0 k :: EvAcquire 0 4096 b :: log empty_world /\
    b <= k < b + LZARENA_DEFAULT_ALIGNMENT /\
    (k = b <-> b mod LZARENA_DEFAULT_ALIGNMENT = 0).
Proof.
  apply (lzregion_create_destroy linux64_ok demo_backend (bump_backend_sound 8)
           empty_world 4096 heap_inv_empty).
  - lia.
  - vm_compute. discriminate.
  - vm_compute. discriminate.
Defined.
